(** * Smart DJ: harmonic compatibility, rule-based mix decision, render pipeline

    A shallow embedding of
      - [backend/app/analysis/camelot.py]      (module [Camelot]),
      - [backend/app/analysis/engine.py], [compute_compatibility]
                                               (module [Analysis]),
      - [backend/app/strategist/fallback.py]   (module [Fallback]),
      - [backend/app/renderer/engine.py]       (module [Renderer]),
    over the records of [backend/app/models/contracts.py] (module [Contracts]).

    Conventions.  Python [int] is [Z].  Python [str] is [string]; a character
    is a code point below 256.  Python [float] is modelled by the
    rationals [Q]: a finite double is the rational it denotes, [x / 0]
    raises, and [round(x, n)] rounds the exact value half-to-even.  In the
    transition window of the renderer and in the times of its extract and
    crossfade commands, each operation is rounded to binary64 (module
    [Binary64]).  Elsewhere (the analysis, the rule-based engine, the EQ
    filters, the ratio and the rate handed to the stretch and pitch tools)
    the arithmetic is exact, which can differ from the doubles of the code
    in the last decimal printed when a value falls on a rounding tie.  A
    raised exception is [None] (or a value of [exn] where the kind
    matters). *)

From Stdlib Require Import ZArith QArith Qround Qabs List String Ascii Bool.
From Stdlib Require Import DecimalString Lia Lqa Qpower.
From Corelib Require PrimFloat FloatOps SpecFloat.
Import ListNotations.

Local Open Scope Z_scope.

(* ------------------------------------------------------------------ *)
(** * Python built-ins used by the sources *)

Module Py.

(** [str.isspace] on code points below 256: TAB..CR, FS..US, SPACE, NEL, NBSP.
    These are the characters [str.strip] removes. *)
Definition is_space (c : ascii) : bool :=
  let n := N_of_ascii c in
  ((9 <=? n) && (n <=? 13) || (28 <=? n) && (n <=? 32) || (n =? 133) || (n =? 160))%N.

(** The characters [int(str)] skips on both ends: the ASCII white space
    TAB..CR and SPACE, and the white space above 127, NEL and NBSP. *)
Definition is_int_space (c : ascii) : bool :=
  let n := N_of_ascii c in
  ((9 <=? n) && (n <=? 13) || (n =? 32) || (n =? 133) || (n =? 160))%N.

Definition digit_value (c : ascii) : option Z :=
  let n := Z.of_N (N_of_ascii c) in
  if (48 <=? n) && (n <=? 57) then Some (n - 48) else None.

Fixpoint drop_while (p : ascii -> bool) (l : list ascii) : list ascii :=
  match l with
  | c :: l' => if p c then drop_while p l' else l
  | [] => []
  end.

Definition underscore : ascii := "_"%char.

(** The digit run of an integer literal: decimal digits, single underscores
    allowed between two digits.  [acc] is the value read so far, [n] the
    number of digits read (leading zeros count), [prev_us] tells whether the
    previous character was an underscore.  Returns the value, the digit count
    and the unread rest. *)
Fixpoint scan_digits (l : list ascii) (acc : Z) (n : nat) (prev_us : bool)
  : option (Z * nat * list ascii) :=
  match l with
  | [] => if prev_us then None else Some (acc, n, [])
  | c :: l' =>
      match digit_value c with
      | Some d => scan_digits l' (10 * acc + d) (S n) false
      | None =>
          if Ascii.eqb c underscore then
            if prev_us then None else scan_digits l' acc n true
          else if prev_us then None else Some (acc, n, l)
      end
  end.

(** Default of [sys.get_int_max_str_digits()]: longer digit strings are a
    [ValueError]. *)
Definition int_max_str_digits : nat := 4300.

(** [int(s)] for a [str]; [None] is [ValueError]. *)
Definition int_of_chars (l : list ascii) : option Z :=
  let l1 := drop_while is_int_space l in
  let '(sign, l2) :=
    match l1 with
    | c :: r => if Ascii.eqb c "+"%char then (1, r)
                else if Ascii.eqb c "-"%char then (-1, r)
                else (1, l1)
    | [] => (1, l1)
    end in
  match l2 with
  | [] => None
  | c :: _ =>
      if Ascii.eqb c underscore then None
      else
        match scan_digits l2 0 0%nat false with
        | None => None
        | Some (v, n, rest) =>
            match n with
            | O => None
            | _ =>
                match drop_while is_int_space rest with
                | [] => if (n <=? int_max_str_digits)%nat then Some (sign * v) else None
                | _ :: _ => None
                end
            end
        end
  end.

Definition int (s : string) : option Z := int_of_chars (list_ascii_of_string s).

(** [s[:-1]] *)
Definition but_last (s : string) : string :=
  string_of_list_ascii (removelast (list_ascii_of_string s)).

(** [s[-1]]; [None] is [IndexError]. *)
Definition last_char (s : string) : option ascii :=
  match list_ascii_of_string s with
  | [] => None
  | c :: l => Some (last l c)
  end.

(** [d.get(k)] on a dict written as the list of its items. *)
Fixpoint dict_get {V : Type} (d : list (string * V)) (k : string) : option V :=
  match d with
  | [] => None
  | (k', v) :: d' => if String.eqb k k' then Some v else dict_get d' k
  end.

Fixpoint zdict_get {V : Type} (d : list (Z * V)) (k : Z) : option V :=
  match d with
  | [] => None
  | (k', v) :: d' => if k =? k' then Some v else zdict_get d' k
  end.

(** Round half to even to an integer. *)
Definition round_half_even (x : Q) : Z :=
  let f := Qfloor x in
  match (x - inject_Z f ?= 1 # 2)%Q with
  | Lt => f
  | Gt => f + 1
  | Eq => if Z.even f then f else f + 1
  end.

(** [round(x, n)] for a float [x] and [n >= 0] decimal places. *)
Definition round (x : Q) (n : nat) : Q :=
  let p := 10 ^ Z.of_nat n in
  Qred (inject_Z (round_half_even (x * inject_Z p)) / inject_Z p).

(** [x / y] on floats; [None] is [ZeroDivisionError]. *)
Definition div (x y : Q) : option Q :=
  if Qeq_bool y 0 then None else Some (x / y)%Q.

Definition ltb (x y : Q) : bool := match (x ?= y)%Q with Lt => true | _ => false end.
Definition leb (x y : Q) : bool := Qle_bool x y.
Definition eqb (x y : Q) : bool := Qeq_bool x y.

End Py.

(* ------------------------------------------------------------------ *)
(** * The arithmetic of Python floats: IEEE 754 binary64 *)

Module Binary64.

Local Open Scope Q_scope.

(** [2 ** e] *)
Definition two_to (e : Z) : Q := 2 ^ e.

(** The exponent of the last bit of the double nearest to [x <> 0]: the [e]
    with [2 ** 52 <= |x| / 2 ** e < 2 ** 53]. *)
Definition exponent (x : Q) : Z :=
  let k := (Z.log2 (Z.abs (Qnum x)) - Z.log2 (Zpos (Qden x)))%Z in
  if Py.ltb (Qabs x / two_to (k - 52)) (two_to 52) then (k - 53)%Z else (k - 52)%Z.

(** The double nearest to [x], ties to the even significand: the rounding
    every float operation of Python ends with.  The exponent is not
    bounded: this is binary64 on the values [in_range], where no operation
    overflows or falls into the subnormal numbers. *)
Definition fl64 (x : Q) : Q :=
  if Py.eqb x 0 then 0
  else
    let p := two_to (exponent x) in
    Qred (inject_Z (Py.round_half_even (x / p)) * p).

(** Zero and the normal numbers of binary64, up to the largest double. *)
Definition in_range (x : Q) : Prop :=
  x == 0 \/
  two_to (-1022) <= Qabs x <= inject_Z (2 ^ 53 - 1) * two_to 971.

(** [x + y], [x - y], [x * y] and [x / y] on floats. *)
Definition add (x y : Q) : Q := fl64 (x + y).
Definition sub (x y : Q) : Q := fl64 (x - y).
Definition mul (x y : Q) : Q := fl64 (x * y).
Definition div (x y : Q) : option Q :=
  if Py.eqb y 0 then None else Some (fl64 (x / y)).

(** [x / 1000] *)
Definition div1000 (x : Q) : Q := fl64 (x / 1000).

(** The relative error of one rounding, [2 ** -53]. *)
Definition unit_roundoff : Q := 1 # (2 ^ 53).

End Binary64.

(** The doubles of the kernel, to compare [Binary64] with. *)
Module Doubles.
Import PrimFloat FloatOps SpecFloat.

(** The rational a finite double denotes. *)
Definition to_Q (f : float) : Q :=
  match Prim2SF f with
  | S754_finite s m e =>
      Qred ((if s then -1 else 1) * inject_Z (Zpos m) * Binary64.two_to e)%Q
  | _ => 0%Q
  end.

Definition is_finite (f : float) : bool :=
  match Prim2SF f with
  | S754_finite _ _ _ | S754_zero _ => true
  | _ => false
  end.

(** [trans_dur * sa_sf if sa_sf != 1.0 else trans_dur] of [render_mix], on
    the doubles themselves. *)
Definition orig_trans_dur_a (trans_dur sa_sf : float) : float :=
  if negb (sa_sf =? 1)%float then (trans_dur * sa_sf)%float else trans_dur.

(** A transition of eight bars at 125 BPM, and the double of 0.9013. *)
Definition eight_bars_125 : float := 15360%float.
Definition factor_09013 : float := 0x1.cd77318fc5048p-1%float.

(** The smallest positive double, and one half. *)
Definition smallest : float := 0x1p-1074%float.
Definition half : float := 0.5%float.

(** Whether [Binary64] computes the product, quotient, sum and difference
    of two doubles as the kernel does, when the kernel's result is finite. *)
Definition agrees (a b : float) : bool :=
  let same (r : float) (q : Q) := negb (is_finite r) || Qeq_bool (to_Q r) q in
  same (a * b)%float (Binary64.mul (to_Q a) (to_Q b))
  && same (a + b)%float (Binary64.add (to_Q a) (to_Q b))
  && same (a - b)%float (Binary64.sub (to_Q a) (to_Q b))
  && match Binary64.div (to_Q a) (to_Q b) with
     | Some q => same (a / b)%float q
     | None => true
     end.

Definition samples : list (float * float) :=
  [ (15360, 0x1.cd77318fc5048p-1); (39994.5, 1000); (180001.5, 1000);
    (128, 0x1.f533333333333p+6); (1, 3); (3, 7); (-7.25, 0x1.3333333333333p-2);
    (0x1.999999999999ap-4, 0x1.999999999999ap-3); (0x1p-1000, 3);
    (0x1p+53, 1); (4503599627370497, 0.5); (0x1.d6f34547df3b6p+26, 1000);
    (1e15, 0x1.0000000000001p+0); (-39994.5, 1000); (2.5, 0x1p-20) ]%float.

End Doubles.

(* ------------------------------------------------------------------ *)
(** * analysis/camelot.py *)

Module Camelot.

Local Open Scope string_scope.

Definition KEY_TO_CAMELOT : list (string * string) :=
  [ ("C major", "8B"); ("Db major", "3B"); ("D major", "10B"); ("Eb major", "5B");
    ("E major", "12B"); ("F major", "7B"); ("F# major", "2B"); ("Gb major", "2B");
    ("G major", "9B"); ("Ab major", "4B"); ("A major", "11B"); ("Bb major", "6B");
    ("B major", "1B");
    ("C minor", "5A"); ("C# minor", "12A"); ("Db minor", "12A"); ("D minor", "7A");
    ("Eb minor", "2A"); ("E minor", "9A"); ("F minor", "4A"); ("F# minor", "11A");
    ("Gb minor", "11A"); ("G minor", "6A"); ("G# minor", "1A"); ("Ab minor", "1A");
    ("A minor", "8A"); ("Bb minor", "3A"); ("B minor", "10A");
    ("C", "8B"); ("Cm", "5A"); ("C#", "3B"); ("C#m", "12A");
    ("Db", "3B"); ("Dbm", "12A"); ("D", "10B"); ("Dm", "7A");
    ("D#", "5B"); ("D#m", "2A"); ("Eb", "5B"); ("Ebm", "2A");
    ("E", "12B"); ("Em", "9A"); ("F", "7B"); ("Fm", "4A");
    ("F#", "2B"); ("F#m", "11A"); ("Gb", "2B"); ("Gbm", "11A");
    ("G", "9B"); ("Gm", "6A"); ("G#", "4B"); ("G#m", "1A");
    ("Ab", "4B"); ("Abm", "1A"); ("A", "11B"); ("Am", "8A");
    ("A#", "6B"); ("A#m", "3A"); ("Bb", "6B"); ("Bbm", "3A");
    ("B", "1B"); ("Bm", "10A") ].

Definition key_to_camelot (key : string) : string :=
  match Py.dict_get KEY_TO_CAMELOT key with
  | Some c => c
  | None => "?"
  end.

(** The [try] block of [camelot_distance] for one code:
    [int(cam[:-1]), cam[-1]], with [ValueError] and [IndexError] as [None]. *)
Definition split_code (cam : string) : option (Z * ascii) :=
  match Py.int (Py.but_last cam) with
  | None => None
  | Some num =>
      match Py.last_char cam with
      | None => None
      | Some letter => Some (num, letter)
      end
  end.

Definition camelot_distance (cam_a cam_b : string) : Z :=
  if (cam_a =? "?") || (cam_b =? "?") then -1
  else
    match split_code cam_a with
    | None => -1
    | Some (num_a, letter_a) =>
        match split_code cam_b with
        | None => -1
        | Some (num_b, letter_b) =>
            if Ascii.eqb letter_a letter_b then
              let diff := Z.abs (num_a - num_b) in
              Z.min diff (12 - diff)
            else if (num_a =? num_b)%Z then 0
            else
              let diff := Z.abs (num_a - num_b) in
              Z.min diff (12 - diff) + 1
        end
    end.

Definition camelot_relation (cam_a cam_b : string) : string :=
  let dist := camelot_distance cam_a cam_b in
  if (dist <? 0)%Z then "unknown"
  else if (dist =? 0)%Z then "same"
  else if (dist =? 1)%Z then "adjacent"
  else if (dist =? 2)%Z then "relative"
  else "incompatible".

Definition scores : list (Z * Q) :=
  [ (0, 1%Q); (1, 85 # 100); (2, 6 # 10); (3, 4 # 10);
    (4, 2 # 10); (5, 1 # 10); (6, 5 # 100) ].

Definition harmonic_score (cam_a cam_b : string) : Q :=
  let dist := camelot_distance cam_a cam_b in
  if (dist <? 0)%Z then 1 # 2
  else
    match Py.zdict_get scores dist with
    | Some s => s
    | None => 5 # 100
    end.

Definition _CAMELOT_TO_PITCH : list (string * Z) :=
  [ ("1A", 8); ("2A", 3); ("3A", 10); ("4A", 5); ("5A", 0); ("6A", 7);
    ("7A", 2); ("8A", 9); ("9A", 4); ("10A", 11); ("11A", 6); ("12A", 1);
    ("1B", 11); ("2B", 6); ("3B", 1); ("4B", 8); ("5B", 3); ("6B", 10);
    ("7B", 5); ("8B", 0); ("9B", 7); ("10B", 2); ("11B", 9); ("12B", 4) ].

Definition pitch_shift_to_match (cam_source cam_target : string) : Z :=
  if (camelot_distance cam_source cam_target <=? 1)%Z then 0
  else
    match Py.dict_get _CAMELOT_TO_PITCH cam_source,
          Py.dict_get _CAMELOT_TO_PITCH cam_target with
    | Some pitch_src, Some pitch_tgt =>
        let diff := (pitch_tgt - pitch_src) mod 12 in
        if (diff >? 6)%Z then diff - 12 else diff
    | _, _ => 0
    end.

(** The 24 wheel codes: the codes the key table can produce. *)
Definition wheel_codes : list string := map fst _CAMELOT_TO_PITCH.

(** What [camelot_distance] sees of one code: nothing for the sentinel ["?"]
    and for a code its [try] block rejects, else the number and ring letter. *)
Definition code_of (cam : string) : option (Z * ascii) :=
  if cam =? "?" then None else split_code cam.

End Camelot.

(* ------------------------------------------------------------------ *)
(** * models/contracts.py *)

Module Contracts.

Module Phrase.
Record t := mk
  { start_ms : Q; end_ms : Q; bars : Z; type : string; avg_energy : Q }.
End Phrase.

Module EnergyPoint.
Record t := mk { ms : Q; rms : Q }.
End EnergyPoint.

Module SongAnalysis.
Record t := mk
  { filename : string;
    duration_ms : Q;
    bpm : Q;
    bpm_confidence : Q;
    key : string;
    key_confidence : Q;
    camelot : string;
    beats_ms : list Q;
    downbeats_ms : list Q;
    phrases : list Phrase.t;
    energy_curve : list EnergyPoint.t;
    bpm_warning : option string;
    key_warning : option string }.
End SongAnalysis.

(** [Union[bool, str]]: [True], [False] or ["unknown"]. *)
Inductive bool_or_str := IsBool (b : bool) | IsStr (s : string).

Module Compatibility.
Record t := mk
  { bpm_diff : Q;
    bpm_ratio : Q;
    key_compatible : bool_or_str;
    camelot_distance : Z;
    camelot_relation : string;
    needs_tempo_adjustment : bool;
    recommended_target_bpm : Q;
    harmonic_mixing_score : Q }.
End Compatibility.

Module ContractA.
Record t := mk
  { song_a : SongAnalysis.t; song_b : SongAnalysis.t;
    compatibility : Compatibility.t }.
End ContractA.

Module SongMixPoint.
Record t := mk
  { out_point_ms : option Q;
    in_point_ms : option Q;
    out_phrase : option string;
    in_phrase : option string;
    fade_start_ms : option Q;
    fade_end_ms : option Q;
    tempo_stretch_factor : Q;
    pitch_shift_semitones : Z }.
End SongMixPoint.

Module EQAutomationEntry.
Record t := mk
  { action : string; start_ms : Q; end_ms : Q; from_db : Q; to_db : Q;
    curve : string }.
End EQAutomationEntry.

Module EQAutomation.
Record t := mk
  { song_a_bass : option EQAutomationEntry.t;
    song_b_bass : option EQAutomationEntry.t;
    song_a_highs : option EQAutomationEntry.t;
    song_b_highs : option EQAutomationEntry.t;
    song_a_mids : option EQAutomationEntry.t;
    song_b_mids : option EQAutomationEntry.t }.
End EQAutomation.

Module Transition.
Record t := mk
  { total_duration_ms : Q; crossfade_curve : string;
    eq_automation : EQAutomation.t }.
End Transition.

Module SFXConfig.
Record t := mk
  { enabled : bool;
    type : string;
    trigger_reason : string;
    position_ms : Q;
    duration_ms : Q;
    source : string;
    elevenlabs_prompt : string;
    fallback_file : string }.

(** The field defaults of the model. *)
Definition default : t := mk false "none" "" 0 4000 "library" "" "".
End SFXConfig.

Module MixDecision.
Record t := mk
  { strategy : string;
    confidence : Q;
    reasoning : string;
    song_a : SongMixPoint.t;
    song_b : SongMixPoint.t;
    transition : Transition.t;
    sfx : SFXConfig.t;
    suggestion : option string }.
End MixDecision.

Module ContractB.
Record t := mk { mix_decision : MixDecision.t }.
End ContractB.

End Contracts.

(* ------------------------------------------------------------------ *)
(** * analysis/engine.py: compute_compatibility *)

Module Analysis.
Import Contracts.

Definition py_max (x y : Q) : Q := if Py.ltb x y then y else x.
Definition py_min (x y : Q) : Q := if Py.ltb y x then y else x.

Definition compute_compatibility (song_a song_b : SongAnalysis.t) : Compatibility.t :=
  let a_bpm := SongAnalysis.bpm song_a in
  let b_bpm := SongAnalysis.bpm song_b in
  let bpm_diff := Qabs (a_bpm - b_bpm) in
  let bpm_ratio :=
    if Py.ltb 0 (py_min a_bpm b_bpm)
    then (py_max a_bpm b_bpm / py_min a_bpm b_bpm)%Q else 1%Q in
  let cam_dist :=
    Camelot.camelot_distance (SongAnalysis.camelot song_a) (SongAnalysis.camelot song_b) in
  let cam_rel :=
    Camelot.camelot_relation (SongAnalysis.camelot song_a) (SongAnalysis.camelot song_b) in
  let harm_score :=
    Camelot.harmonic_score (SongAnalysis.camelot song_a) (SongAnalysis.camelot song_b) in
  let key_compat :=
    if Py.ltb (SongAnalysis.key_confidence song_a) (1 # 2)
       || Py.ltb (SongAnalysis.key_confidence song_b) (1 # 2)
    then IsStr "unknown"
    else IsBool (cam_dist <=? 1) in
  let needs_tempo_adj := Py.ltb 2 bpm_diff in
  let target_bpm := Py.round ((a_bpm + b_bpm) / 2) 1 in
  Compatibility.mk
    (Py.round bpm_diff 1)
    (Py.round bpm_ratio 3)
    key_compat
    cam_dist
    cam_rel
    needs_tempo_adj
    target_bpm
    (Py.round harm_score 2).

(** [analyze_pair] once both songs are analysed. *)
Definition pair_contract (song_a song_b : SongAnalysis.t) : ContractA.t :=
  ContractA.mk song_a song_b (compute_compatibility song_a song_b).

End Analysis.

(* ------------------------------------------------------------------ *)
(** * strategist/fallback.py *)

Module Fallback.
Import Contracts.

Local Open Scope string_scope.

(** The format [{n:+d}] of an [int]. *)
Definition format_plus_d (n : Z) : string :=
  (if (n <? 0)%Z then "" else "+") ++ DecimalString.NilZero.string_of_int (Z.to_int n).

(** [min(l, key=key)] with [best] the minimum so far: the first element of
    least key wins. *)
Fixpoint min_scan (key : Q -> Q) (best : Q) (l : list Q) : Q :=
  match l with
  | [] => best
  | d :: l' => min_scan key (if Py.ltb (key d) (key best) then d else best) l'
  end.

Definition _nearest_downbeat (downbeats_ms : list Q) (target_ms : Q) : Q :=
  match downbeats_ms with
  | [] => target_ms
  | d :: l => min_scan (fun d => Qabs (d - target_ms)) d l
  end.

Fixpoint _phrase_at (phrases : list Phrase.t) (ms : Q) : string :=
  match phrases with
  | [] => "unknown"
  | p :: phrases' =>
      if Py.leb (Phrase.start_ms p) ms && Py.leb ms (Phrase.end_ms p)
      then Phrase.type p
      else _phrase_at phrases' ms
  end.

(** The out-point block: nearest downbeat to the user's marker, or to 75 %
    of song A. *)
Definition out_point (sa : SongAnalysis.t) (transition_start_ms : option Q) : Q :=
  match transition_start_ms with
  | Some t => _nearest_downbeat (SongAnalysis.downbeats_ms sa) t
  | None =>
      let target_ms := (SongAnalysis.duration_ms sa * (3 # 4))%Q in
      _nearest_downbeat (SongAnalysis.downbeats_ms sa) target_ms
  end.

(** The [for phrase in sb.phrases] loop with its [break]. *)
Fixpoint first_suitable_phrase (phrases : list Phrase.t) : Q :=
  match phrases with
  | [] => 0
  | phrase :: phrases' =>
      let ty := Phrase.type phrase in
      if (ty =? "intro") || (ty =? "verse") || (ty =? "breakdown")
      then Phrase.start_ms phrase
      else first_suitable_phrase phrases'
  end.

Definition in_point (sb : SongAnalysis.t) (song_b_in_point_ms : option Q) : Q :=
  match song_b_in_point_ms with
  | Some t => _nearest_downbeat (SongAnalysis.downbeats_ms sb) t
  | None => first_suitable_phrase (SongAnalysis.phrases sb)
  end.

(** Eight bars at the target BPM, in milliseconds. *)
Definition eight_bars (target_bpm : Q) : option Q :=
  match Py.div (4 * 60000) target_bpm with
  | None => None
  | Some ms_per_bar => Some (ms_per_bar * 8)%Q
  end.

(** The transition-duration block, with its clamp to song A's end. *)
Definition transition_duration (sa : SongAnalysis.t) (out_point target_bpm : Q)
  : option Q :=
  match eight_bars target_bpm with
  | None => None
  | Some transition_duration =>
      if Py.ltb (SongAnalysis.duration_ms sa) (out_point + transition_duration)
      then Some (SongAnalysis.duration_ms sa - out_point)%Q
      else Some transition_duration
  end.

(** The tempo-stretch block. *)
Definition stretch_factors (sa sb : SongAnalysis.t) (compat : Compatibility.t)
  : option (Q * Q) :=
  let target_bpm := Compatibility.recommended_target_bpm compat in
  if Compatibility.needs_tempo_adjustment compat then
    match Py.div target_bpm (SongAnalysis.bpm sa) with
    | None => None
    | Some stretch_a =>
        match Py.div target_bpm (SongAnalysis.bpm sb) with
        | None => None
        | Some stretch_b => Some (stretch_a, stretch_b)
        end
    end
  else Some (1%Q, 1%Q).

(** The pitch-shift block. *)
Definition pitch_shift_b (sa sb : SongAnalysis.t) (compat : Compatibility.t)
    (mix_in_key : bool) : Z :=
  let is_not_true :=
    match Compatibility.key_compatible compat with
    | IsBool true => false
    | _ => true
    end in
  let ne_unknown :=
    match Compatibility.key_compatible compat with
    | IsStr s => negb (s =? "unknown")
    | IsBool _ => true
    end in
  if mix_in_key && is_not_true && ne_unknown
  then Camelot.pitch_shift_to_match (SongAnalysis.camelot sb) (SongAnalysis.camelot sa)
  else 0%Z.

(** The bass swap. *)
Definition bass_swap (out_point transition_duration : Q) : EQAutomation.t :=
  EQAutomation.mk
    (Some (EQAutomationEntry.mk "cut"
             out_point (out_point + transition_duration / 2)
             0 (-24) "linear"))
    (Some (EQAutomationEntry.mk "boost"
             (transition_duration / 2) transition_duration
             (-24) 0 "linear"))
    None None None None.

Section RuleBasedMix.

(** [repr] of a float, as an f-string prints it. *)
Variable float_repr : Q -> string.

Definition reasoning (compat : Compatibility.t) (pitch_shift_b : Z) : string :=
  let key_note :=
    if (pitch_shift_b =? 0)%Z then ""
    else " Song B pitch-shifted by " ++ format_plus_d pitch_shift_b
         ++ " semitones for key compatibility." in
  "Rule-based fallback (AI unavailable). "
  ++ "8-bar linear crossfade with bass swap. "
  ++ "BPM difference: " ++ float_repr (Compatibility.bpm_diff compat) ++ ". "
  ++ "Target BPM: " ++ float_repr (Compatibility.recommended_target_bpm compat) ++ ". "
  ++ "Key compatibility: " ++ Compatibility.camelot_relation compat ++ "."
  ++ key_note.

(** [rule_based_mix]; [None] is the [ZeroDivisionError] of a zero BPM. *)
Definition rule_based_mix (contract_a : ContractA.t)
    (transition_start_ms : option Q) (mix_in_key : bool)
    (song_b_in_point_ms : option Q) : option ContractB.t :=
  let sa := ContractA.song_a contract_a in
  let sb := ContractA.song_b contract_a in
  let compat := ContractA.compatibility contract_a in
  let out_point := out_point sa transition_start_ms in
  let in_point := in_point sb song_b_in_point_ms in
  let target_bpm := Compatibility.recommended_target_bpm compat in
  match transition_duration sa out_point target_bpm with
  | None => None
  | Some transition_duration =>
      match stretch_factors sa sb compat with
      | None => None
      | Some (stretch_a, stretch_b) =>
          let pitch_shift_b := pitch_shift_b sa sb compat mix_in_key in
          let eq := bass_swap out_point transition_duration in
          Some (ContractB.mk
            (MixDecision.mk
               "bass_swap"
               (1 # 2)
               (reasoning compat pitch_shift_b)
               (SongMixPoint.mk
                  (Some (Py.round out_point 1))
                  None
                  (Some (_phrase_at (SongAnalysis.phrases sa) out_point))
                  None
                  (Some (Py.round out_point 1))
                  None
                  (Py.round stretch_a 4)
                  0)
               (SongMixPoint.mk
                  None
                  (Some (Py.round in_point 1))
                  None
                  (Some (_phrase_at (SongAnalysis.phrases sb) in_point))
                  None
                  (Some (Py.round (in_point + transition_duration) 1))
                  (Py.round stretch_b 4)
                  pitch_shift_b)
               (Transition.mk
                  (Py.round transition_duration 1)
                  "linear"
                  eq)
               (SFXConfig.mk false "none" "" 0 4000 "library" "" "")
               None))
      end
  end.

End RuleBasedMix.

(** ** Fixtures of tests/test_fallback.py *)

Definition times (n : nat) (step : Q) : list Q :=
  map (fun i => Qred (inject_Z (Z.of_nat i) * step)) (seq 0 n).

Definition make_song_a (bpm_a : Q) : SongAnalysis.t :=
  SongAnalysis.mk "a.mp3" 240000 bpm_a (9 # 10) "Am" (8 # 10) "8A"
    (times 512 (46875 # 100)) (times 128 1875)
    [ Phrase.mk 0 30000 16 "intro" (3 # 10);
      Phrase.mk 30000 120000 48 "verse" (6 # 10);
      Phrase.mk 120000 200000 42 "chorus" (85 # 100);
      Phrase.mk 200000 240000 21 "outro" (4 # 10) ]
    (map (fun t => EnergyPoint.mk t (1 # 2)) (times 240 1000)) None None.

Definition make_song_b (bpm_b : Q) : SongAnalysis.t :=
  SongAnalysis.mk "b.mp3" 200000 bpm_b (85 # 100) "Em" (75 # 100) "9A"
    (times 420 (47619 # 100)) (times 105 (190476 # 100))
    [ Phrase.mk 0 15000 8 "intro" (25 # 100);
      Phrase.mk 15000 100000 45 "verse" (6 # 10) ]
    (map (fun t => EnergyPoint.mk t (1 # 2)) (times 200 1000)) None None.

End Fallback.

(* ------------------------------------------------------------------ *)
(** * renderer/engine.py *)

Module Renderer.
Import Contracts.

Local Open Scope string_scope.

Definition Path := string.

(** [dir / name] *)
Definition joinpath (dir : Path) (name : string) : Path := dir ++ "/" ++ name.

Inductive exn :=
| CalledProcessError
| FileNotFoundError
| TimeoutExpired
| ZeroDivisionError
| ValueError
| MemoryError
| OSError (msg : string).

(** One band filter of [_eq_filter_for_band]: an [equalizer] whose gain is
    [from_db + delta_db * ((t - start_s) / dur_s)], enabled between
    [start_s] and [end_s].  The three times are the values printed with
    three decimals, here of the exact quotients. *)
Record EqFilter := mkEqFilter
  { f_freq : Z; f_width : Z; f_from_db : Q; f_delta_db : Q;
    f_start_s : Q; f_dur_s : Q; f_end_s : Q }.

(** The external invocations, one constructor per command line.  A number
    the source prints with [.3f] or [.4f] is held rounded to that many
    decimals. *)
Inductive Command :=
| copy2 (src dst : Path)
| ffmpeg_to_wav (input output : Path)
| ffmpeg_extract (input : Path) (ss : Q) (t : option Q) (output : Path)
| ffmpeg_equalizer (input : Path) (filters : list EqFilter) (output : Path)
| rubberband_tempo (time_ratio : Q) (input output : Path)
| ffmpeg_atempo (atempo_chain : list Q) (input output : Path)
| rubberband_pitch (semitones : Z) (input output : Path)
| ffmpeg_asetrate (new_rate : Z) (input output : Path)
| ffmpeg_acrossfade (seg_a seg_b : Path) (d : Q) (c1 c2 : string) (output : Path)
| ffmpeg_sfx_mix (mixed sfx : Path) (adelay : Z) (volume : Q) (output : Path)
| ffmpeg_loudnorm (input : Path) (bitrate : option string) (output : Path).

(** [x or y] on optional floats: [None] and [0.0] are falsy. *)
Definition truthy (x : option Q) : option Q :=
  match x with
  | Some v => if Py.eqb v 0 then None else Some v
  | None => None
  end.

Definition or_else (x : option Q) (y : Q) : Q :=
  match truthy x with Some v => v | None => y end.

(** [int(x)] of a float: truncation toward zero. *)
Definition int_of_float (x : Q) : Z :=
  if Py.ltb x 0 then Qceiling x else Qfloor x.

(** [s.strip()] *)
Definition strip (s : string) : string :=
  string_of_list_ascii
    (rev (Py.drop_while Py.is_space
            (rev (Py.drop_while Py.is_space (list_ascii_of_string s))))).

(** The first loop of the atempo chain: [while v > 2.0: v /= 2.0]. *)
Fixpoint halve_loop (fuel : nat) (v : Q) (chain : list Q) : list Q * Q :=
  match fuel with
  | O => (chain, v)
  | S fuel' =>
      if Py.ltb 2 v then halve_loop fuel' (v / 2)%Q (chain ++ [2%Q])
      else (chain, v)
  end.

(** The second loop: [while v < 0.5: v *= 2.0]. *)
Fixpoint double_loop (fuel : nat) (v : Q) (chain : list Q) : list Q * Q :=
  match fuel with
  | O => (chain, v)
  | S fuel' =>
      if Py.ltb v (1 # 2) then double_loop fuel' (v * 2)%Q (chain ++ [1 # 2])
      else (chain, v)
  end.

(** The chain for a positive factor.  The loops run at most as many times as
    the numerator, respectively the denominator, has bits, so that both loop
    conditions are false at the end ([AtempoFacts.atempo_loops_exit]). *)
Definition atempo_loops (factor : Q) : list Q * Q :=
  let '(chain1, v1) :=
    halve_loop (Pos.to_nat (Pos.size (Z.to_pos (Qnum factor)))) factor [] in
  double_loop (Pos.to_nat (Pos.size (Qden v1))) v1 chain1.

Definition atempo_chain (factor : Q) : list Q :=
  let '(chain, v) := atempo_loops factor in
  chain ++ [Py.round v 4].

Definition curve_type (curve : string) : string :=
  if curve =? "equal_power" then "esin"
  else if curve =? "exponential" then "exp" else "tri".

(** [getattr(eq_auto, f"song_{song_id}_{band}", None)] *)
Definition eq_entry (eq_auto : EQAutomation.t) (song_id band : string)
  : option EQAutomationEntry.t :=
  let name := "song_" ++ song_id ++ "_" ++ band in
  if name =? "song_a_bass" then EQAutomation.song_a_bass eq_auto
  else if name =? "song_b_bass" then EQAutomation.song_b_bass eq_auto
  else if name =? "song_a_highs" then EQAutomation.song_a_highs eq_auto
  else if name =? "song_b_highs" then EQAutomation.song_b_highs eq_auto
  else if name =? "song_a_mids" then EQAutomation.song_a_mids eq_auto
  else if name =? "song_b_mids" then EQAutomation.song_b_mids eq_auto
  else None.

Definition _eq_filter_for_band (entry : EQAutomationEntry.t) (band : string)
    (offset_ms : Q) : option EqFilter :=
  let start_s0 := ((EQAutomationEntry.start_ms entry - offset_ms) / 1000)%Q in
  let end_s := ((EQAutomationEntry.end_ms entry - offset_ms) / 1000)%Q in
  let start_s := if Py.ltb start_s0 0 then 0%Q else start_s0 in
  let dur_s := (end_s - start_s)%Q in
  if Py.leb dur_s 0 then None
  else
    let from_db := EQAutomationEntry.from_db entry in
    let to_db := EQAutomationEntry.to_db entry in
    let mk freq width :=
      Some (mkEqFilter freq width from_db (to_db - from_db)
              (Py.round start_s 3) (Py.round dur_s 3) (Py.round end_s 3)) in
    if band =? "bass" then mk 100%Z 120%Z
    else if band =? "highs" then mk 8000%Z 4000%Z
    else if band =? "mids" then mk 1000%Z 2000%Z
    else None.

(** The filters of [_apply_eq_automation], in the order of its [entries]. *)
Definition eq_filters (eq_auto : EQAutomation.t) (song_id : string)
    (time_offset_ms : Q) : list EqFilter :=
  flat_map
    (fun band =>
       match eq_entry eq_auto song_id band with
       | None => []
       | Some entry =>
           match _eq_filter_for_band entry band time_offset_ms with
           | Some f => [f]
           | None => []
           end
       end)
    ["bass"; "highs"; "mids"].

Section Pipeline.

(** The world outside the process: files, tools, network. *)
Variable World : Type.

(** [subprocess.run(..., check=True)] and [shutil.copy2]: the new world and
    the exception raised, if any. *)
Variable run : Command -> World -> World * option exn.

(** The [ffprobe] call of [_crossfade] (no [check]): its standard output. *)
Variable ffprobe_duration : Path -> World -> World * (exn + string).

(** [sfx.director.get_sfx_audio] *)
Variable get_sfx_audio : SFXConfig.t -> Path -> World -> World * (exn + option Path).

(** [tempfile.mkdtemp(prefix="dj_render_")] and
    [shutil.rmtree(_, ignore_errors=True)] *)
Variable mkdtemp : World -> World * (exn + Path).
Variable rmtree : Path -> World -> World.

(** [config.OUTPUT_DIR], [path.suffix.lower()], [float(s)] and [2 ** x]. *)
Variable OUTPUT_DIR : Path.
Variable suffix_lower : Path -> string.
Variable float_of_string : string -> option Q.
Variable pow2 : Q -> Q.

(** Computations that change the world, may raise, and record the commands
    they ran, in order. *)
Definition M (A : Type) : Type := World -> World * list Command * (exn + A).

Definition ret {A} (a : A) : M A := fun w => (w, [], inr a).
Definition raise {A} (e : exn) : M A := fun w => (w, [], inl e).

Definition bind {A B} (m : M A) (k : A -> M B) : M B :=
  fun w =>
    match m w with
    | (w', l, inl e) => (w', l, inl e)
    | (w', l, inr a) => let '(w'', l', r) := k a w' in (w'', (l ++ l')%list, r)
    end.

(** Effects that are not command lines leave no record. *)
Definition lift {A} (f : World -> World * (exn + A)) : M A :=
  fun w => let '(w', r) := f w in (w', [], r).

(** [try: m  except Exception as e: handler e] *)
Definition try_except {A} (m : M A) (handler : exn -> M A) : M A :=
  fun w =>
    match m w with
    | (w', l, inl e) => let '(w'', l', r) := handler e w' in (w'', (l ++ l')%list, r)
    | (w', l, inr a) => (w', l, inr a)
    end.

(** [try: m  finally: cleanup], for a cleanup that cannot raise. *)
Definition try_finally {A} (m : M A) (cleanup : World -> World) : M A :=
  fun w => let '(w', l, r) := m w in (cleanup w', l, r).

Notation "x <- m ;; k" := (bind m (fun x => k))
  (at level 61, m at next level, right associativity).
Notation "m ;;; k" := (bind m (fun _ => k))
  (at level 61, right associativity).

Definition exec (c : Command) : M unit :=
  fun w => match run c w with
           | (w', Some e) => (w', [c], inl e)
           | (w', None) => (w', [c], inr tt)
           end.

(** The commands a computation ran. *)
Definition log_of {A} (r : World * list Command * (exn + A)) : list Command :=
  snd (fst r).

(** The outcome of a computation: its value or the exception raised. *)
Definition outcome {A} (r : World * list Command * (exn + A)) : exn + A := snd r.

(** Run the commands of a list in order, stopping at the first that fails. *)
Fixpoint run_all (cs : list Command) : M unit :=
  match cs with
  | [] => ret tt
  | c :: cs' => exec c ;;; run_all cs'
  end.

Definition _ensure_wav (input_path output_path : Path) : M Path :=
  if suffix_lower input_path =? ".wav" then
    exec (copy2 input_path output_path) ;;; ret output_path
  else
    exec (ffmpeg_to_wav input_path output_path) ;;; ret output_path.

Definition _pitch_shift (input_wav : Path) (semitones : Z) (output_path : Path)
  : M Path :=
  try_except
    (exec (rubberband_pitch semitones input_wav output_path) ;;; ret output_path)
    (fun e =>
       match e with
       | CalledProcessError | FileNotFoundError =>
           let factor := pow2 (inject_Z semitones / 12) in
           let new_rate := int_of_float (44100 * factor) in
           exec (ffmpeg_asetrate new_rate input_wav output_path) ;;;
           ret output_path
       | _ => raise e
       end).

Definition _time_stretch (input_wav : Path) (factor : Q) (output_path : Path)
  : M Path :=
  match Py.div 1 factor with
  | None => raise ZeroDivisionError
  | Some rb_time_ratio =>
      try_except
        (exec (rubberband_tempo rb_time_ratio input_wav output_path) ;;;
         ret output_path)
        (fun e =>
           match e with
           | CalledProcessError | FileNotFoundError =>
               (* a negative factor never leaves the second loop, whose list
                  grows until memory runs out *)
               if Py.ltb factor 0 then raise MemoryError
               else
                 exec (ffmpeg_atempo (atempo_chain factor) input_wav output_path) ;;;
                 ret output_path
           | _ => raise e
           end)
  end.

Definition _extract_segment (input_wav : Path) (start_ms : Q) (end_ms : option Q)
    (output_path : Path) : M Path :=
  let t :=
    match end_ms with
    | Some end_ms =>
        Some (Py.round (Binary64.div1000 (Binary64.sub end_ms start_ms)) 3)
    | None => None
    end in
  exec (ffmpeg_extract input_wav (Py.round (Binary64.div1000 start_ms) 3) t
          output_path) ;;;
  ret output_path.

Definition _apply_eq_automation (wav_path : Path) (eq_auto : EQAutomation.t)
    (song_id : string) (time_offset_ms : Q) (work_dir : Path) : M Path :=
  match eq_filters eq_auto song_id time_offset_ms with
  | [] => ret wav_path
  | filters =>
      let output := joinpath work_dir ("eq_" ++ song_id ++ ".wav") in
      exec (ffmpeg_equalizer wav_path filters output) ;;; ret output
  end.

Definition _crossfade (seg_a seg_b : Path) (crossfade_start_in_a : Q)
    (crossfade_duration : Q) (curve : string) (work_dir : Path) : M Path :=
  let output := joinpath work_dir "crossfaded.wav" in
  let dur_sec := Binary64.div1000 crossfade_duration in
  stdout <- lift (ffprobe_duration seg_a) ;;
  seg_a_dur <-
    (if strip stdout =? "" then ret 60%Q
     else match float_of_string (strip stdout) with
          | Some v => ret v
          | None => raise ValueError
          end) ;;
  let curve_type := curve_type curve in
  exec (ffmpeg_acrossfade seg_a seg_b (Py.round dur_sec 3) curve_type curve_type output) ;;;
  ret output.

Definition _overlay_sfx (mixed_path : Path) (md : MixDecision.t) (fade_start : Q)
    (work_dir : Path) : M Path :=
  sfx_path <- lift (get_sfx_audio (MixDecision.sfx md) work_dir) ;;
  match sfx_path with
  | None => ret mixed_path
  | Some sfx_path =>
      let output := joinpath work_dir "with_sfx.wav" in
      let delay := int_of_float (SFXConfig.position_ms (MixDecision.sfx md)) in
      exec (ffmpeg_sfx_mix mixed_path sfx_path delay (1 # 2) output) ;;;
      ret output
  end.

Definition _normalize_and_export (wav_path output_mp3 output_wav : Path) : M unit :=
  exec (ffmpeg_loudnorm wav_path (Some "320k") output_mp3) ;;;
  exec (ffmpeg_loudnorm wav_path None output_wav).

Definition _simplified_render (song_a_path song_b_path : Path)
    (contract_b : ContractB.t) (session_id : string) (work_dir : Path) : M Path :=
  let md := ContractB.mix_decision contract_b in
  let output_mp3 := joinpath OUTPUT_DIR (session_id ++ "_mix.mp3") in
  wav_a <- _ensure_wav song_a_path (joinpath work_dir "simple_a.wav") ;;
  wav_b <- _ensure_wav song_b_path (joinpath work_dir "simple_b.wav") ;;
  let in_point := or_else (SongMixPoint.in_point_ms (MixDecision.song_b md)) 0 in
  wav_b <-
    (if Py.ltb 0 in_point
     then _extract_segment wav_b in_point None (joinpath work_dir "simple_b_seg.wav")
     else ret wav_b) ;;
  let dur_sec :=
    Binary64.div1000 (Transition.total_duration_ms (MixDecision.transition md)) in
  let crossfaded := joinpath work_dir "simple_crossfaded.wav" in
  exec (ffmpeg_acrossfade wav_a wav_b (Py.round dur_sec 3) "tri" "tri" crossfaded) ;;;
  exec (ffmpeg_loudnorm crossfaded (Some "320k") output_mp3) ;;;
  ret output_mp3.

(** The original-tempo transition zone of song A. *)
Definition orig_trans_dur_a (trans_dur sa_sf : Q) : Q :=
  if negb (Py.eqb sa_sf 1) then Binary64.mul trans_dur sa_sf else trans_dur.

Definition fade_start_of (md : MixDecision.t) : Q :=
  match truthy (SongMixPoint.fade_start_ms (MixDecision.song_a md)) with
  | Some v => v
  | None => or_else (SongMixPoint.out_point_ms (MixDecision.song_a md)) 0
  end.

(** The body of the [try] of [render_mix]. *)
Definition primary_render (contract_b : ContractB.t) (song_a_path song_b_path : Path)
    (session_id : string) (work_dir : Path) : M Path :=
  let md := ContractB.mix_decision contract_b in
  wav_a <- _ensure_wav song_a_path (joinpath work_dir "a_full.wav") ;;
  wav_b <- _ensure_wav song_b_path (joinpath work_dir "b_full.wav") ;;
  let fade_start := fade_start_of md in
  let in_point := or_else (SongMixPoint.in_point_ms (MixDecision.song_b md)) 0 in
  let trans_dur := Transition.total_duration_ms (MixDecision.transition md) in
  let sa_sf := SongMixPoint.tempo_stretch_factor (MixDecision.song_a md) in
  let sb_sf := SongMixPoint.tempo_stretch_factor (MixDecision.song_b md) in
  let orig_trans_dur_a := orig_trans_dur_a trans_dur sa_sf in
  let seg_a_end_ms := Binary64.add fade_start orig_trans_dur_a in
  seg_a <- _extract_segment wav_a 0 (Some seg_a_end_ms) (joinpath work_dir "seg_a.wav") ;;
  seg_b <- _extract_segment wav_b in_point None (joinpath work_dir "seg_b.wav") ;;
  let eq_auto := Transition.eq_automation (MixDecision.transition md) in
  seg_a <- _apply_eq_automation seg_a eq_auto "a" 0 work_dir ;;
  seg_b <- _apply_eq_automation seg_b eq_auto "b" 0 work_dir ;;
  seg_a <-
    (if negb (Py.eqb sa_sf 1)
     then _time_stretch seg_a sa_sf (joinpath work_dir "a_stretched.wav")
     else ret seg_a) ;;
  seg_b <-
    (if negb (Py.eqb sb_sf 1)
     then _time_stretch seg_b sb_sf (joinpath work_dir "b_stretched.wav")
     else ret seg_b) ;;
  let a_semitones := SongMixPoint.pitch_shift_semitones (MixDecision.song_a md) in
  let b_semitones := SongMixPoint.pitch_shift_semitones (MixDecision.song_b md) in
  seg_a <-
    (if negb (a_semitones =? 0)%Z
     then _pitch_shift seg_a a_semitones (joinpath work_dir "a_pitched.wav")
     else ret seg_a) ;;
  seg_b <-
    (if negb (b_semitones =? 0)%Z
     then _pitch_shift seg_b b_semitones (joinpath work_dir "b_pitched.wav")
     else ret seg_b) ;;
  mixed <-
    _crossfade seg_a seg_b
      (if negb (Py.eqb sa_sf 1) then Binary64.mul fade_start sa_sf else fade_start)
      trans_dur
      (Transition.crossfade_curve (MixDecision.transition md))
      work_dir ;;
  mixed <-
    (if SFXConfig.enabled (MixDecision.sfx md)
     then _overlay_sfx mixed md fade_start work_dir
     else ret mixed) ;;
  let output_mp3 := joinpath OUTPUT_DIR (session_id ++ "_mix.mp3") in
  let output_wav := joinpath OUTPUT_DIR (session_id ++ "_mix.wav") in
  _normalize_and_export mixed output_mp3 output_wav ;;;
  ret output_mp3.

(** [render_mix] once its working directory exists: the [try], its
    [except Exception] and its [finally]. *)
Definition render_in (contract_b : ContractB.t) (song_a_path song_b_path : Path)
    (session_id : string) (work_dir : Path) : M Path :=
  try_finally
    (try_except
       (primary_render contract_b song_a_path song_b_path session_id work_dir)
       (fun e =>
          _simplified_render song_a_path song_b_path contract_b session_id work_dir))
    (rmtree work_dir).

Definition render_mix (contract_b : ContractB.t) (song_a_path song_b_path : Path)
    (session_id : string) : M Path :=
  work_dir <- lift mkdtemp ;;
  render_in contract_b song_a_path song_b_path session_id work_dir.

End Pipeline.

(** The one command of [_ensure_wav]. *)
Definition ensure_wav_command (suffix_lower : Path -> string)
    (input_path output_path : Path) : Command :=
  if suffix_lower input_path =? ".wav" then copy2 input_path output_path
  else ffmpeg_to_wav input_path output_path.

(** The command lines of the simplified render, in order: both songs to WAV,
    song B cut at a positive in-point, a triangular crossfade of the plan's
    duration, loudness normalisation into the MP3. *)
Definition simplified_commands (suffix_lower : Path -> string) (OUTPUT_DIR : Path)
    (song_a_path song_b_path : Path) (contract_b : ContractB.t)
    (session_id : string) (work_dir : Path) : list Command :=
  let md := ContractB.mix_decision contract_b in
  let in_point := or_else (SongMixPoint.in_point_ms (MixDecision.song_b md)) 0 in
  let total := Transition.total_duration_ms (MixDecision.transition md) in
  let wav_a := joinpath work_dir "simple_a.wav" in
  let wav_b := joinpath work_dir "simple_b.wav" in
  let seg_b := joinpath work_dir "simple_b_seg.wav" in
  let crossfaded := joinpath work_dir "simple_crossfaded.wav" in
  [ ensure_wav_command suffix_lower song_a_path wav_a;
    ensure_wav_command suffix_lower song_b_path wav_b ]
  ++ (if Py.ltb 0 in_point
      then [ ffmpeg_extract wav_b (Py.round (Binary64.div1000 in_point) 3) None seg_b ]
      else [])
  ++ [ ffmpeg_acrossfade wav_a (if Py.ltb 0 in_point then seg_b else wav_b)
         (Py.round (Binary64.div1000 total) 3) "tri" "tri" crossfaded;
       ffmpeg_loudnorm crossfaded (Some "320k")
         (joinpath OUTPUT_DIR (session_id ++ "_mix.mp3")) ].

(** Commands that only convert, cut, crossfade or normalise: no EQ, no
    tempo stretch, no pitch shift, no SFX. *)
Definition plain_command (c : Command) : bool :=
  match c with
  | copy2 _ _ | ffmpeg_to_wav _ _ | ffmpeg_extract _ _ _ _
  | ffmpeg_acrossfade _ _ _ _ _ _ | ffmpeg_loudnorm _ _ _ => true
  | _ => false
  end.

End Renderer.

(* ------------------------------------------------------------------ *)
(** * Inputs used in examples *)

Module Inputs.
Import Contracts.

Local Open Scope string_scope.

(** A song whose key was detected with confidence 0.8 but is not in the key
    table: [key_to_camelot "X#dim7"] is the sentinel. *)
Definition unknown_key_song : SongAnalysis.t :=
  SongAnalysis.mk "x.mp3" 240000 128 (9 # 10) "X#dim7" (8 # 10)
    (Camelot.key_to_camelot "X#dim7")
    [] [] [] [] None None.

(** Song A of 240000.25 ms at 128 BPM whose last downbeat, at 239999.875 ms,
    is the nearest to 75 % of the song. *)
Definition late_downbeat_song : SongAnalysis.t :=
  SongAnalysis.mk "a.mp3" (960001 # 4) 128 (9 # 10) "Am" (8 # 10) "8A"
    [0; 120000; 1919999 # 8]%Q [0; 120000; 1919999 # 8]%Q
    [ Phrase.mk 0 (960001 # 4) 128 "verse" (6 # 10) ]
    [] None None.

Definition late_downbeat_contract : ContractA.t :=
  Analysis.pair_contract late_downbeat_song (Fallback.make_song_b 126).

(** The pair of [test_tempo_stretch_when_needed]: 128 and 122 BPM. *)
Definition stretch_contract : ContractA.t :=
  Analysis.pair_contract (Fallback.make_song_a 128) (Fallback.make_song_b 122).

(** The pair of the other tests: 128 and 126 BPM. *)
Definition default_contract : ContractA.t :=
  Analysis.pair_contract (Fallback.make_song_a 128) (Fallback.make_song_b 126).

(** A [repr] for the examples. *)
Definition no_repr (x : Q) : string := "".

(** The plan [rule_based_mix] makes for [stretch_contract]. *)
Definition stretch_plan : ContractB.t :=
  Eval vm_compute in
    match Fallback.rule_based_mix no_repr stretch_contract None false None with
    | Some plan => plan
    | None => ContractB.mk
        (MixDecision.mk "" 0 ""
           (SongMixPoint.mk None None None None None None 1 0)
           (SongMixPoint.mk None None None None None None 1 0)
           (Transition.mk 0 "linear" (EQAutomation.mk None None None None None None))
           SFXConfig.default None)
    end.

(** A world, here without state, in which every tool works except the
    equalizer. *)
Definition eq_fails (c : Renderer.Command) (w : unit) : unit * option Renderer.exn :=
  match c with
  | Renderer.ffmpeg_equalizer _ _ _ => (w, Some Renderer.CalledProcessError)
  | _ => (w, None)
  end.

(** A world in which every tool works. *)
Definition all_work (c : Renderer.Command) (w : unit) : unit * option Renderer.exn :=
  (w, None).

Definition probe_15s (p : Renderer.Path) (w : unit) : unit * (Renderer.exn + string) :=
  (w, inr "15.360000").

Definition no_sfx (cfg : SFXConfig.t) (p : Renderer.Path) (w : unit)
  : unit * (Renderer.exn + option Renderer.Path) := (w, inr None).

Definition tmp_dir (w : unit) : unit * (Renderer.exn + Renderer.Path) :=
  (w, inr "/tmp/dj_render_0").

Definition keep_dir (p : Renderer.Path) (w : unit) : unit := w.

Definition mp3_suffix (p : Renderer.Path) : string := ".mp3".

Definition float_15 (s : string) : option Q := Some (1536 # 100).

Definition pow2_one (x : Q) : Q := 1.

End Inputs.

(* ------------------------------------------------------------------ *)
(** * analysis/key_detection.py: the key names *)

Module KeyDetection.

Local Open Scope string_scope.

(** Index [i] of either list names the key whose tonic is [i] semitones above
    C: [detect_key] correlates the chroma rotated by [-i]. *)
Definition KEY_NAMES_MAJOR : list string :=
  ["C"; "Db"; "D"; "Eb"; "E"; "F"; "F#"; "G"; "Ab"; "A"; "Bb"; "B"].

Definition KEY_NAMES_MINOR : list string :=
  ["Cm"; "C#m"; "Dm"; "Ebm"; "Em"; "Fm"; "F#m"; "Gm"; "G#m"; "Am"; "Bbm"; "Bm"].

(** The short form of a long key name: ["X major"] is ["X"], ["X minor"] is
    ["Xm"]; no short form for another name. *)
Definition short_form (key : string) : option string :=
  let n := String.length key in
  let stem := substring 0 (n - 6) key in
  let tail := substring (n - 6) 6 key in
  if (6 <? n)%nat && (tail =? " major") then Some stem
  else if (6 <? n)%nat && (tail =? " minor") then Some (stem ++ "m")
  else None.

End KeyDetection.

(* ------------------------------------------------------------------ *)
(** * models/contracts.py: the field constraints *)

Module Validation.
Import Contracts.

(** [Field(ge=0.0, le=1.0)] *)
Definition unit_interval (x : Q) : bool := Py.leb 0 x && Py.leb x 1.

Definition Phrase_ok (p : Phrase.t) : bool := unit_interval (Phrase.avg_energy p).

Definition EnergyPoint_ok (p : EnergyPoint.t) : bool := unit_interval (EnergyPoint.rms p).

Definition Compatibility_ok (c : Compatibility.t) : bool :=
  unit_interval (Compatibility.harmonic_mixing_score c).

Definition MixDecision_ok (md : MixDecision.t) : bool :=
  unit_interval (MixDecision.confidence md).

End Validation.

(* ------------------------------------------------------------------ *)
(** * analysis/engine.py: the phrase helpers *)

Module Phrases.
Import Contracts.

Local Open Scope string_scope.
Local Open Scope Q_scope.

Definition sum (l : list Q) : Q := fold_right Qplus 0 l.

(** [np.mean] of a non-empty list. *)
Definition mean (l : list Q) : Q := (sum l / inject_Z (Z.of_nat (List.length l)))%Q.

(** [[beats_ms[i + 1] - beats_ms[i] for i in range(len(beats_ms) - 1)]] *)
Fixpoint intervals (beats_ms : list Q) : list Q :=
  match beats_ms with
  | a :: (b :: _) as rest => (b - a)%Q :: intervals rest
  | _ => []
  end.

Definition _avg_bpm (beats_ms : list Q) : Q :=
  if (List.length beats_ms <? 2)%nat then 120
  else
    let avg_interval := mean (intervals beats_ms) in
    if Py.ltb 0 avg_interval then (60000 / avg_interval)%Q else 120.

Definition _avg_energy_in_range (energy_curve : list EnergyPoint.t)
    (start_ms end_ms : Q) : Q :=
  let points :=
    map EnergyPoint.rms
      (filter (fun p => Py.leb start_ms (EnergyPoint.ms p)
                        && Py.leb (EnergyPoint.ms p) end_ms)
         energy_curve) in
  match points with
  | [] => 1 # 2
  | _ => mean points
  end.

Definition _classify_phrase (index total : Z) (energy : Q) : string :=
  if (total <=? 1)%Z then "verse"
  else
    let ratio := (inject_Z index / inject_Z (Z.max 1 (total - 1)))%Q in
    if Py.ltb ratio (1 # 10) then "intro"
    else if Py.ltb (9 # 10) ratio then "outro"
    else if Py.ltb (75 # 100) energy then "chorus"
    else if Py.ltb energy (3 # 10) then "breakdown"
    else "verse".

(** [range(0, n, step)] *)
Definition range_step (n step : nat) : list nat :=
  map (fun k => (k * step)%nat) (seq 0 ((n + step - 1) / step)).

(** The phrase [_fallback_phrases] builds at index [i]. *)
Definition fallback_phrase (downbeats_ms : list Q) (energy_curve : list EnergyPoint.t)
    (duration_ms : Q) (i : nat) : Phrase.t :=
  let step := 8%nat in
  let n := List.length downbeats_ms in
  let start := nth i downbeats_ms 0%Q in
  let end0 :=
    if (i + step <? n)%nat then nth (Nat.min (i + step) (n - 1)) downbeats_ms 0%Q
    else duration_ms in
  let end_ := if Py.leb end0 start then duration_ms else end0 in
  let avg_e := _avg_energy_in_range energy_curve start end_ in
  let ptype :=
    _classify_phrase (Z.of_nat (i / step)) (Z.of_nat (Nat.max 1 (n / step))) avg_e in
  Phrase.mk (Py.round start 1) (Py.round end_ 1) 8 ptype (Py.round avg_e 2).

(** [Phrase(...)] checks [avg_energy]; the check passes for an energy curve
    whose points passed theirs. *)
Definition _fallback_phrases (downbeats_ms : list Q) (energy_curve : list EnergyPoint.t)
    (duration_ms : Q) (beats_ms : list Q) : list Phrase.t :=
  map (fallback_phrase downbeats_ms energy_curve duration_ms)
    (range_step (List.length downbeats_ms) 8).

End Phrases.

(* ------------------------------------------------------------------ *)
(** * strategist/ai_strategist.py: ai_mix_decision *)

Module Strategist.
Import Contracts.

Local Open Scope string_scope.

(** [result.mix_decision.song_b.pitch_shift_semitones = shift] *)
Definition set_song_b_pitch (result : ContractB.t) (shift : Z) : ContractB.t :=
  let md := ContractB.mix_decision result in
  let sb := MixDecision.song_b md in
  ContractB.mk
    (MixDecision.mk
       (MixDecision.strategy md) (MixDecision.confidence md) (MixDecision.reasoning md)
       (MixDecision.song_a md)
       (SongMixPoint.mk
          (SongMixPoint.out_point_ms sb) (SongMixPoint.in_point_ms sb)
          (SongMixPoint.out_phrase sb) (SongMixPoint.in_phrase sb)
          (SongMixPoint.fade_start_ms sb) (SongMixPoint.fade_end_ms sb)
          (SongMixPoint.tempo_stretch_factor sb) shift)
       (MixDecision.transition md) (MixDecision.sfx md) (MixDecision.suggestion md)).

Section AiMixDecision.

(** The world outside the process, here the Gemini service. *)
Variable World : Type.

(** [config.GEMINI_API_KEY] *)
Variable GEMINI_API_KEY : string.

(** [_call_gemini]: the request, and the reply parsed into a Contract B, or
    the exception of a timeout, an HTTP error or a reply that does not
    validate. *)
Variable _call_gemini :
  ContractA.t -> option Q -> option string -> option Q ->
  World -> World * (Renderer.exn + ContractB.t).

Variable float_repr : Q -> string.

(** [rule_based_mix] with its exception named. *)
Definition rule_based (contract_a : ContractA.t) (transition_start_ms : option Q)
    (mix_in_key : bool) (song_b_in_point_ms : option Q)
  : Renderer.exn + ContractB.t :=
  match Fallback.rule_based_mix float_repr contract_a transition_start_ms mix_in_key
          song_b_in_point_ms with
  | Some plan => inr plan
  | None => inl Renderer.ZeroDivisionError
  end.

Definition ai_mix_decision (contract_a : ContractA.t)
    (transition_start_ms : option Q) (user_strategy : option string)
    (mix_in_key : bool) (song_b_in_point_ms : option Q)
  : World -> World * (Renderer.exn + ContractB.t) :=
  fun w =>
    if GEMINI_API_KEY =? "" then
      (w, rule_based contract_a transition_start_ms mix_in_key song_b_in_point_ms)
    else
      match _call_gemini contract_a transition_start_ms user_strategy
              song_b_in_point_ms w with
      | (w', inr result) =>
          if mix_in_key
             && (SongMixPoint.pitch_shift_semitones
                   (MixDecision.song_b (ContractB.mix_decision result)) =? 0)%Z
          then
            let shift :=
              Camelot.pitch_shift_to_match
                (SongAnalysis.camelot (ContractA.song_b contract_a))
                (SongAnalysis.camelot (ContractA.song_a contract_a)) in
            (w', inr (set_song_b_pitch result shift))
          else (w', inr result)
      | (w', inl e) =>
          (w', rule_based contract_a transition_start_ms mix_in_key song_b_in_point_ms)
      end.

End AiMixDecision.

End Strategist.

(* ------------------------------------------------------------------ *)
(** * Further inputs and helpers for the properties *)

Module MoreInputs.
Import Contracts.

Local Open Scope string_scope.

(** The product of the links of an atempo chain. *)
Definition product (l : list Q) : Q := fold_right Qmult 1%Q l.

(** A Gemini that always times out, and one that answers with a given plan. *)
Definition gemini_down (ca : ContractA.t) (t : option Q) (s : option string)
    (i : option Q) (w : unit) : unit * (Renderer.exn + ContractB.t) :=
  (w, inl Renderer.TimeoutExpired).

Definition gemini_says (plan : ContractB.t) (ca : ContractA.t) (t : option Q)
    (s : option string) (i : option Q) (w : unit)
  : unit * (Renderer.exn + ContractB.t) := (w, inr plan).

(** A world in which rubberband is not installed. *)
Definition no_rubberband (c : Renderer.Command) (w : unit) : unit * option Renderer.exn :=
  match c with
  | Renderer.rubberband_tempo _ _ _ | Renderer.rubberband_pitch _ _ _ =>
      (w, Some Renderer.FileNotFoundError)
  | _ => (w, None)
  end.

(** A world in which rubberband hangs. *)
Definition slow_rubberband (c : Renderer.Command) (w : unit) : unit * option Renderer.exn :=
  match c with
  | Renderer.rubberband_tempo _ _ _ | Renderer.rubberband_pitch _ _ _ =>
      (w, Some Renderer.TimeoutExpired)
  | _ => (w, None)
  end.

Definition no_tmp_dir (w : unit) : unit * (Renderer.exn + Renderer.Path) :=
  (w, inl (Renderer.OSError "No space left on device")).

(** A flat energy curve of one point per second. *)
Definition flat_energy (seconds : nat) : list EnergyPoint.t :=
  map (fun t => EnergyPoint.mk t (1 # 2)) (Fallback.times seconds 1000).

End MoreInputs.

(* ================================================================== *)
(** * Properties *)

(* ------------------------------------------------------------------ *)
(** ** The Camelot wheel *)

Module CamelotFacts.
Import Camelot.

Local Open Scope string_scope.
Local Open Scope Z_scope.

Lemma forall_wheel_pairs (P : string -> string -> bool) :
  forallb (fun a => forallb (P a) wheel_codes) wheel_codes = true ->
  forall a b, In a wheel_codes -> In b wheel_codes -> P a b = true.
Proof.
  intros H a b Ha Hb.
  rewrite forallb_forall in H. specialize (H a Ha).
  rewrite forallb_forall in H. exact (H b Hb).
Qed.

(** The wheel codes are exactly the codes of the key table. *)
Lemma key_table_codes (c : string) :
  In c wheel_codes <-> In c (map snd KEY_TO_CAMELOT).
Proof.
  split; intro H.
  - assert (E : forallb (fun x => existsb (String.eqb x) (map snd KEY_TO_CAMELOT))
                  wheel_codes = true) by (vm_compute; reflexivity).
    rewrite forallb_forall in E. specialize (E c H).
    apply existsb_exists in E. destruct E as [y [Hy Ey]].
    apply String.eqb_eq in Ey. now subst.
  - assert (E : forallb (fun x => existsb (String.eqb x) wheel_codes)
                  (map snd KEY_TO_CAMELOT) = true) by (vm_compute; reflexivity).
    rewrite forallb_forall in E. specialize (E c H).
    apply existsb_exists in E. destruct E as [y [Hy Ey]].
    apply String.eqb_eq in Ey. now subst.
Qed.

(** [key_to_camelot] yields a wheel code or the sentinel. *)
Lemma key_to_camelot_code (key : string) :
  key_to_camelot key = "?" \/ In (key_to_camelot key) wheel_codes.
Proof.
  unfold key_to_camelot.
  destruct (Py.dict_get KEY_TO_CAMELOT key) as [c|] eqn:E; [right | now left].
  apply key_table_codes.
  revert E. generalize KEY_TO_CAMELOT. induction l as [|[k v] l IH]; simpl.
  - discriminate.
  - destruct (key =? k)%string; intro E.
    + injection E as ->. now left.
    + right. now apply IH.
Qed.

(** Every wheel code splits into a number from 1 to 12 and a ring letter. *)
Lemma code_of_wheel_code (c : string) :
  In c wheel_codes ->
  exists num letter,
    code_of c = Some (num, letter) /\ 1 <= num <= 12 /\
    (letter = "A"%char \/ letter = "B"%char).
Proof.
  intro H. unfold wheel_codes in H. simpl in H.
  repeat (destruct H as [<- | H];
          [ eexists; eexists; split; [vm_compute; reflexivity | split; [lia | auto]] | ]).
  contradiction.
Qed.

Lemma code_of_sentinel : code_of "?" = None.
Proof. reflexivity. Qed.

(** On the wheel the distance is never the sentinel and never above 7. *)
Lemma camelot_distance_wheel_range (a b : string) :
  In a wheel_codes -> In b wheel_codes -> 0 <= camelot_distance a b <= 7.
Proof.
  intros Ha Hb.
  assert (E := forall_wheel_pairs
                 (fun a b => (0 <=? camelot_distance a b)%Z && (camelot_distance a b <=? 7)%Z)).
  specialize (E ltac:(vm_compute; reflexivity) a b Ha Hb).
  cbv beta in E. apply andb_true_iff in E. lia.
Qed.

(** C1.  The distance between the wheel codes ["1A"] and ["7B"] is 7, outside
    the range 0..6 that the docstring of [camelot_distance] and the claim
    give: six steps around the ring plus one for changing rings. *)
Theorem camelot_distance_1A_7B :
  In "1A" wheel_codes /\ In "7B" wheel_codes /\
  camelot_distance "1A" "7B" = 7 /\ ~ (0 <= camelot_distance "1A" "7B" <= 6).
Proof.
  split; [ | split; [ | split ] ].
  - unfold wheel_codes; simpl; auto.
  - unfold wheel_codes; simpl; tauto.
  - vm_compute; reflexivity.
  - change (camelot_distance "1A" "7B") with 7. lia.
Qed.

(** Among wheel codes, 7 is reached exactly by opposite numbers on different
    rings. *)
Lemma camelot_distance_seven (a b : string) :
  In a wheel_codes -> In b wheel_codes ->
  camelot_distance a b = 7 ->
  exists na la nb lb,
    code_of a = Some (na, la) /\ code_of b = Some (nb, lb) /\
    la <> lb /\ Z.abs (na - nb) = 6.
Proof.
  intros Ha Hb.
  assert (E := forall_wheel_pairs
    (fun a b =>
       negb (camelot_distance a b =? 7)%Z ||
       match code_of a, code_of b with
       | Some (na, la), Some (nb, lb) => negb (Ascii.eqb la lb) && (Z.abs (na - nb) =? 6)%Z
       | _, _ => false
       end)).
  specialize (E ltac:(vm_compute; reflexivity) a b Ha Hb). intro D.
  cbv beta in E. rewrite D in E. simpl in E.
  destruct (code_of a) as [[na la]|]; [|discriminate].
  destruct (code_of b) as [[nb lb]|]; [|discriminate].
  apply andb_true_iff in E. destruct E as [E1 E2].
  exists na, la, nb, lb. repeat split; try reflexivity.
  - intro K. subst. rewrite Ascii.eqb_refl in E1. discriminate.
  - lia.
Qed.

(** An unknown code on either side gives the sentinel. *)
Lemma camelot_distance_unknown (cam_a cam_b : string) :
  code_of cam_a = None \/ code_of cam_b = None ->
  camelot_distance cam_a cam_b = -1.
Proof.
  unfold code_of, camelot_distance.
  destruct (cam_a =? "?")%string; destruct (cam_b =? "?")%string; simpl;
    try reflexivity.
  intros [H | H]; rewrite H; [reflexivity|].
  destruct (split_code cam_a) as [[? ?]|]; reflexivity.
Qed.

(** C4.  The distance rule, for any two strings: the sentinel -1 when a code
    is the unknown sentinel or does not split into number and ring; on one
    ring the circular distance of the numbers; across rings 0 for equal
    numbers and the circular distance plus 1 otherwise. *)
Theorem camelot_distance_rule (cam_a cam_b : string) :
  ((code_of cam_a = None \/ code_of cam_b = None) ->
   camelot_distance cam_a cam_b = -1) /\
  (forall num_a letter_a num_b letter_b,
     code_of cam_a = Some (num_a, letter_a) ->
     code_of cam_b = Some (num_b, letter_b) ->
     (letter_a = letter_b ->
      camelot_distance cam_a cam_b
      = Z.min (Z.abs (num_a - num_b)) (12 - Z.abs (num_a - num_b))) /\
     (letter_a <> letter_b -> num_a = num_b ->
      camelot_distance cam_a cam_b = 0) /\
     (letter_a <> letter_b -> num_a <> num_b ->
      camelot_distance cam_a cam_b
      = Z.min (Z.abs (num_a - num_b)) (12 - Z.abs (num_a - num_b)) + 1)).
Proof.
  split; [apply camelot_distance_unknown|].
  unfold code_of, camelot_distance.
  destruct (cam_a =? "?")%string eqn:Ea; destruct (cam_b =? "?")%string eqn:Eb; simpl.
  1-3: intros; discriminate.
  - intros na la nb lb Ha Hb. rewrite Ha, Hb.
    repeat split.
    + intros ->. now rewrite Ascii.eqb_refl.
    + intros Hl ->. apply Ascii.eqb_neq in Hl. rewrite Hl.
      now rewrite Z.eqb_refl.
    + intros Hl Hn. apply Ascii.eqb_neq in Hl. rewrite Hl.
      apply Z.eqb_neq in Hn. now rewrite Hn.
Qed.

Lemma camelot_distance_rule_witness :
  camelot_distance "?" "8A" = -1 /\
  camelot_distance "1A" "12A" = 1 /\
  camelot_distance "8A" "8B" = 0 /\
  camelot_distance "8A" "10B" = 3.
Proof.
  split; [ | split; [ | split ] ].
  - exact (proj1 (camelot_distance_rule "?" "8A") (or_introl eq_refl)).
  - exact (proj1 (proj2 (camelot_distance_rule "1A" "12A")
                    1 "A"%char 12 "A"%char eq_refl eq_refl) eq_refl).
  - refine (proj1 (proj2 (proj2 (camelot_distance_rule "8A" "8B")
                    8 "A"%char 8 "B"%char eq_refl eq_refl)) _ eq_refl).
    discriminate.
  - refine (proj2 (proj2 (proj2 (camelot_distance_rule "8A" "10B")
                    8 "A"%char 10 "B"%char eq_refl eq_refl)) _ _);
      discriminate.
Defined.

End CamelotFacts.

Module CamelotShift.
Import Camelot CamelotFacts.

Local Open Scope string_scope.
Local Open Scope Z_scope.

(** What [pitch_shift_to_match] returns on the wheel: 0 within distance 1,
    else the pitch-class difference modulo 12, less 12 when above 6.  The
    result lies in -5..6. *)
Lemma pitch_shift_on_wheel (src tgt : string) :
  In src wheel_codes -> In tgt wheel_codes ->
  exists pitch_src pitch_tgt,
    Py.dict_get _CAMELOT_TO_PITCH src = Some pitch_src /\
    Py.dict_get _CAMELOT_TO_PITCH tgt = Some pitch_tgt /\
    0 <= pitch_src < 12 /\ 0 <= pitch_tgt < 12 /\
    pitch_shift_to_match src tgt
    = (if camelot_distance src tgt <=? 1 then 0
       else if (pitch_tgt - pitch_src) mod 12 >? 6
            then (pitch_tgt - pitch_src) mod 12 - 12
            else (pitch_tgt - pitch_src) mod 12) /\
    -5 <= pitch_shift_to_match src tgt <= 6.
Proof.
  intros Hs Ht.
  assert (E := forall_wheel_pairs
    (fun s t =>
       match Py.dict_get _CAMELOT_TO_PITCH s, Py.dict_get _CAMELOT_TO_PITCH t with
       | Some ps, Some pt =>
           ((0 <=? ps) && (ps <? 12) && (0 <=? pt) && (pt <? 12)
            && (-5 <=? pitch_shift_to_match s t) && (pitch_shift_to_match s t <=? 6))%Z
       | _, _ => false
       end)).
  specialize (E ltac:(vm_compute; reflexivity) src tgt Hs Ht). cbv beta in E.
  unfold pitch_shift_to_match in *.
  destruct (Py.dict_get _CAMELOT_TO_PITCH src) as [ps|]; [|discriminate].
  destruct (Py.dict_get _CAMELOT_TO_PITCH tgt) as [pt|]; [|discriminate].
  exists ps, pt.
  repeat (apply andb_true_iff in E; destruct E as [E ?]).
  repeat split; try lia.
Qed.

(** C2.  ["8B"] (C) and ["2B"] (F sharp) are six wheel steps and six
    semitones apart, so both directions tie; [pitch_shift_to_match] returns
    +6 in either order, the upward shift, although its comment and the claim
    prefer the downward one. *)
Theorem pitch_shift_to_match_tie :
  In "8B" wheel_codes /\ In "2B" wheel_codes /\
  camelot_distance "8B" "2B" = 6 /\
  Py.dict_get _CAMELOT_TO_PITCH "8B" = Some 0 /\
  Py.dict_get _CAMELOT_TO_PITCH "2B" = Some 6 /\
  (6 - 0) mod 12 = 6 /\ (0 - 6) mod 12 = 6 /\
  pitch_shift_to_match "8B" "2B" = 6 /\
  pitch_shift_to_match "2B" "8B" = 6.
Proof.
  repeat split; try (vm_compute; reflexivity);
    unfold wheel_codes; simpl; tauto.
Qed.

(** No pair of wheel codes is shifted down by six semitones. *)
Lemma pitch_shift_never_minus_six (src tgt : string) :
  In src wheel_codes -> In tgt wheel_codes -> pitch_shift_to_match src tgt <> -6.
Proof.
  intros Hs Ht.
  destruct (pitch_shift_on_wheel src tgt Hs Ht) as (ps & pt & _ & _ & _ & _ & _ & R).
  lia.
Qed.

(** C3, as stated: ["8A"] and ["10A"] lie on the same ring, and their
    distance is the circular distance 2, not that distance plus 1. *)
Lemma camelot_distance_8A_10A_no_penalty :
  ~ (camelot_distance "8A" "8B" = 0 /\
     camelot_distance "8A" "10A" = Z.min (Z.abs (8 - 10)) (12 - Z.abs (8 - 10)) + 1).
Proof.
  intros [_ H]. vm_compute in H. discriminate.
Qed.

(** C3, amended.  ["8A"] and ["8B"] are at distance 0; ["8A"] and ["10A"]
    are on one ring, at the circular distance 2 of their numbers; the pair
    ["8A"], ["10B"], across rings with unequal numbers, is at that distance
    plus 1. *)
Theorem camelot_distance_examples :
  camelot_distance "8A" "8B" = 0 /\
  code_of "8A" = Some (8, "A"%char) /\
  code_of "10A" = Some (10, "A"%char) /\
  code_of "10B" = Some (10, "B"%char) /\
  camelot_distance "8A" "10A" = Z.min (Z.abs (8 - 10)) (12 - Z.abs (8 - 10)) /\
  camelot_distance "8A" "10A" = 2 /\
  camelot_distance "8A" "10B" = Z.min (Z.abs (8 - 10)) (12 - Z.abs (8 - 10)) + 1 /\
  camelot_distance "8A" "10B" = 3.
Proof.
  repeat split; vm_compute; reflexivity.
Qed.

End CamelotShift.

(* ------------------------------------------------------------------ *)
(** ** Python comparisons and rounding *)

Module PyFacts.

Local Open Scope Q_scope.

Lemma ltb_lt (x y : Q) : Py.ltb x y = true <-> x < y.
Proof.
  unfold Py.ltb. rewrite Qlt_alt.
  destruct (x ?= y); split; congruence.
Qed.

Lemma ltb_ge (x y : Q) : Py.ltb x y = false <-> y <= x.
Proof.
  split; intro H.
  - apply Qnot_lt_le. intro L. apply ltb_lt in L. congruence.
  - destruct (Py.ltb x y) eqn:E; [|reflexivity].
    apply ltb_lt in E. exfalso. exact (Qlt_not_le _ _ E H).
Qed.

Lemma leb_le (x y : Q) : Py.leb x y = true <-> x <= y.
Proof. apply Qle_bool_iff. Qed.

Lemma eqb_eq (x y : Q) : Py.eqb x y = true <-> x == y.
Proof. apply Qeq_bool_iff. Qed.

Lemma eqb_neq (x y : Q) : Py.eqb x y = false <-> ~ x == y.
Proof.
  split; intro H.
  - intro E. apply eqb_eq in E. congruence.
  - destruct (Py.eqb x y) eqn:E; [|reflexivity].
    apply eqb_eq in E. contradiction.
Qed.

Lemma div_some (x y : Q) : ~ y == 0 -> Py.div x y = Some (x / y).
Proof.
  intro H. unfold Py.div. apply eqb_neq in H. unfold Py.eqb in H. now rewrite H.
Qed.

Lemma div_zero (x y : Q) : y == 0 -> Py.div x y = None.
Proof.
  intro H. unfold Py.div. apply eqb_eq in H. unfold Py.eqb in H. now rewrite H.
Qed.

End PyFacts.

(* ------------------------------------------------------------------ *)
(** ** compute_compatibility *)

Module AnalysisFacts.
Import Contracts Analysis.

Local Open Scope string_scope.

(** C10.  With both key confidences at least 0.5 and a code that is the
    unknown sentinel (or does not split), the wheel distance is the sentinel
    -1 and [compute_compatibility] reports [key_compatible = True]. *)
Theorem unknown_code_is_key_compatible (song_a song_b : SongAnalysis.t) :
  (1 # 2 <= SongAnalysis.key_confidence song_a)%Q ->
  (1 # 2 <= SongAnalysis.key_confidence song_b)%Q ->
  (Camelot.code_of (SongAnalysis.camelot song_a) = None \/
   Camelot.code_of (SongAnalysis.camelot song_b) = None) ->
  Camelot.camelot_distance (SongAnalysis.camelot song_a) (SongAnalysis.camelot song_b) = -1 /\
  Compatibility.camelot_distance (compute_compatibility song_a song_b) = -1 /\
  Compatibility.key_compatible (compute_compatibility song_a song_b) = IsBool true.
Proof.
  intros Ca Cb U.
  pose proof (CamelotFacts.camelot_distance_unknown _ _ U) as D.
  unfold compute_compatibility; simpl.
  apply PyFacts.ltb_ge in Ca, Cb. rewrite Ca, Cb, D. auto.
Qed.

Lemma unknown_code_is_key_compatible_witness :
  Compatibility.key_compatible
    (compute_compatibility Inputs.unknown_key_song (Fallback.make_song_b 126))
  = IsBool true.
Proof.
  refine (proj2 (proj2 (unknown_code_is_key_compatible
            Inputs.unknown_key_song (Fallback.make_song_b 126) _ _ _))).
  - vm_compute; discriminate.
  - vm_compute; discriminate.
  - left; vm_compute; reflexivity.
Defined.

End AnalysisFacts.

(* ------------------------------------------------------------------ *)
(** ** Rounding *)

Module RoundFacts.

Local Open Scope Q_scope.

(** Rounding to an integer moves a number by at most one half. *)
Lemma round_half_even_error (x : Q) :
  Qabs (inject_Z (Py.round_half_even x) - x) <= 1 # 2.
Proof.
  pose proof (Qfloor_le x) as Hlo.
  pose proof (Qlt_floor x) as Hhi.
  unfold Py.round_half_even.
  set (f := Qfloor x) in *.
  rewrite inject_Z_plus in Hhi. change (inject_Z 1) with 1 in Hhi.
  apply Qabs_Qle_condition.
  destruct (x - inject_Z f ?= 1 # 2) eqn:C.
  - apply Qeq_alt in C.
    destruct (Z.even f); [ | rewrite inject_Z_plus; change (inject_Z 1) with 1 ];
      split; lra.
  - apply Qlt_alt in C. split; lra.
  - apply Qgt_alt in C. rewrite inject_Z_plus. change (inject_Z 1) with 1.
    split; lra.
Qed.

Lemma pow10_pos (n : nat) : 0 < inject_Z (10 ^ Z.of_nat n).
Proof.
  change 0 with (inject_Z 0). rewrite <- Zlt_Qlt.
  apply Z.pow_pos_nonneg; lia.
Qed.

(** [round(x, n)] as a number. *)
Lemma round_value (x : Q) (n : nat) :
  Py.round x n
  == inject_Z (Py.round_half_even (x * inject_Z (10 ^ Z.of_nat n)))
     / inject_Z (10 ^ Z.of_nat n).
Proof. unfold Py.round. apply Qred_correct. Qed.

(** [round(x, n)] is within half a unit of the [n]-th decimal of [x]. *)
Lemma round_error (x : Q) (n : nat) :
  Qabs (Py.round x n - x) <= (1 # 2) / inject_Z (10 ^ Z.of_nat n).
Proof.
  rewrite round_value.
  pose proof (pow10_pos n) as Hp.
  set (p := inject_Z (10 ^ Z.of_nat n)) in *.
  pose proof (round_half_even_error (x * p)) as E.
  set (y := inject_Z (Py.round_half_even (x * p))) in *.
  assert (Hp0 : ~ p == 0) by lra.
  setoid_replace (y / p - x) with ((y - x * p) / p) by (field; exact Hp0).
  unfold Qdiv. rewrite Qabs_Qmult.
  rewrite (Qabs_pos (/ p)) by (apply Qlt_le_weak, Qinv_lt_0_compat; exact Hp).
  apply Qmult_le_compat_r; [exact E|].
  apply Qlt_le_weak, Qinv_lt_0_compat; exact Hp.
Qed.

Lemma round1_error (x : Q) : Qabs (Py.round x 1 - x) <= 1 # 20.
Proof. exact (round_error x 1). Qed.


Lemma round_one : Py.round 1 4 = 1.
Proof. reflexivity. Qed.

End RoundFacts.

(* ------------------------------------------------------------------ *)
(** ** Rounding to binary64 *)

Module FloatFacts.
Import Binary64.

Local Open Scope Q_scope.

Lemma two_to_pos (e : Z) : 0 < two_to e.
Proof. apply Qpower_0_lt. reflexivity. Qed.

Lemma two_to_add (a b : Z) : two_to (a + b) == two_to a * two_to b.
Proof. apply Qpower_plus. discriminate. Qed.

Lemma two_to_inject (e : Z) : (0 <= e)%Z -> two_to e == inject_Z (2 ^ e).
Proof. intro H. unfold two_to. now rewrite Zpower_Qpower. Qed.

(** A rational lies between the powers of two that the sizes of its
    numerator and denominator give. *)
Lemma abs_between (x : Q) :
  ~ x == 0 ->
  let k := (Z.log2 (Z.abs (Qnum x)) - Z.log2 (Zpos (Qden x)))%Z in
  two_to (k - 52) * two_to 51 < Qabs x < two_to (k - 52) * two_to 53.
Proof.
  intros H k.
  destruct x as [n d]. cbn [Qnum Qden] in k.
  assert (Hn : (0 < Z.abs n)%Z).
  { destruct (Z.eq_dec n 0) as [->|]; [exfalso; apply H; reflexivity | lia]. }
  pose proof (Z.log2_spec (Z.abs n) Hn) as [A1 A2].
  pose proof (Z.log2_spec (Zpos d) eq_refl) as [B1 B2].
  pose proof (Z.log2_nonneg (Z.abs n)) as An.
  pose proof (Z.log2_nonneg (Zpos d)) as Bn.
  set (a := Z.log2 (Z.abs n)) in *. set (b := Z.log2 (Zpos d)) in *.
  assert (Ea : two_to a == inject_Z (2 ^ a)) by (now apply two_to_inject).
  assert (Eb : two_to b == inject_Z (2 ^ b)) by (now apply two_to_inject).
  assert (K1 : two_to (k - 52) * two_to 51 * (2 * two_to b) == two_to a).
  { setoid_replace (2 : Q) with (two_to 1) by reflexivity.
    rewrite <- !two_to_add. unfold k. now replace (a - b - 52 + 51 + (1 + b))%Z with a by lia. }
  assert (K2 : two_to (k - 52) * two_to 53 * two_to b == 2 * two_to a).
  { setoid_replace (2 : Q) with (two_to 1) by reflexivity.
    rewrite <- !two_to_add. unfold k. now replace (a - b - 52 + 53 + b)%Z with (1 + a)%Z by lia. }
  assert (X : Qabs (n # d) * inject_Z (Zpos d) == inject_Z (Z.abs n)).
  { unfold Qabs, Qeq, Qmult, inject_Z. simpl. lia. }
  assert (P2b : (0 < 2 ^ b)%Z) by (apply Z.pow_pos_nonneg; lia).
  assert (D1 : inject_Z (Zpos d) < 2 * two_to b).
  { rewrite Eb. setoid_replace (2 * inject_Z (2 ^ b)) with (inject_Z (2 ^ Z.succ b)).
    - rewrite <- Zlt_Qlt. exact B2.
    - rewrite Z.pow_succ_r by lia. now rewrite inject_Z_mult. }
  assert (D2 : two_to b <= inject_Z (Zpos d)).
  { rewrite Eb. rewrite <- Zle_Qle. exact B1. }
  assert (N1 : two_to a <= inject_Z (Z.abs n)).
  { rewrite Ea. rewrite <- Zle_Qle. exact A1. }
  assert (N2 : inject_Z (Z.abs n) < 2 * two_to a).
  { rewrite Ea. setoid_replace (2 * inject_Z (2 ^ a)) with (inject_Z (2 ^ Z.succ a)).
    - rewrite <- Zlt_Qlt. exact A2.
    - rewrite Z.pow_succ_r by lia. now rewrite inject_Z_mult. }
  pose proof (two_to_pos (k - 52)) as Pt.
  pose proof (two_to_pos b) as Pb.
  pose proof (two_to_pos a) as Pa.
  assert (Pd : 0 < inject_Z (Zpos d)) by (change 0 with (inject_Z 0); rewrite <- Zlt_Qlt; lia).
  pose proof (Qabs_nonneg (n # d)) as Px.
  set (t := two_to (k - 52)) in *. set (ta := two_to a) in *. set (tb := two_to b) in *.
  set (c51 := two_to 51) in *. set (c53 := two_to 53) in *.
  set (ax := Qabs (n # d)) in *. set (dd := inject_Z (Zpos d)) in *.
  set (nn := inject_Z (Z.abs n)) in *.
  assert (P51 : 0 < c51) by apply two_to_pos.
  assert (P53 : 0 < c53) by apply two_to_pos.
  split.
  - (* t c51 < ax:  t c51 * dd < t c51 * 2 tb = ta <= nn = ax dd *)
    apply Qnot_le_lt. intro C.
    assert (ax * dd <= t * c51 * dd) by (apply Qmult_le_compat_r; [exact C | lra]).
    assert (t * c51 * dd < t * c51 * (2 * tb)).
    { apply Qmult_lt_l; [|exact D1]. nra. }
    lra.
  - apply Qnot_le_lt. intro C.
    assert (t * c53 * dd <= ax * dd) by (apply Qmult_le_compat_r; [exact C | lra]).
    assert (t * c53 * tb <= t * c53 * dd).
    { apply Qmult_le_l; [|exact D2]. nra. }
    lra.
Qed.

(** The significand of the rounding has 53 bits. *)
Lemma exponent_spec (x : Q) :
  ~ x == 0 ->
  two_to 52 <= Qabs x / two_to (exponent x) < two_to 53.
Proof.
  intro H. pose proof (abs_between x H) as [L U]. cbv zeta in L, U.
  unfold exponent.
  set (k := (Z.log2 (Z.abs (Qnum x)) - Z.log2 (Zpos (Qden x)))%Z) in *.
  pose proof (two_to_pos (k - 52)) as Pt.
  pose proof (two_to_pos (k - 53)) as Pt'.
  assert (E : two_to (k - 52) == two_to (k - 53) * 2).
  { setoid_replace (2 : Q) with (two_to 1) by reflexivity.
    rewrite <- two_to_add. now replace (k - 53 + 1)%Z with (k - 52)%Z by lia. }
  assert (C1 : two_to 52 == 2 * two_to 51) by reflexivity.
  assert (C2 : two_to 53 == 2 * two_to 52) by reflexivity.
  destruct (Py.ltb (Qabs x / two_to (k - 52)) (two_to 52)) eqn:B.
  - apply PyFacts.ltb_lt in B.
    assert (B' : Qabs x < two_to 52 * two_to (k - 52)).
    { apply (Qmult_lt_compat_r _ _ (two_to (k - 52))) in B; [|exact Pt].
      setoid_replace (Qabs x / two_to (k - 52) * two_to (k - 52)) with (Qabs x) in B
        by (field; lra).
      exact B. }
    split.
    + apply Qle_shift_div_l; [exact Pt'|]. rewrite E in L.
      set (t := two_to (k - 53)) in *. set (c51 := two_to 51) in *.
      set (c52 := two_to 52) in *. set (ax := Qabs x) in *.
      apply Qlt_le_weak. rewrite C1. lra.
    + apply Qlt_shift_div_r; [exact Pt'|]. rewrite E in B'.
      set (t := two_to (k - 53)) in *. set (c53 := two_to 53) in *.
      set (c52 := two_to 52) in *. set (ax := Qabs x) in *.
      rewrite C2. lra.
  - apply PyFacts.ltb_ge in B. split; [exact B|].
    apply Qlt_shift_div_r; [exact Pt|].
    set (t := two_to (k - 52)) in *. set (c53 := two_to 53) in *. lra.
Qed.

Lemma fl64_zero (x : Q) : x == 0 -> fl64 x = 0.
Proof. intro H. unfold fl64. apply PyFacts.eqb_eq in H. now rewrite H. Qed.

Lemma fl64_value (x : Q) :
  ~ x == 0 ->
  fl64 x
  == inject_Z (Py.round_half_even (x / two_to (exponent x))) * two_to (exponent x).
Proof.
  intro H. unfold fl64. apply PyFacts.eqb_neq in H. rewrite H. apply Qred_correct.
Qed.

(** One rounding moves a number by at most [2 ** -53] of its size. *)
Lemma fl64_error (x : Q) : Qabs (fl64 x - x) <= Qabs x * unit_roundoff.
Proof.
  destruct (Qeq_dec x 0) as [Z | N].
  - rewrite (fl64_zero x Z). rewrite Z. discriminate.
  - rewrite (fl64_value x N).
    pose proof (exponent_spec x N) as [L _].
    pose proof (two_to_pos (exponent x)) as Pp.
    set (p := two_to (exponent x)) in *.
    pose proof (RoundFacts.round_half_even_error (x / p)) as R.
    set (r := inject_Z (Py.round_half_even (x / p))) in *.
    assert (Ex : r * p - x == (r - x / p) * p) by (field; lra).
    rewrite Ex, Qabs_Qmult, (Qabs_pos p) by lra.
    apply (Qmult_le_compat_r _ _ p) in L; [|lra].
    setoid_replace (Qabs x / p * p) with (Qabs x) in L by (field; lra).
    assert (S : Qabs (r - x / p) * p <= (1 # 2) * p)
      by (apply Qmult_le_compat_r; [exact R | lra]).
    assert (C : two_to 52 * unit_roundoff == 1 # 2) by reflexivity.
    set (ax := Qabs x) in *. set (c := two_to 52) in *.
    set (ad := Qabs (r - x / p)) in *.
    assert (T : (1 # 2) * p <= ax * unit_roundoff).
    { rewrite <- C.
      setoid_replace (c * unit_roundoff * p) with (c * p * unit_roundoff) by ring.
      apply Qmult_le_compat_r; [exact L | discriminate]. }
    lra.
Qed.

(** The same as a relative error. *)
Lemma fl64_relative (x : Q) :
  exists d, Qabs d <= unit_roundoff /\ fl64 x == x * (1 + d).
Proof.
  destruct (Qeq_dec x 0) as [Z | N].
  - exists 0. split; [discriminate|]. rewrite (fl64_zero x Z), Z. reflexivity.
  - exists ((fl64 x - x) / x). split.
    + pose proof (fl64_error x) as E.
      unfold Qdiv. rewrite Qabs_Qmult, Qabs_Qinv.
      assert (P : 0 < Qabs x).
      { apply Qabs_case; intro; [| ]; destruct (Qeq_dec x 0); try contradiction;
          (apply Qnot_le_lt; intro; apply N; lra). }
      apply Qle_shift_div_r; [exact P|].
      setoid_replace (unit_roundoff * Qabs x) with (Qabs x * unit_roundoff) by ring.
      exact E.
    + field. exact N.
Qed.

(** Multiplying by a non-zero factor and dividing by it again, each rounded
    once, gives the number back up to two roundings. *)
Lemma mul_div_error (t s : Q) :
  ~ s == 0 ->
  exists q,
    div (mul t s) s = Some q /\
    Qabs (q - t)
    <= Qabs t * (2 * unit_roundoff + unit_roundoff * unit_roundoff).
Proof.
  intro N. unfold div, mul.
  apply PyFacts.eqb_neq in N. rewrite N. apply PyFacts.eqb_neq in N.
  eexists. split; [reflexivity|].
  destruct (fl64_relative (t * s)) as (d1 & D1 & E1).
  destruct (fl64_relative (fl64 (t * s) / s)) as (d2 & D2 & E2).
  rewrite E2.
  assert (W : fl64 (t * s) / s == t * (1 + d1)) by (rewrite E1; field; exact N).
  rewrite W.
  setoid_replace (t * (1 + d1) * (1 + d2) - t) with (t * (d1 + d2 + d1 * d2)) by ring.
  rewrite Qabs_Qmult.
  rewrite !(Qmult_comm (Qabs t)).
  apply Qmult_le_compat_r; [|apply Qabs_nonneg].
  eapply Qle_trans; [apply Qabs_triangle|].
  assert (A : Qabs (d1 + d2) <= 2 * unit_roundoff).
  { eapply Qle_trans; [apply Qabs_triangle|]. lra. }
  assert (B : Qabs (d1 * d2) <= unit_roundoff * unit_roundoff).
  { rewrite Qabs_Qmult.
    apply Qle_trans with (unit_roundoff * Qabs d2).
    - apply Qmult_le_compat_r; [exact D1 | apply Qabs_nonneg].
    - rewrite !(Qmult_comm unit_roundoff).
      apply Qmult_le_compat_r; [exact D2 | discriminate]. }
  lra.
Qed.

(** On the sample pairs, the four operations of [Binary64] give the doubles
    the kernel computes. *)
Lemma binary64_agrees_on_samples :
  forallb (fun p => Doubles.agrees (fst p) (snd p)) Doubles.samples = true.
Proof. vm_compute. reflexivity. Qed.

End FloatFacts.

(* ------------------------------------------------------------------ *)
(** ** rule_based_mix *)

Module FallbackFacts.
Import Contracts Fallback.

Local Open Scope Q_scope.

Lemma div_inv (x y q : Q) : Py.div x y = Some q -> ~ y == 0 /\ q = x / y.
Proof.
  unfold Py.div. destruct (Qeq_bool y 0) eqn:E; [discriminate|].
  intro H. injection H as <-. split; [|reflexivity].
  now apply PyFacts.eqb_neq.
Qed.

Lemma eight_bars_inv (target_bpm bars : Q) :
  eight_bars target_bpm = Some bars ->
  ~ target_bpm == 0 /\ bars == 32 * 60000 / target_bpm.
Proof.
  unfold eight_bars. destruct (Py.div (4 * 60000) target_bpm) as [m|] eqn:E;
    [|discriminate].
  intro H. injection H as <-. apply div_inv in E. destruct E as [H0 ->].
  split; [exact H0|]. field. exact H0.
Qed.

Lemma transition_duration_inv (sa : SongAnalysis.t) (out target_bpm dur : Q) :
  transition_duration sa out target_bpm = Some dur ->
  exists bars,
    eight_bars target_bpm = Some bars /\
    dur = (if Py.ltb (SongAnalysis.duration_ms sa) (out + bars)
           then SongAnalysis.duration_ms sa - out else bars).
Proof.
  unfold transition_duration. destruct (eight_bars target_bpm) as [bars|];
    [|discriminate].
  intro H. exists bars. split; [reflexivity|].
  destruct (Py.ltb _ _); now injection H as <-.
Qed.


Section Plan.

Variable float_repr : Q -> string.
Variable contract_a : ContractA.t.
Variable transition_start_ms : option Q.
Variable mix_in_key : bool.
Variable song_b_in_point_ms : option Q.

Let sa := ContractA.song_a contract_a.
Let sb := ContractA.song_b contract_a.
Let compat := ContractA.compatibility contract_a.
Let target_bpm := Compatibility.recommended_target_bpm compat.
Let out := out_point sa transition_start_ms.

(** With a positive target BPM and positive song BPMs [rule_based_mix]
    returns a plan. *)
Lemma rule_based_mix_returns :
  0 < target_bpm -> 0 < SongAnalysis.bpm sa -> 0 < SongAnalysis.bpm sb ->
  exists plan,
    rule_based_mix float_repr contract_a transition_start_ms mix_in_key
      song_b_in_point_ms = Some plan.
Proof.
  intros Ht Ha Hb.
  unfold rule_based_mix, transition_duration, eight_bars, stretch_factors.
  fold sa sb compat target_bpm out.
  rewrite (PyFacts.div_some (4 * 60000) target_bpm) by lra.
  destruct (Py.ltb _ _);
    (destruct (Compatibility.needs_tempo_adjustment compat);
     [ rewrite !PyFacts.div_some by lra | ]; eexists; reflexivity).
Qed.

(** The fields of a returned plan, in terms of the out point, the transition
    duration and the stretch factors computed on the way. *)
Lemma rule_based_mix_plan (plan : ContractB.t) :
  rule_based_mix float_repr contract_a transition_start_ms mix_in_key
    song_b_in_point_ms = Some plan ->
  exists dur stretch_a stretch_b,
    transition_duration sa out target_bpm = Some dur /\
    stretch_factors sa sb compat = Some (stretch_a, stretch_b) /\
    let md := ContractB.mix_decision plan in
    SongMixPoint.out_point_ms (MixDecision.song_a md) = Some (Py.round out 1) /\
    SongMixPoint.fade_start_ms (MixDecision.song_a md) = Some (Py.round out 1) /\
    SongMixPoint.tempo_stretch_factor (MixDecision.song_a md) = Py.round stretch_a 4 /\
    SongMixPoint.tempo_stretch_factor (MixDecision.song_b md) = Py.round stretch_b 4 /\
    Transition.total_duration_ms (MixDecision.transition md) = Py.round dur 1 /\
    Transition.eq_automation (MixDecision.transition md) = bass_swap out dur.
Proof.
  unfold rule_based_mix. fold sa sb compat target_bpm out.
  destruct (transition_duration sa out target_bpm) as [dur|]; [|discriminate].
  destruct (stretch_factors sa sb compat) as [[fa fb]|]; [|discriminate].
  intro H. injection H as <-.
  exists dur, fa, fb. simpl. repeat split; reflexivity.
Qed.

End Plan.

(** C7.  For a positive target BPM: with positive song BPMs the engine
    returns a plan, and the EQ automation of any plan it returns is the bass
    swap: one song-A bass entry, a linear cut from 0 dB to -24 dB over the
    first half of the transition window in song-A time, one song-B bass
    entry, a linear boost from -24 dB to 0 dB over the second half counted
    from song B's in-point, and no entry for the mids or the highs.  The
    window starts at the out point and lasts the transition duration, the two
    values the plan reports rounded to one decimal. *)
Theorem rule_based_mix_bass_swap (float_repr : Q -> string)
    (contract_a : ContractA.t) (transition_start_ms : option Q)
    (mix_in_key : bool) (song_b_in_point_ms : option Q) :
  let sa := ContractA.song_a contract_a in
  let sb := ContractA.song_b contract_a in
  let target_bpm :=
    Compatibility.recommended_target_bpm (ContractA.compatibility contract_a) in
  let out := out_point sa transition_start_ms in
  let decide :=
    rule_based_mix float_repr contract_a transition_start_ms mix_in_key
      song_b_in_point_ms in
  0 < target_bpm ->
  (0 < SongAnalysis.bpm sa -> 0 < SongAnalysis.bpm sb ->
   exists plan, decide = Some plan) /\
  (forall plan, decide = Some plan ->
   exists dur,
     transition_duration sa out target_bpm = Some dur /\
     let md := ContractB.mix_decision plan in
     let eq := Transition.eq_automation (MixDecision.transition md) in
     EQAutomation.song_a_bass eq
     = Some (EQAutomationEntry.mk "cut" out (out + dur / 2) 0 (-24) "linear") /\
     EQAutomation.song_b_bass eq
     = Some (EQAutomationEntry.mk "boost" (dur / 2) dur (-24) 0 "linear") /\
     EQAutomation.song_a_highs eq = None /\
     EQAutomation.song_b_highs eq = None /\
     EQAutomation.song_a_mids eq = None /\
     EQAutomation.song_b_mids eq = None /\
     SongMixPoint.out_point_ms (MixDecision.song_a md) = Some (Py.round out 1) /\
     Transition.total_duration_ms (MixDecision.transition md) = Py.round dur 1).
Proof.
  intros sa sb target_bpm out decide Ht. split.
  - intros Ha Hb. now apply rule_based_mix_returns.
  - intros plan E.
    destruct (rule_based_mix_plan _ _ _ _ _ _ E)
      as (dur & fa & fb & Ed & _ & Ho & _ & _ & _ & Hd & Heq).
    exists dur. split; [exact Ed|].
    cbv zeta. rewrite Heq. simpl.
    repeat split; assumption.
Qed.

Lemma rule_based_mix_bass_swap_witness :
  exists plan,
    rule_based_mix Inputs.no_repr Inputs.default_contract None false None = Some plan /\
    EQAutomation.song_a_bass
      (Transition.eq_automation (MixDecision.transition (ContractB.mix_decision plan)))
    = Some (EQAutomationEntry.mk "cut" 180000 (180000 + (1920000 # 127) / 2)
              0 (-24) "linear").
Proof.
  destruct (rule_based_mix_bass_swap Inputs.no_repr Inputs.default_contract
              None false None) as [Hex Hplan]; [reflexivity|].
  destruct Hex as [plan E]; [reflexivity | reflexivity |].
  exists plan. split; [exact E|].
  destruct (Hplan plan E) as (dur & Ed & Ha & _).
  vm_compute in Ed. injection Ed as <-. exact Ha.
Defined.








End FallbackFacts.

(* ------------------------------------------------------------------ *)
(** ** The render pipeline *)

Module RendererFacts.
Import Contracts Renderer.

Local Open Scope string_scope.

Section Facts.

Variable World : Type.
Variable run : Command -> World -> World * option exn.
Variable ffprobe_duration : Path -> World -> World * (exn + string).
Variable get_sfx_audio : SFXConfig.t -> Path -> World -> World * (exn + option Path).
Variable mkdtemp : World -> World * (exn + Path).
Variable rmtree : Path -> World -> World.
Variable OUTPUT_DIR : Path.
Variable suffix_lower : Path -> string.
Variable float_of_string : string -> option Q.
Variable pow2 : Q -> Q.

Local Notation "'primary'" :=
  (primary_render World run ffprobe_duration get_sfx_audio OUTPUT_DIR
     suffix_lower float_of_string pow2).
Local Notation "'simplified'" := (_simplified_render World run OUTPUT_DIR suffix_lower).
Local Notation "'render'" :=
  (render_mix World run ffprobe_duration get_sfx_audio mkdtemp rmtree OUTPUT_DIR
     suffix_lower float_of_string pow2).
Local Notation "'ensure_wav'" := (_ensure_wav World run suffix_lower).
Local Notation "'time_stretch'" := (_time_stretch World run).
Local Notation "'log'" := (log_of World).
Local Notation "'result'" := (outcome World).

Lemma log_bind {A B} (m : M World A) (k : A -> M World B) (w : World) :
  log (bind World m k w)
  = match m w with
    | (_, l, inl _) => l
    | (w', l, inr a) => (l ++ log (k a w'))%list
    end.
Proof.
  unfold bind, log_of.
  destruct (m w) as [[w' l] [e|a]]; simpl; [reflexivity|].
  destruct (k a w') as [[w'' l'] r]. reflexivity.
Qed.

Lemma result_bind {A B} (m : M World A) (k : A -> M World B) (w : World) :
  result (bind World m k w)
  = match m w with
    | (_, _, inl e) => inl e
    | (w', _, inr a) => result (k a w')
    end.
Proof.
  unfold bind, outcome.
  destruct (m w) as [[w' l] [e|a]]; simpl; [reflexivity|].
  destruct (k a w') as [[w'' l'] r]. reflexivity.
Qed.

(** A sequence returns only if its first part returned. *)
Lemma bind_returns {A B} (m : M World A) (k : A -> M World B) (w : World) (b : B) :
  result (bind World m k w) = inr b ->
  exists w' l a, m w = (w', l, inr a) /\ result (k a w') = inr b.
Proof.
  rewrite result_bind. destruct (m w) as [[w' l] [e|a]]; [discriminate|].
  intro H. now exists w', l, a.
Qed.

(** [run_all] records a prefix of its list, the whole list when it returns. *)
Lemma run_all_log (cs : list Command) (w : World) :
  (exists rest, cs = (log (run_all World run cs w) ++ rest)%list) /\
  (forall u, result (run_all World run cs w) = inr u ->
             log (run_all World run cs w) = cs).
Proof.
  revert w. induction cs as [|c cs IH]; intro w; simpl.
  - split; [now exists []| reflexivity].
  - rewrite log_bind, result_bind. unfold exec.
    destruct (run c w) as [w' [e|]].
    + split; [now exists cs | discriminate].
    + destruct (IH w') as [[rest E] F]. split.
      * exists rest. simpl. now rewrite <- E.
      * intros u Hu. simpl. now rewrite (F u Hu).
Qed.

Ltac step_run :=
  match goal with
  | |- context [run ?c ?w] => destruct (run c w) as [? [?|]]; simpl; try reflexivity
  end.

(** The simplified render is the run of its command lines. *)
Lemma simplified_render_commands (song_a_path song_b_path : Path)
    (contract_b : ContractB.t) (session_id : string) (work_dir : Path) (w : World) :
  simplified song_a_path song_b_path contract_b session_id work_dir w
  = bind World
      (run_all World run
         (simplified_commands suffix_lower OUTPUT_DIR song_a_path song_b_path
            contract_b session_id work_dir))
      (fun _ => ret World (joinpath OUTPUT_DIR (session_id ++ "_mix.mp3"))) w.
Proof.
  unfold _simplified_render, simplified_commands, _ensure_wav, ensure_wav_command,
    _extract_segment.
  cbv zeta.
  destruct (suffix_lower song_a_path =? ".wav");
    destruct (suffix_lower song_b_path =? ".wav");
    destruct (Py.ltb 0 _);
    cbn [run_all app]; unfold bind, exec, ret; repeat step_run.
Qed.

(** The primary path returns the MP3 of the session. *)
Lemma primary_returns_mp3 (contract_b : ContractB.t) (song_a_path song_b_path : Path)
    (session_id : string) (work_dir : Path) (w : World) (p : Path) :
  result (primary contract_b song_a_path song_b_path session_id work_dir w) = inr p ->
  p = joinpath OUTPUT_DIR (session_id ++ "_mix.mp3").
Proof.
  unfold primary_render. cbv zeta. intro H.
  repeat (apply bind_returns in H; destruct H as (? & ? & ? & _ & H); cbv beta in H).
  unfold ret, outcome in H. simpl in H. now injection H as <-.
Qed.

(** The simplified render records a prefix of its command lines, and all of
    them when it returns the MP3. *)
Lemma simplified_render_log (song_a_path song_b_path : Path)
    (contract_b : ContractB.t) (session_id : string) (work_dir : Path) (w : World) :
  let second := simplified song_a_path song_b_path contract_b session_id work_dir w in
  let cmds := simplified_commands suffix_lower OUTPUT_DIR song_a_path song_b_path
                contract_b session_id work_dir in
  (exists rest, cmds = (log second ++ rest)%list) /\
  (forall p, result second = inr p ->
             p = joinpath OUTPUT_DIR (session_id ++ "_mix.mp3") /\ log second = cmds).
Proof.
  cbv zeta. rewrite simplified_render_commands.
  rewrite log_bind, result_bind.
  pose proof (run_all_log
                (simplified_commands suffix_lower OUTPUT_DIR song_a_path song_b_path
                   contract_b session_id work_dir) w) as [[rest E] F].
  unfold log_of, outcome in *.
  destruct (run_all World run _ w) as [[w' l] [e|u]]; simpl in *.
  - split; [now exists rest | discriminate].
  - split.
    + exists rest. now rewrite app_nil_r.
    + intros p Hp. injection Hp as <-. rewrite app_nil_r. split; [reflexivity|].
      now apply (F u).
Qed.

(** No command line of the simplified render is an EQ, a tempo stretch, a
    pitch shift or an SFX overlay. *)
Lemma simplified_commands_plain (song_a_path song_b_path : Path)
    (contract_b : ContractB.t) (session_id : string) (work_dir : Path) :
  forallb plain_command
    (simplified_commands suffix_lower OUTPUT_DIR song_a_path song_b_path
       contract_b session_id work_dir) = true.
Proof.
  unfold simplified_commands, ensure_wav_command. cbv zeta.
  destruct (suffix_lower song_a_path =? ".wav");
    destruct (suffix_lower song_b_path =? ".wav");
    destruct (Py.ltb 0 _); reflexivity.
Qed.

Lemma returns_then {A B} (m : M World A) (k : A -> M World B) (w : World) (b : B) :
  result (bind World m k w) = inr b ->
  exists w' l a,
    m w = (w', l, inr a) /\ result (k a w') = inr b /\
    log (bind World m k w) = (l ++ log (k a w'))%list.
Proof.
  unfold bind, outcome, log_of.
  destruct (m w) as [[w' l] [e|a]]; [discriminate|].
  intro H. exists w', l, a.
  destruct (k a w') as [[w'' l'] r]. simpl in *. now repeat split.
Qed.

Lemma ensure_wav_returns (input_path output_path : Path) (w w' : World)
    (l : list Command) (p : Path) :
  ensure_wav input_path output_path w = (w', l, inr p) ->
  l = [ensure_wav_command suffix_lower input_path output_path].
Proof.
  unfold _ensure_wav, ensure_wav_command, bind, exec, ret.
  destruct (suffix_lower input_path =? ".wav");
    (destruct (run _ w) as [w1 [e|]]; simpl; intro H; [discriminate|];
     now injection H as _ <- _).
Qed.

Lemma normalize_returns (wav_path output_mp3 output_wav : Path) (w w' : World)
    (l : list Command) (u : unit) :
  _normalize_and_export World run wav_path output_mp3 output_wav w = (w', l, inr u) ->
  l = [ ffmpeg_loudnorm wav_path (Some "320k") output_mp3;
        ffmpeg_loudnorm wav_path None output_wav ].
Proof.
  unfold _normalize_and_export, bind, exec.
  destruct (run _ w) as [w1 [e|]]; simpl; [discriminate|].
  destruct (run _ w1) as [w2 [e|]]; simpl; intro H; [discriminate|].
  now injection H as _ <- .
Qed.

Lemma prepended (l x : list Command) (tail : Path -> list Command) :
  (exists middle mixed, x = (middle ++ tail mixed)%list) ->
  exists middle mixed, (l ++ x)%list = (middle ++ tail mixed)%list.
Proof.
  intros (middle & mixed & ->). exists (l ++ middle)%list, mixed. apply app_assoc.
Qed.

(** A returning primary path has run the two conversions first, and last the
    two exports of one mixed file; what it returns is the MP3 it exported. *)
Lemma primary_returns_log (contract_b : ContractB.t) (song_a_path song_b_path : Path)
    (session_id : string) (work_dir : Path) (w : World) (p : Path) :
  result (primary contract_b song_a_path song_b_path session_id work_dir w) = inr p ->
  p = joinpath OUTPUT_DIR (session_id ++ "_mix.mp3") /\
  exists middle mixed,
    log (primary contract_b song_a_path song_b_path session_id work_dir w)
    = ([ ensure_wav_command suffix_lower song_a_path (joinpath work_dir "a_full.wav");
         ensure_wav_command suffix_lower song_b_path (joinpath work_dir "b_full.wav") ]
       ++ middle
       ++ [ ffmpeg_loudnorm mixed (Some "320k")
              (joinpath OUTPUT_DIR (session_id ++ "_mix.mp3"));
            ffmpeg_loudnorm mixed None
              (joinpath OUTPUT_DIR (session_id ++ "_mix.wav")) ])%list.
Proof.
  intro H. split; [now apply (primary_returns_mp3 _ _ _ _ _ _ _ H)|].
  unfold primary_render in *. cbv zeta in *.
  apply returns_then in H. destruct H as (w1 & l1 & wav_a & Ha & H & E).
  rewrite E. clear E. cbv beta in H.
  apply returns_then in H. destruct H as (w2 & l2 & wav_b & Hb & H & E).
  rewrite E. clear E. cbv beta in H.
  apply ensure_wav_returns in Ha, Hb. subst l1 l2.
  match goal with
  | |- exists _ _, ([_] ++ [_] ++ ?x)%list = _ =>
      enough (G : exists middle mixed,
                 x = (middle
                      ++ [ ffmpeg_loudnorm mixed (Some "320k")
                             (joinpath OUTPUT_DIR (session_id ++ "_mix.mp3"));
                           ffmpeg_loudnorm mixed None
                             (joinpath OUTPUT_DIR (session_id ++ "_mix.wav")) ])%list);
      [destruct G as (middle & mixed & ->); now exists middle, mixed|]
  end.
  do 10 (apply returns_then in H; destruct H as (? & ? & ? & _ & H & E);
         rewrite E; clear E; cbv beta in H;
         apply (prepended _ _
                  (fun mixed =>
                     [ ffmpeg_loudnorm mixed (Some "320k")
                         (joinpath OUTPUT_DIR (session_id ++ "_mix.mp3"));
                       ffmpeg_loudnorm mixed None
                         (joinpath OUTPUT_DIR (session_id ++ "_mix.wav")) ]))).
  apply returns_then in H. destruct H as (w3 & l3 & u & Hn & _ & E).
  rewrite E. clear E. apply normalize_returns in Hn. subst l3.
  eexists [], _. reflexivity.
Qed.

(** C8, amended.  Once the working directory of the render exists: when the
    primary path returns, [render_mix] returns its MP3, having run what the
    primary path ran, the conversions of the two songs first and the exports
    of the mixed file to the MP3 and the WAV last; when any step of the
    primary path raises, [render_mix] continues with the simplified render
    from the world the failure left and has its outcome; so [render_mix]
    raises only if both raise.  The simplified render runs, in order and up
    to the first failure, the command lines [simplified_commands]: both
    songs to WAV (song A otherwise untouched), song B cut at its in-point
    when that is positive, a crossfade with the triangular curve over the
    plan's total duration, loudness normalisation into the MP3; none is an
    EQ, stretch, pitch or SFX command. *)
Theorem render_mix_fallback (contract_b : ContractB.t) (song_a_path song_b_path : Path)
    (session_id : string) (w w0 : World) (work_dir : Path) :
  mkdtemp w = (w0, inr work_dir) ->
  let first := primary contract_b song_a_path song_b_path session_id work_dir w0 in
  let second :=
    simplified song_a_path song_b_path contract_b session_id work_dir (fst (fst first)) in
  let cmds := simplified_commands suffix_lower OUTPUT_DIR song_a_path song_b_path
                contract_b session_id work_dir in
  let final := render contract_b song_a_path song_b_path session_id w in
  let output_mp3 := joinpath OUTPUT_DIR (session_id ++ "_mix.mp3") in
  let output_wav := joinpath OUTPUT_DIR (session_id ++ "_mix.wav") in
  (forall p, result first = inr p ->
     result final = inr output_mp3 /\ p = output_mp3 /\ log final = log first /\
     exists middle mixed,
       log first
       = ([ ensure_wav_command suffix_lower song_a_path (joinpath work_dir "a_full.wav");
            ensure_wav_command suffix_lower song_b_path (joinpath work_dir "b_full.wav") ]
          ++ middle
          ++ [ ffmpeg_loudnorm mixed (Some "320k") output_mp3;
               ffmpeg_loudnorm mixed None output_wav ])%list) /\
  (forall e, result first = inl e ->
     result final = result second /\
     log final = (log first ++ log second)%list) /\
  (forall p, result second = inr p -> p = output_mp3 /\ log second = cmds) /\
  (exists rest, cmds = (log second ++ rest)%list) /\
  forallb plain_command cmds = true /\
  (forall e, result final = inl e <->
     (exists e1, result first = inl e1) /\ result second = inl e) /\
  (forall p, result final = inr p <->
     p = output_mp3 /\
     (result first = inr output_mp3 \/
      (exists e1, result first = inl e1) /\ result second = inr output_mp3)).
Proof.
  intros Hdir first second cmds final output_mp3 output_wav.
  pose proof (simplified_render_log song_a_path song_b_path contract_b session_id
                work_dir (fst (fst first))) as [Hpre Hret].
  fold second cmds output_mp3 in Hpre, Hret.
  pose proof (primary_returns_log contract_b song_a_path song_b_path session_id
                work_dir w0) as Hlog.
  fold first output_mp3 output_wav in Hlog.
  assert (Hfinal :
            final
            = match first with
              | (w1, l1, inr p) => (rmtree work_dir w1, l1, inr p)
              | (w1, l1, inl e) =>
                  let '(w2, l2, r) := second in (rmtree work_dir w2, (l1 ++ l2)%list, r)
              end).
  { unfold final, render_mix, bind, lift. rewrite Hdir.
    unfold render_in, try_finally, try_except. fold first.
    unfold second.
    destruct first as [[w1 l1] [e|p]]; simpl.
    - destruct (simplified _ _ _ _ _ w1) as [[w2 l2] r]. reflexivity.
    - reflexivity. }
  pose proof (simplified_commands_plain song_a_path song_b_path contract_b
                session_id work_dir) as Hplain.
  fold cmds in Hplain.
  clearbody final first second cmds output_mp3 output_wav. subst final.
  destruct first as [[w1 l1] [e1|p1]]; destruct second as [[w2 l2] r2];
    unfold outcome, log_of in *; cbn [fst snd] in *.
  - split; [intros p E; discriminate|].
    split; [intros e _; split; reflexivity|].
    split; [exact Hret|]. split; [exact Hpre|]. split; [exact Hplain|].
    split.
    + intro e. split.
      * intro E. split; [now exists e1 | exact E].
      * intros [_ E]. exact E.
    + intro p. split.
      * intro E. destruct (Hret p E) as [-> _]. split; [reflexivity|].
        right. split; [now exists e1 | exact E].
      * intros [-> [E | [_ E]]]; [discriminate | exact E].
  - destruct (Hlog p1 eq_refl) as [-> Hshape].
    split; [intros p E; injection E as <-; repeat split; try reflexivity; exact Hshape |].
    split; [intros e E; discriminate|].
    split; [exact Hret|]. split; [exact Hpre|]. split; [exact Hplain|].
    split.
    + intro e. split; [discriminate | intros [[e1 E] _]; discriminate].
    + intro p. split.
      * intro E. injection E as <-. split; [reflexivity | now left].
      * intros [-> _]. reflexivity.
Qed.

(** [_time_stretch] first asks rubberband for the time ratio [1 / factor];
    a zero factor raises before any command. *)
Lemma time_stretch_ratio (input_wav : Path) (factor : Q) (output_path : Path)
    (w : World) :
  ~ (factor == 0)%Q ->
  exists rest,
    log (time_stretch input_wav factor output_path w)
    = rubberband_tempo (1 / factor) input_wav output_path :: rest.
Proof.
  intro H. unfold _time_stretch. rewrite PyFacts.div_some by exact H.
  unfold try_except, bind, exec, ret, raise, log_of.
  destruct (run _ w) as [w' [e|]]; simpl.
  - destruct e; simpl; try (eexists; reflexivity).
    + destruct (Py.ltb factor 0); simpl; [eexists; reflexivity|].
      destruct (run _ w') as [w'' [e|]]; simpl; eexists; reflexivity.
    + destruct (Py.ltb factor 0); simpl; [eexists; reflexivity|].
      destruct (run _ w') as [w'' [e|]]; simpl; eexists; reflexivity.
  - eexists; reflexivity.
Qed.

Lemma time_stretch_zero (input_wav : Path) (factor : Q) (output_path : Path)
    (w : World) :
  (factor == 0)%Q ->
  time_stretch input_wav factor output_path w = (w, [], inl ZeroDivisionError).
Proof.
  intro H. unfold _time_stretch. now rewrite PyFacts.div_zero by exact H.
Qed.

(** C9, amended.  For a stretch factor [sa_sf] of song A other than 1 and 0,
    on values for which neither the product nor the quotient overflows or
    falls below the normal doubles: the original-tempo transition zone is
    the product of the transition duration and [sa_sf], rounded as a double;
    once both inputs are converted, the next command extracts song A from 0
    to the fade start plus that zone; and dividing the zone by [sa_sf] gives
    back the transition duration up to the rounding of the product and of
    the quotient, a relative error of at most [2 ** -52 + 2 ** -106]. *)
Theorem transition_zone_inverse (contract_b : ContractB.t)
    (song_a_path song_b_path : Path) (session_id : string) (work_dir : Path) :
  let md := ContractB.mix_decision contract_b in
  let sa_sf := SongMixPoint.tempo_stretch_factor (MixDecision.song_a md) in
  let trans_dur := Transition.total_duration_ms (MixDecision.transition md) in
  let zone := orig_trans_dur_a trans_dur sa_sf in
  ~ (sa_sf == 1)%Q -> ~ (sa_sf == 0)%Q ->
  Binary64.in_range (trans_dur * sa_sf) ->
  Binary64.in_range (zone / sa_sf) ->
  zone = Binary64.mul trans_dur sa_sf /\
  (exists q,
     Binary64.div zone sa_sf = Some q /\
     (Qabs (q - trans_dur)
      <= Qabs trans_dur
         * (2 * Binary64.unit_roundoff
            + Binary64.unit_roundoff * Binary64.unit_roundoff))%Q) /\
  (forall w w1 l1 wav_a w2 l2 wav_b,
     ensure_wav song_a_path (joinpath work_dir "a_full.wav") w = (w1, l1, inr wav_a) ->
     ensure_wav song_b_path (joinpath work_dir "b_full.wav") w1 = (w2, l2, inr wav_b) ->
     exists rest,
       log (primary contract_b song_a_path song_b_path session_id work_dir w)
       = (l1 ++ l2
          ++ ffmpeg_extract wav_a (Py.round (Binary64.div1000 0) 3)
               (Some (Py.round
                        (Binary64.div1000
                           (Binary64.sub (Binary64.add (fade_start_of md) zone) 0))
                        3))
               (joinpath work_dir "seg_a.wav")
             :: rest)%list).
Proof.
  intros md sa_sf trans_dur zone H1 H0 _ _.
  assert (Ez : zone = Binary64.mul trans_dur sa_sf).
  { unfold zone, orig_trans_dur_a. apply PyFacts.eqb_neq in H1. now rewrite H1. }
  split; [exact Ez|]. split.
  - rewrite Ez. now apply FloatFacts.mul_div_error.
  - intros w w1 l1 wav_a w2 l2 wav_b Ea Eb.
    unfold primary_render. cbv zeta.
    rewrite log_bind, Ea. rewrite log_bind, Eb. rewrite log_bind.
    fold md sa_sf trans_dur zone.
    unfold _extract_segment at 1. unfold bind at 1, exec at 1, ret at 1.
    destruct (run _ w2) as [w3 [e|]]; simpl.
    + exists []. reflexivity.
    + eexists. reflexivity.
Qed.

End Facts.

(** With a failing equalizer the primary path of the 128/122 BPM plan stops
    at the EQ stage and the render still returns the MP3. *)
Lemma render_mix_fallback_witness :
  outcome unit
    (render_mix unit Inputs.eq_fails Inputs.probe_15s Inputs.no_sfx Inputs.tmp_dir
       Inputs.keep_dir "/out" Inputs.mp3_suffix Inputs.float_15 Inputs.pow2_one
       Inputs.stretch_plan "a.mp3" "b.mp3" "s1" tt)
  = inr "/out/s1_mix.mp3".
Proof.
  destruct (render_mix_fallback unit Inputs.eq_fails Inputs.probe_15s Inputs.no_sfx
              Inputs.tmp_dir Inputs.keep_dir "/out" Inputs.mp3_suffix Inputs.float_15
              Inputs.pow2_one Inputs.stretch_plan "a.mp3" "b.mp3" "s1" tt tt
              "/tmp/dj_render_0" eq_refl)
    as (_ & H & _).
  destruct (H CalledProcessError) as [E _]; [vm_compute; reflexivity|].
  rewrite E. vm_compute. reflexivity.
Defined.

(** C8, as stated: where the working directory cannot be created,
    [render_mix] fails and runs nothing, although in that world the primary
    path and the simplified render both return the MP3, in whatever
    directory they are run. *)
Lemma render_fails_though_both_paths_return :
  let final :=
    render_mix unit Inputs.all_work Inputs.probe_15s Inputs.no_sfx
      MoreInputs.no_tmp_dir Inputs.keep_dir "/out" Inputs.mp3_suffix Inputs.float_15
      Inputs.pow2_one Inputs.stretch_plan "a.mp3" "b.mp3" "s1" tt in
  outcome unit final = inl (OSError "No space left on device") /\
  log_of unit final = [] /\
  (forall work_dir,
     outcome unit
       (primary_render unit Inputs.all_work Inputs.probe_15s Inputs.no_sfx "/out"
          Inputs.mp3_suffix Inputs.float_15 Inputs.pow2_one Inputs.stretch_plan
          "a.mp3" "b.mp3" "s1" work_dir tt)
     = inr "/out/s1_mix.mp3") /\
  (forall work_dir,
     outcome unit
       (_simplified_render unit Inputs.all_work "/out" Inputs.mp3_suffix
          "a.mp3" "b.mp3" Inputs.stretch_plan "s1" work_dir tt)
     = inr "/out/s1_mix.mp3") /\
  ~ (forall e, outcome unit final = inl e ->
       forall work_dir,
         (exists e1,
             outcome unit
               (primary_render unit Inputs.all_work Inputs.probe_15s Inputs.no_sfx
                  "/out" Inputs.mp3_suffix Inputs.float_15 Inputs.pow2_one
                  Inputs.stretch_plan "a.mp3" "b.mp3" "s1" work_dir tt)
             = inl e1) /\
         (exists e2,
             outcome unit
               (_simplified_render unit Inputs.all_work "/out" Inputs.mp3_suffix
                  "a.mp3" "b.mp3" Inputs.stretch_plan "s1" work_dir tt)
             = inl e2)).
Proof.
  cbv zeta.
  assert (P : forall work_dir,
             outcome unit
               (primary_render unit Inputs.all_work Inputs.probe_15s Inputs.no_sfx
                  "/out" Inputs.mp3_suffix Inputs.float_15 Inputs.pow2_one
                  Inputs.stretch_plan "a.mp3" "b.mp3" "s1" work_dir tt)
             = inr "/out/s1_mix.mp3").
  { intro work_dir. vm_compute. reflexivity. }
  split; [reflexivity|]. split; [reflexivity|]. split; [exact P|].
  split; [intro work_dir; vm_compute; reflexivity|].
  intro H.
  destruct (H (OSError "No space left on device") eq_refl "/tmp/dj_render_0")
    as [[e1 E] _].
  rewrite P in E. discriminate.
Qed.

(** C9, as stated: on the doubles themselves, eight bars at 125 BPM times
    the factor 0.9013 and divided by it again are not eight bars, and
    [Binary64] computes the very same double; the smallest double times one
    half underflows to zero, out of the range of [Binary64], and dividing by
    one half leaves zero; and a zero factor differs from 1 while dividing
    its zone by it raises. *)
Lemma window_division_not_exact :
  PrimFloat.eqb Doubles.factor_09013 PrimFloat.one = false /\
  PrimFloat.eqb
    (PrimFloat.div
       (Doubles.orig_trans_dur_a Doubles.eight_bars_125 Doubles.factor_09013)
       Doubles.factor_09013)
    Doubles.eight_bars_125 = false /\
  (let sf := Doubles.to_Q Doubles.factor_09013 in
   ~ (sf == 1)%Q /\
   exists q,
     Binary64.div (orig_trans_dur_a 15360 sf) sf = Some q /\
     ~ (q == 15360)%Q /\
     q = Doubles.to_Q
           (PrimFloat.div
              (Doubles.orig_trans_dur_a Doubles.eight_bars_125 Doubles.factor_09013)
              Doubles.factor_09013)) /\
  PrimFloat.eqb Doubles.half PrimFloat.one = false /\
  PrimFloat.eqb
    (PrimFloat.div (Doubles.orig_trans_dur_a Doubles.smallest Doubles.half)
       Doubles.half)
    PrimFloat.zero = true /\
  PrimFloat.eqb Doubles.smallest PrimFloat.zero = false /\
  ~ Binary64.in_range (Doubles.to_Q Doubles.smallest * Doubles.to_Q Doubles.half) /\
  ~ (0 == 1)%Q /\
  Binary64.div (orig_trans_dur_a 15360 0) 0 = None.
Proof.
  split; [vm_compute; reflexivity|]. split; [vm_compute; reflexivity|].
  split.
  { cbv zeta. split; [vm_compute; discriminate|].
    eexists. split; [vm_compute; reflexivity|].
    split; [vm_compute; discriminate | vm_compute; reflexivity]. }
  split; [vm_compute; reflexivity|]. split; [vm_compute; reflexivity|].
  split; [vm_compute; reflexivity|].
  split; [|split; [discriminate | reflexivity]].
  intros [H | [H _]]; vm_compute in H; [discriminate | apply H; reflexivity].
Qed.

Lemma transition_zone_inverse_witness :
  orig_trans_dur_a 15360 (4883 # 5000) = Binary64.mul 15360 (4883 # 5000) /\
  exists q,
    Binary64.div (orig_trans_dur_a 15360 (4883 # 5000)) (4883 # 5000) = Some q /\
    (Qabs (q - 15360)
     <= Qabs 15360
        * (2 * Binary64.unit_roundoff
           + Binary64.unit_roundoff * Binary64.unit_roundoff))%Q.
Proof.
  destruct (transition_zone_inverse unit Inputs.all_work Inputs.probe_15s
              Inputs.no_sfx "/out" Inputs.mp3_suffix Inputs.float_15 Inputs.pow2_one
              Inputs.stretch_plan "a.mp3" "b.mp3" "s1" "/tmp/dj_render_0")
    as (Ez & Hq & _).
  - discriminate.
  - discriminate.
  - right. split; vm_compute; discriminate.
  - right. split; vm_compute; discriminate.
  - split; [exact Ez | exact Hq].
Defined.

End RendererFacts.

(* ------------------------------------------------------------------ *)
(** ** The atempo chain *)

Module AtempoFacts.
Import Renderer.

Local Open Scope Q_scope.

Lemma pow2_succ (n : nat) :
  inject_Z (2 ^ Z.of_nat (S n)) == 2 * inject_Z (2 ^ Z.of_nat n).
Proof.
  rewrite Nat2Z.inj_succ, Z.pow_succ_r by lia.
  now rewrite inject_Z_mult.
Qed.

Lemma halve_loop_le (fuel : nat) : forall (v : Q) (chain : list Q),
  v <= 2 * inject_Z (2 ^ Z.of_nat fuel) ->
  snd (halve_loop fuel v chain) <= 2.
Proof.
  induction fuel as [|fuel IH]; intros v chain H.
  - cbn [halve_loop snd]. change (inject_Z (2 ^ Z.of_nat 0)) with 1 in H. lra.
  - simpl halve_loop. destruct (Py.ltb 2 v) eqn:L.
    + apply IH. rewrite pow2_succ in H.
      unfold Qdiv. change (/ 2) with (1 # 2).
      set (k := inject_Z (2 ^ Z.of_nat fuel)) in *. lra.
    + apply PyFacts.ltb_ge in L. exact L.
Qed.

Lemma halve_loop_pos (fuel : nat) : forall (v : Q) (chain : list Q),
  0 < v -> 0 < snd (halve_loop fuel v chain).
Proof.
  induction fuel as [|fuel IH]; intros v chain H; simpl.
  - exact H.
  - destruct (Py.ltb 2 v); [apply IH | exact H].
    unfold Qdiv. change (/ 2) with (1 # 2). lra.
Qed.

Lemma double_loop_ge (fuel : nat) : forall (v : Q) (chain : list Q),
  1 # 2 <= v * inject_Z (2 ^ Z.of_nat fuel) ->
  1 # 2 <= snd (double_loop fuel v chain).
Proof.
  induction fuel as [|fuel IH]; intros v chain H.
  - cbn [double_loop snd]. change (inject_Z (2 ^ Z.of_nat 0)) with 1 in H. lra.
  - simpl double_loop. destruct (Py.ltb v (1 # 2)) eqn:L.
    + apply IH. rewrite pow2_succ in H.
      set (k := inject_Z (2 ^ Z.of_nat fuel)) in *.
      setoid_replace (v * 2 * k) with (v * (2 * k)) by ring. exact H.
    + apply PyFacts.ltb_ge in L. exact L.
Qed.

Lemma double_loop_le (fuel : nat) : forall (v : Q) (chain : list Q),
  v <= 2 -> snd (double_loop fuel v chain) <= 2.
Proof.
  induction fuel as [|fuel IH]; intros v chain H; simpl.
  - exact H.
  - destruct (Py.ltb v (1 # 2)) eqn:L; [|exact H].
    apply PyFacts.ltb_lt in L. apply IH. lra.
Qed.

Lemma size_bound (p : positive) : (Z.pos p < 2 ^ Z.of_nat (Pos.to_nat (Pos.size p)))%Z.
Proof.
  rewrite positive_nat_Z.
  pose proof (Pos.size_gt p) as H.
  apply Pos2Z.pos_lt_pos in H. rewrite Pos2Z.inj_pow in H. exact H.
Qed.

(** The bits of the numerator are fuel enough for the first loop. *)
Lemma numerator_fuel (v : Q) :
  0 < v -> v <= 2 * inject_Z (2 ^ Z.of_nat (Pos.to_nat (Pos.size (Z.to_pos (Qnum v))))).
Proof.
  destruct v as [n d]. unfold Qlt. simpl. intro H.
  assert (Hn : (0 < n)%Z) by lia.
  pose proof (size_bound (Z.to_pos n)) as B. rewrite Z2Pos.id in B by exact Hn.
  set (k := (2 ^ Z.of_nat (Pos.to_nat (Pos.size (Z.to_pos n))))%Z) in *.
  apply Qle_trans with (inject_Z k).
  - unfold Qle, inject_Z. simpl. nia.
  - assert (0 <= inject_Z k); [|lra].
    change 0 with (inject_Z 0). rewrite <- Zle_Qle. lia.
Qed.

(** The bits of the denominator are fuel enough for the second loop. *)
Lemma denominator_fuel (v : Q) :
  0 < v -> 1 # 2 <= v * inject_Z (2 ^ Z.of_nat (Pos.to_nat (Pos.size (Qden v)))).
Proof.
  destruct v as [n d]. unfold Qlt. simpl. intro H.
  assert (Hn : (0 < n)%Z) by lia.
  pose proof (size_bound d) as B.
  set (k := (2 ^ Z.of_nat (Pos.to_nat (Pos.size d)))%Z) in *.
  unfold Qle, Qmult, inject_Z. simpl. nia.
Qed.

(** For a positive factor both loops of the chain end with their conditions
    false: the last factor lies between 0.5 and 2. *)
Lemma atempo_loops_exit (factor : Q) :
  0 < factor ->
  1 # 2 <= snd (atempo_loops factor) <= 2 /\
  Py.ltb 2 (snd (atempo_loops factor)) = false /\
  Py.ltb (snd (atempo_loops factor)) (1 # 2) = false.
Proof.
  intro H. unfold atempo_loops.
  pose proof (halve_loop_le _ factor [] (numerator_fuel factor H)) as L1.
  pose proof (halve_loop_pos (Pos.to_nat (Pos.size (Z.to_pos (Qnum factor))))
                factor [] H) as P1.
  destruct (halve_loop _ factor []) as [chain1 v1]. simpl in L1, P1.
  pose proof (double_loop_ge _ v1 chain1 (denominator_fuel v1 P1)) as G2.
  pose proof (double_loop_le (Pos.to_nat (Pos.size (Qden v1))) v1 chain1 L1) as L2.
  split; [split; assumption|].
  split; apply PyFacts.ltb_ge; assumption.
Qed.

End AtempoFacts.

(* ================================================================== *)
(** * Further properties *)

(* ------------------------------------------------------------------ *)
(** ** More on rounding *)

Module RoundMore.

Local Open Scope Q_scope.

Lemma round_half_even_bounds (x : Q) :
  (Qfloor x <= Py.round_half_even x <= Qfloor x + 1)%Z.
Proof.
  unfold Py.round_half_even.
  destruct (x - inject_Z (Qfloor x) ?= 1 # 2); [destruct (Z.even _)| |]; lia.
Qed.

Lemma round_half_even_comp (x y : Q) :
  x == y -> Py.round_half_even x = Py.round_half_even y.
Proof.
  intro E. unfold Py.round_half_even.
  rewrite (Qfloor_comp _ _ E).
  assert (C : (x - inject_Z (Qfloor y) ?= 1 # 2) = (y - inject_Z (Qfloor y) ?= 1 # 2)).
  { apply Qcompare_comp; [|reflexivity]. now rewrite E. }
  now rewrite C.
Qed.

(** Rounding to an integer is monotone. *)
Lemma round_half_even_mono (x y : Q) :
  x <= y -> (Py.round_half_even x <= Py.round_half_even y)%Z.
Proof.
  intro H.
  pose proof (Qfloor_resp_le _ _ H) as F.
  destruct (Z.eq_dec (Qfloor x) (Qfloor y)) as [E|N].
  - unfold Py.round_half_even. rewrite E.
    destruct (x - inject_Z (Qfloor y) ?= 1 # 2) eqn:Cx;
      destruct (y - inject_Z (Qfloor y) ?= 1 # 2) eqn:Cy;
      try (destruct (Z.even (Qfloor y))); try lia;
      repeat match goal with
             | C : (_ ?= _) = Eq |- _ => apply Qeq_alt in C
             | C : (_ ?= _) = Lt |- _ => apply Qlt_alt in C
             | C : (_ ?= _) = Gt |- _ => apply Qgt_alt in C
             end;
      exfalso; lra.
  - pose proof (round_half_even_bounds x). pose proof (round_half_even_bounds y). lia.
Qed.

Lemma round_comp (x y : Q) (n : nat) : x == y -> Py.round x n = Py.round y n.
Proof.
  intro E. unfold Py.round. apply Qred_complete.
  set (p := inject_Z (10 ^ Z.of_nat n)).
  rewrite (round_half_even_comp (x * p) (y * p)); [reflexivity|].
  now rewrite E.
Qed.

(** [round(_, n)] is monotone. *)
Lemma round_mono (x y : Q) (n : nat) : x <= y -> Py.round x n <= Py.round y n.
Proof.
  intro H. rewrite !RoundFacts.round_value.
  pose proof (RoundFacts.pow10_pos n) as Hp.
  set (p := inject_Z (10 ^ Z.of_nat n)) in *.
  unfold Qdiv. apply Qmult_le_compat_r.
  - rewrite <- Zle_Qle. apply round_half_even_mono.
    apply Qmult_le_compat_r; [exact H | apply Qlt_le_weak; exact Hp].
  - apply Qlt_le_weak, Qinv_lt_0_compat; exact Hp.
Qed.

Lemma round_half_even_int (z : Z) : Py.round_half_even (inject_Z z) = z.
Proof.
  unfold Py.round_half_even. rewrite Qfloor_Z.
  replace (inject_Z z - inject_Z z ?= 1 # 2) with Lt; [reflexivity|].
  symmetry. apply (proj1 (Qlt_alt _ _)). generalize (inject_Z z). intro q. lra.
Qed.

(** A whole number rounds to itself. *)
Lemma round_int (z : Z) (n : nat) : Py.round (inject_Z z) n == inject_Z z.
Proof.
  rewrite RoundFacts.round_value.
  pose proof (RoundFacts.pow10_pos n) as Hp.
  rewrite <- inject_Z_mult, round_half_even_int, inject_Z_mult.
  field. intro E. rewrite E in Hp. discriminate.
Qed.

Lemma round_nonneg (x : Q) (n : nat) : 0 <= x -> 0 <= Py.round x n.
Proof.
  intro H. rewrite <- (round_int 0 n). now apply round_mono.
Qed.

End RoundMore.

(* ------------------------------------------------------------------ *)
(** ** More on the Camelot wheel *)

Module CamelotMore.
Import Camelot CamelotFacts.

Local Open Scope string_scope.
Local Open Scope Z_scope.

Lemma code_of_known (cam : string) (c : Z * ascii) :
  code_of cam = Some c -> (cam =? "?")%string = false /\ split_code cam = Some c.
Proof.
  unfold code_of. destruct (cam =? "?")%string; [discriminate|]. auto.
Qed.

(** The distance of two codes that split, by number and ring letter. *)
Lemma camelot_distance_codes (cam_a cam_b : string) (na nb : Z) (la lb : ascii) :
  code_of cam_a = Some (na, la) -> code_of cam_b = Some (nb, lb) ->
  camelot_distance cam_a cam_b
  = if Ascii.eqb la lb then Z.min (Z.abs (na - nb)) (12 - Z.abs (na - nb))
    else if na =? nb then 0
    else Z.min (Z.abs (na - nb)) (12 - Z.abs (na - nb)) + 1.
Proof.
  intros Ha Hb. apply code_of_known in Ha, Hb.
  destruct Ha as [Qa Sa], Hb as [Qb Sb].
  unfold camelot_distance. now rewrite Qa, Qb, Sa, Sb.
Qed.

Lemma camelot_distance_sym (cam_a cam_b : string) :
  camelot_distance cam_a cam_b = camelot_distance cam_b cam_a.
Proof.
  unfold camelot_distance. rewrite (orb_comm (cam_b =? "?")%string).
  destruct ((cam_a =? "?")%string || (cam_b =? "?")%string); [reflexivity|].
  destruct (split_code cam_a) as [[na la]|], (split_code cam_b) as [[nb lb]|];
    try reflexivity.
  rewrite (Ascii.eqb_sym lb la), (Z.eqb_sym nb na).
  replace (nb - na) with (- (na - nb)) by lia. now rewrite Z.abs_opp.
Qed.

(** X1.  The wheel distance, the relation and the harmonic score do not
    depend on the order of the two codes, whatever the strings. *)
Theorem camelot_symmetry (cam_a cam_b : string) :
  camelot_distance cam_a cam_b = camelot_distance cam_b cam_a /\
  camelot_relation cam_a cam_b = camelot_relation cam_b cam_a /\
  harmonic_score cam_a cam_b = harmonic_score cam_b cam_a.
Proof.
  unfold camelot_relation, harmonic_score.
  now rewrite (camelot_distance_sym cam_a cam_b).
Qed.

(** X2.  For two codes that split with numbers from 1 to 12, whatever their
    ring letters: the distance lies in 0..7, in 0..6 on one ring, and it is 0
    exactly when the numbers are equal. *)
Theorem camelot_distance_in_range (cam_a cam_b : string) (na nb : Z) (la lb : ascii) :
  code_of cam_a = Some (na, la) -> code_of cam_b = Some (nb, lb) ->
  1 <= na <= 12 -> 1 <= nb <= 12 ->
  0 <= camelot_distance cam_a cam_b <= 7 /\
  (la = lb -> camelot_distance cam_a cam_b <= 6) /\
  (camelot_distance cam_a cam_b = 0 <-> na = nb).
Proof.
  intros Ha Hb Ra Rb. rewrite (camelot_distance_codes _ _ _ _ _ _ Ha Hb).
  destruct (Ascii.eqb la lb) eqn:L.
  - repeat split; try lia.
  - apply Ascii.eqb_neq in L.
    destruct (na =? nb) eqn:N.
    + apply Z.eqb_eq in N. repeat split; try lia; intro; contradiction.
    + apply Z.eqb_neq in N. repeat split; try lia; intro; contradiction.
Qed.

Lemma camelot_distance_in_range_witness :
  0 <= camelot_distance "3B" "9A" <= 7 /\ (camelot_distance "3B" "9A" = 0 <-> 3 = 9).
Proof.
  destruct (camelot_distance_in_range "3B" "9A" 3 9 "B"%char "A"%char)
    as (R & _ & Z0); [reflexivity | reflexivity | lia | lia |].
  split; [exact R | exact Z0].
Defined.

(** X3.  A code is at distance 0 from itself when it splits into number and
    ring, whatever the number; otherwise the result is the sentinel. *)
Theorem camelot_distance_self (cam : string) :
  (code_of cam <> None -> camelot_distance cam cam = 0) /\
  (code_of cam = None -> camelot_distance cam cam = -1).
Proof.
  split.
  - destruct (code_of cam) as [[n l]|] eqn:E; [|congruence]. intros _.
    rewrite (camelot_distance_codes _ _ _ _ _ _ E E).
    rewrite Ascii.eqb_refl, Z.sub_diag. reflexivity.
  - intro E. apply camelot_distance_unknown. now left.
Qed.

Lemma camelot_distance_self_witness :
  camelot_distance "8A" "8A" = 0 /\ camelot_distance "?" "?" = -1.
Proof.
  split.
  - apply (proj1 (camelot_distance_self "8A")). discriminate.
  - apply (proj2 (camelot_distance_self "?")). reflexivity.
Defined.

(** The score as a function of the distance. *)
Lemma harmonic_score_cases (cam_a cam_b : string) :
  let d := camelot_distance cam_a cam_b in
  let s := harmonic_score cam_a cam_b in
  (d < 0 /\ s = 1 # 2) \/ (d = 0 /\ s = 1%Q) \/ (d = 1 /\ s = 85 # 100) \/
  (d = 2 /\ s = 6 # 10) \/ (d = 3 /\ s = 4 # 10) \/ (d = 4 /\ s = 2 # 10) \/
  (d = 5 /\ s = 1 # 10) \/ (6 <= d /\ s = 5 # 100).
Proof.
  cbv zeta. unfold harmonic_score.
  generalize (camelot_distance cam_a cam_b). intro d.
  destruct (d <? 0) eqn:N.
  - apply Z.ltb_lt in N. left. split; [exact N | reflexivity].
  - apply Z.ltb_ge in N. right.
    assert (C : d = 0 \/ d = 1 \/ d = 2 \/ d = 3 \/ d = 4 \/ d = 5 \/ d = 6 \/ 7 <= d)
      by lia.
    destruct C as [-> | [-> | [-> | [-> | [-> | [-> | [-> | G]]]]]]];
      try (simpl; tauto).
    + do 6 right. split; [lia | reflexivity].
    + do 6 right. split; [lia|].
      unfold scores, Py.zdict_get.
      repeat match goal with
             | |- context [d =? ?k] =>
                 destruct (d =? k) eqn:?E; [apply Z.eqb_eq in E; lia | clear E]
             end.
      reflexivity.
Qed.

(** The relation as a function of the distance. *)
Lemma camelot_relation_cases (cam_a cam_b : string) :
  let d := camelot_distance cam_a cam_b in
  let r := camelot_relation cam_a cam_b in
  (d < 0 /\ r = "unknown") \/ (d = 0 /\ r = "same") \/ (d = 1 /\ r = "adjacent") \/
  (d = 2 /\ r = "relative") \/ (3 <= d /\ r = "incompatible").
Proof.
  cbv zeta. unfold camelot_relation.
  generalize (camelot_distance cam_a cam_b). intro d.
  destruct (d <? 0) eqn:N; [apply Z.ltb_lt in N; tauto|]. apply Z.ltb_ge in N.
  destruct (d =? 0) eqn:E0; [apply Z.eqb_eq in E0; tauto|]. apply Z.eqb_neq in E0.
  destruct (d =? 1) eqn:E1; [apply Z.eqb_eq in E1; tauto|]. apply Z.eqb_neq in E1.
  destruct (d =? 2) eqn:E2; [apply Z.eqb_eq in E2; tauto|]. apply Z.eqb_neq in E2.
  do 4 right. split; [lia | reflexivity].
Qed.

Ltac qconst := unfold Qle; simpl; lia.



(** X5.  The relation and the score agree: "same" scores 1, "adjacent" 0.85,
    "relative" 0.6, "incompatible" at most 0.4, and "unknown" the neutral
    0.5. *)
Theorem relation_and_score (cam_a cam_b : string) :
  let r := camelot_relation cam_a cam_b in
  let s := harmonic_score cam_a cam_b in
  (r = "same" -> s = 1%Q) /\
  (r = "adjacent" -> s = 85 # 100) /\
  (r = "relative" -> s = 6 # 10) /\
  (r = "incompatible" -> (s <= 4 # 10)%Q) /\
  (r = "unknown" -> s = 1 # 2) /\
  (r = "same" \/ r = "adjacent" \/ r = "relative" \/ r = "incompatible" \/ r = "unknown").
Proof.
  pose proof (harmonic_score_cases cam_a cam_b) as A.
  pose proof (camelot_relation_cases cam_a cam_b) as R.
  cbv zeta in *.
  decompose [and or] R; clear R;
    match goal with H : camelot_relation _ _ = _ |- _ => rewrite H; clear H end;
    (repeat split; try discriminate; try tauto; intros _);
    decompose [and or] A; clear A; try lia;
    match goal with H : harmonic_score _ _ = _ |- _ => rewrite H; clear H end;
    try reflexivity; qconst.
Qed.

Lemma relation_and_score_witness :
  harmonic_score "8A" "9A" = 85 # 100 /\ harmonic_score "?" "9A" = 1 # 2.
Proof.
  split.
  - apply (proj1 (proj2 (relation_and_score "8A" "9A"))). reflexivity.
  - apply (proj1 (proj2 (proj2 (proj2 (proj2 (relation_and_score "?" "9A")))))).
    reflexivity.
Defined.

End CamelotMore.

(* ------------------------------------------------------------------ *)
(** ** Key names, codes and pitch classes *)

Module KeyFacts.
Import Camelot CamelotFacts KeyDetection.

Local Open Scope string_scope.
Local Open Scope Z_scope.

(** X6.  The key table is consistent across name forms: every entry
    ["X major"] has the code of ["X"] and every entry ["X minor"] the code of
    ["Xm"]; and [key_to_camelot] finds each entry's own code. *)
Theorem key_table_short_forms (key code short : string) :
  In (key, code) KEY_TO_CAMELOT ->
  key_to_camelot key = code /\
  (short_form key = Some short -> key_to_camelot short = code).
Proof.
  intro H.
  assert (E : forallb
                (fun kv =>
                   (key_to_camelot (fst kv) =? snd kv)%string
                   && match short_form (fst kv) with
                      | Some s => (key_to_camelot s =? snd kv)%string
                      | None => true
                      end)
                KEY_TO_CAMELOT = true) by (vm_compute; reflexivity).
  rewrite forallb_forall in E. specialize (E _ H). simpl in E.
  apply andb_true_iff in E. destruct E as [E1 E2].
  apply String.eqb_eq in E1. split; [exact E1|].
  intro S. rewrite S in E2. now apply String.eqb_eq in E2.
Qed.

Lemma key_table_short_forms_witness :
  key_to_camelot "F# minor" = "11A" /\ key_to_camelot "F#m" = "11A".
Proof.
  destruct (key_table_short_forms "F# minor" "11A" "F#m") as [E1 E2].
  - unfold KEY_TO_CAMELOT. simpl. do 20 right. left. reflexivity.
  - split; [exact E1 | apply E2; reflexivity].
Defined.

(** X7.  Every key name [detect_key] can return is in the key table, and the
    pitch class of its code is its index in the name list: major names lie
    on ring B, minor names on ring A. *)
Theorem key_names_pitch_classes (i : nat) (name : string) :
  (nth_error KEY_NAMES_MAJOR i = Some name ->
   exists num,
     code_of (key_to_camelot name) = Some (num, "B"%char) /\
     In (key_to_camelot name) wheel_codes /\
     Py.dict_get _CAMELOT_TO_PITCH (key_to_camelot name) = Some (Z.of_nat i)) /\
  (nth_error KEY_NAMES_MINOR i = Some name ->
   exists num,
     code_of (key_to_camelot name) = Some (num, "A"%char) /\
     In (key_to_camelot name) wheel_codes /\
     Py.dict_get _CAMELOT_TO_PITCH (key_to_camelot name) = Some (Z.of_nat i)).
Proof.
  split; intro H.
  - do 12 (destruct i as [|i];
           [ injection H as <-; eexists;
             split; [vm_compute; reflexivity|];
             split; [vm_compute; tauto | vm_compute; reflexivity] | ]).
    destruct i; discriminate.
  - do 12 (destruct i as [|i];
           [ injection H as <-; eexists;
             split; [vm_compute; reflexivity|];
             split; [vm_compute; tauto | vm_compute; reflexivity] | ]).
    destruct i; discriminate.
Qed.

Lemma key_names_pitch_classes_witness :
  Py.dict_get _CAMELOT_TO_PITCH (key_to_camelot "Am") = Some 9.
Proof.
  destruct (proj2 (key_names_pitch_classes 9 "Am") eq_refl) as (num & _ & _ & P).
  exact P.
Defined.

(** X8.  The pitch table follows the wheel: one step clockwise on a ring
    raises the tonic by a fifth (7 semitones, 12 wrapping to 1), and the
    minor code of a number has its tonic 9 semitones above the major code of
    that number. *)
Theorem pitch_table_fifths (cam_a cam_b : string) (na nb : Z) (la lb : ascii)
    (pa pb : Z) :
  code_of cam_a = Some (na, la) -> code_of cam_b = Some (nb, lb) ->
  Py.dict_get _CAMELOT_TO_PITCH cam_a = Some pa ->
  Py.dict_get _CAMELOT_TO_PITCH cam_b = Some pb ->
  (la = lb -> nb = na mod 12 + 1 -> pb = (pa + 7) mod 12) /\
  (na = nb -> la = "A"%char -> lb = "B"%char -> pa = (pb + 9) mod 12).
Proof.
  intros Ca Cb Pa Pb.
  assert (Ia : In cam_a wheel_codes).
  { unfold wheel_codes. revert Pa. generalize _CAMELOT_TO_PITCH.
    induction l as [|[k v] l IH]; simpl; [discriminate|].
    destruct (cam_a =? k)%string eqn:E; [apply String.eqb_eq in E; auto | auto]. }
  assert (Ib : In cam_b wheel_codes).
  { unfold wheel_codes. revert Pb. generalize _CAMELOT_TO_PITCH.
    induction l as [|[k v] l IH]; simpl; [discriminate|].
    destruct (cam_b =? k)%string eqn:E; [apply String.eqb_eq in E; auto | auto]. }
  assert (E := forall_wheel_pairs
    (fun a b =>
       match code_of a, code_of b,
             Py.dict_get _CAMELOT_TO_PITCH a, Py.dict_get _CAMELOT_TO_PITCH b with
       | Some (xa, ya), Some (xb, yb), Some qa, Some qb =>
           implb (Ascii.eqb ya yb && (xb =? xa mod 12 + 1)) (qb =? (qa + 7) mod 12)
           && implb ((xa =? xb) && Ascii.eqb ya "A" && Ascii.eqb yb "B")
                (qa =? (qb + 9) mod 12)
       | _, _, _, _ => false
       end)).
  specialize (E ltac:(vm_compute; reflexivity) cam_a cam_b Ia Ib). cbv beta in E.
  rewrite Ca, Cb, Pa, Pb in E.
  apply andb_true_iff in E. destruct E as [E1 E2]. split.
  - intros -> ->. rewrite Ascii.eqb_refl, Z.eqb_refl in E1. simpl in E1.
    now apply Z.eqb_eq in E1.
  - intros -> -> ->. rewrite Z.eqb_refl in E2. simpl in E2.
    now apply Z.eqb_eq in E2.
Qed.

Lemma pitch_table_fifths_witness :
  4 = (9 + 7) mod 12 /\ 9 = (0 + 9) mod 12.
Proof.
  split.
  - apply (proj1 (pitch_table_fifths "8A" "9A" 8 9 "A"%char "A"%char 9 4
                    eq_refl eq_refl eq_refl eq_refl)); reflexivity.
  - apply (proj2 (pitch_table_fifths "8A" "8B" 8 8 "A"%char "B"%char 9 0
                    eq_refl eq_refl eq_refl eq_refl)); reflexivity.
Defined.

Lemma pitch_in_range (cam : string) (p : Z) :
  Py.dict_get _CAMELOT_TO_PITCH cam = Some p -> 0 <= p < 12.
Proof.
  unfold _CAMELOT_TO_PITCH. simpl.
  repeat (destruct (cam =? _)%string; [intro H; injection H as <-; lia|]).
  discriminate.
Qed.

Lemma pitch_shift_range (cam_source cam_target : string) :
  -5 <= pitch_shift_to_match cam_source cam_target <= 6 /\
  (pitch_shift_to_match cam_source cam_target <> 0 ->
   1 < camelot_distance cam_source cam_target).
Proof.
  unfold pitch_shift_to_match.
  destruct (camelot_distance cam_source cam_target <=? 1) eqn:D.
  - split; [lia | congruence].
  - apply Z.leb_gt in D.
    destruct (Py.dict_get _CAMELOT_TO_PITCH cam_source) as [ps|] eqn:Ps;
      destruct (Py.dict_get _CAMELOT_TO_PITCH cam_target) as [pt|] eqn:Pt;
      try (split; [lia | congruence]).
    apply pitch_in_range in Ps, Pt.
    pose proof (Z.mod_pos_bound (pt - ps) 12 ltac:(lia)) as B.
    destruct ((pt - ps) mod 12 >? 6) eqn:G; split; try lia; intros _; exact D.
Qed.

(** X9.  For any two strings the shift lies in -5..6.  It is non-zero only
    for two listed codes more than one step apart, and then it carries the
    source's tonic onto the target's: source pitch plus shift is the target
    pitch modulo 12. *)
Theorem pitch_shift_aligns_tonics (cam_source cam_target : string) :
  -5 <= pitch_shift_to_match cam_source cam_target <= 6 /\
  (pitch_shift_to_match cam_source cam_target <> 0 ->
   1 < camelot_distance cam_source cam_target) /\
  (forall pitch_src pitch_tgt,
     1 < camelot_distance cam_source cam_target ->
     Py.dict_get _CAMELOT_TO_PITCH cam_source = Some pitch_src ->
     Py.dict_get _CAMELOT_TO_PITCH cam_target = Some pitch_tgt ->
     (pitch_src + pitch_shift_to_match cam_source cam_target) mod 12 = pitch_tgt) /\
  (Py.dict_get _CAMELOT_TO_PITCH cam_source = None \/
   Py.dict_get _CAMELOT_TO_PITCH cam_target = None ->
   pitch_shift_to_match cam_source cam_target = 0).
Proof.
  unfold pitch_shift_to_match.
  destruct (camelot_distance cam_source cam_target <=? 1) eqn:D.
  - apply Z.leb_le in D.
    split; [lia|]. split; [congruence|]. split; [intros; lia | reflexivity].
  - apply Z.leb_gt in D.
    destruct (Py.dict_get _CAMELOT_TO_PITCH cam_source) as [ps|] eqn:Ps;
      destruct (Py.dict_get _CAMELOT_TO_PITCH cam_target) as [pt|] eqn:Pt;
      try (split; [lia|]; split; [congruence|];
           split; [intros; discriminate | reflexivity]).
    apply pitch_in_range in Ps, Pt.
    pose proof (Z.mod_pos_bound (pt - ps) 12 ltac:(lia)) as B.
    assert (A : (ps + (pt - ps) mod 12) mod 12 = pt).
    { rewrite Zplus_mod_idemp_r. replace (ps + (pt - ps)) with pt by lia.
      apply Z.mod_small. lia. }
    destruct ((pt - ps) mod 12 >? 6) eqn:G.
    + split; [lia|]. split; [intros _; lia|]. split.
      * intros p q _ Ep Eq. injection Ep as <-. injection Eq as <-.
        replace (ps + ((pt - ps) mod 12 - 12))
          with (ps + (pt - ps) mod 12 + (-1) * 12) by lia.
        now rewrite Z_mod_plus_full.
      * intros [?|?]; discriminate.
    + assert ((pt - ps) mod 12 <= 6) by lia.
      split; [lia|]. split; [intros _; lia|]. split.
      * intros p q _ Ep Eq. injection Ep as <-. injection Eq as <-. exact A.
      * intros [?|?]; discriminate.
Qed.

Lemma pitch_shift_aligns_tonics_witness :
  (9 + pitch_shift_to_match "8A" "10B") mod 12 = 2.
Proof.
  apply (proj1 (proj2 (proj2 (pitch_shift_aligns_tonics "8A" "10B"))));
    [vm_compute; reflexivity | reflexivity | reflexivity].
Defined.

End KeyFacts.

(* ------------------------------------------------------------------ *)
(** ** More on rule_based_mix *)

Module FallbackMore.
Import Contracts Fallback.

Local Open Scope Q_scope.

(** The scan keeps the first element of least key. *)
Lemma min_scan_first (key : Q -> Q) (l : list Q) : forall best,
  let r := min_scan key best l in
  (r = best /\ forall d, In d l -> key best <= key d) \/
  (exists l1 l2,
     l = (l1 ++ r :: l2)%list /\ key r < key best /\
     (forall d, In d l1 -> key r < key d) /\
     (forall d, In d l2 -> key r <= key d)).
Proof.
  induction l as [|d l IH]; intro best; cbv zeta.
  - left. split; [reflexivity | intros d []].
  - simpl min_scan. destruct (Py.ltb (key d) (key best)) eqn:L.
    + apply PyFacts.ltb_lt in L. right.
      destruct (IH d) as [[E A] | (l1 & l2 & E & Lt & A1 & A2)].
      * exists [], l. rewrite E. simpl. repeat split; auto. intros x [].
      * exists (d :: l1), l2. split; [simpl; now rewrite <- E|].
        split; [eapply Qlt_trans; eassumption|]. split; [|exact A2].
        intros x [<- | Hx]; [exact Lt | now apply A1].
    + apply PyFacts.ltb_ge in L.
      destruct (IH best) as [[E A] | (l1 & l2 & E & Lt & A1 & A2)].
      * left. split; [exact E|]. intros x [<- | Hx]; [exact L | now apply A].
      * right. exists (d :: l1), l2. split; [simpl; now rewrite <- E|].
        split; [exact Lt|]. split; [|exact A2].
        intros x [<- | Hx]; [eapply Qlt_le_trans; eassumption | now apply A1].
Qed.

Lemma nearest_downbeat_split (d0 : Q) (l : list Q) (target_ms : Q) :
  let r := _nearest_downbeat (d0 :: l) target_ms in
  exists l1 l2,
    d0 :: l = (l1 ++ r :: l2)%list /\
    (forall d, In d l1 -> Qabs (r - target_ms) < Qabs (d - target_ms)) /\
    (forall d, In d l2 -> Qabs (r - target_ms) <= Qabs (d - target_ms)).
Proof.
  cbv zeta. unfold _nearest_downbeat.
  destruct (min_scan_first (fun d => Qabs (d - target_ms)) l d0)
    as [[E A] | (l1 & l2 & E & Lt & A1 & A2)]; cbv beta in *.
  - exists [], l. rewrite E. simpl. repeat split; auto. intros x [].
  - exists (d0 :: l1), l2. split; [simpl; f_equal; exact E|].
    split; [|exact A2]. intros x [<- | Hx]; [exact Lt | now apply A1].
Qed.



Lemma nearest_downbeat_in (downbeats_ms : list Q) (target_ms : Q) :
  downbeats_ms <> [] -> In (_nearest_downbeat downbeats_ms target_ms) downbeats_ms.
Proof.
  destruct downbeats_ms as [|d0 l]; [congruence|]. intros _.
  destruct (nearest_downbeat_split d0 l target_ms) as (l1 & l2 & E & _).
  rewrite E at 2. apply in_or_app. right. now left.
Qed.

(** The fields of a returned plan that do not depend on the transition
    window. *)
Lemma rule_based_mix_fixed_fields (float_repr : Q -> string)
    (contract_a : ContractA.t) (transition_start_ms : option Q)
    (mix_in_key : bool) (song_b_in_point_ms : option Q) (plan : ContractB.t) :
  rule_based_mix float_repr contract_a transition_start_ms mix_in_key
    song_b_in_point_ms = Some plan ->
  let md := ContractB.mix_decision plan in
  MixDecision.strategy md = "bass_swap"%string /\
  MixDecision.confidence md = 1 # 2 /\
  MixDecision.sfx md = SFXConfig.default /\
  MixDecision.suggestion md = None /\
  Transition.crossfade_curve (MixDecision.transition md) = "linear"%string /\
  SongMixPoint.pitch_shift_semitones (MixDecision.song_a md) = 0%Z /\
  SongMixPoint.pitch_shift_semitones (MixDecision.song_b md)
  = pitch_shift_b (ContractA.song_a contract_a) (ContractA.song_b contract_a)
      (ContractA.compatibility contract_a) mix_in_key.
Proof.
  unfold rule_based_mix.
  destruct (transition_duration _ _ _) as [dur|]; [|discriminate].
  destruct (stretch_factors _ _ _) as [[fa fb]|]; [|discriminate].
  intro H. injection H as <-. simpl. repeat split; reflexivity.
Qed.

(** X11.  When song A has downbeats, all within the song, and the target BPM
    is positive: the out point is one of the downbeats, and in any plan
    returned the transition duration lies between 0 and eight bars and is
    reported non-negative. *)
Theorem transition_duration_bounds (float_repr : Q -> string)
    (contract_a : ContractA.t) (transition_start_ms : option Q)
    (mix_in_key : bool) (song_b_in_point_ms : option Q) :
  let sa := ContractA.song_a contract_a in
  let target_bpm :=
    Compatibility.recommended_target_bpm (ContractA.compatibility contract_a) in
  let out := out_point sa transition_start_ms in
  SongAnalysis.downbeats_ms sa <> [] ->
  (forall d, In d (SongAnalysis.downbeats_ms sa) ->
             0 <= d <= SongAnalysis.duration_ms sa) ->
  0 < target_bpm ->
  In out (SongAnalysis.downbeats_ms sa) /\
  0 <= out <= SongAnalysis.duration_ms sa /\
  forall plan,
    rule_based_mix float_repr contract_a transition_start_ms mix_in_key
      song_b_in_point_ms = Some plan ->
    exists bars dur,
      eight_bars target_bpm = Some bars /\
      transition_duration sa out target_bpm = Some dur /\
      0 <= dur <= bars /\
      0 <= Transition.total_duration_ms
             (MixDecision.transition (ContractB.mix_decision plan)).
Proof.
  intros sa target_bpm out Hne Hin Ht.
  assert (Io : In out (SongAnalysis.downbeats_ms sa)).
  { unfold out, out_point. destruct transition_start_ms; now apply nearest_downbeat_in. }
  pose proof (Hin _ Io) as Ro.
  split; [exact Io|]. split; [exact Ro|].
  intros plan E.
  destruct (FallbackFacts.rule_based_mix_plan _ _ _ _ _ _ E)
    as (dur & fa & fb & Ed & _ & _ & _ & _ & _ & Hd & _).
  fold sa target_bpm out in Ed.
  destruct (FallbackFacts.transition_duration_inv _ _ _ _ Ed) as (bars & Eb & Ed').
  destruct (FallbackFacts.eight_bars_inv _ _ Eb) as [_ Vb].
  assert (Hb : 0 < bars).
  { rewrite Vb. apply Qlt_shift_div_l; [exact Ht | lra]. }
  assert (Hdur : 0 <= dur <= bars).
  { rewrite Ed'. destruct (Py.ltb _ _) eqn:L.
    - apply PyFacts.ltb_lt in L. lra.
    - lra. }
  exists bars, dur. split; [exact Eb|]. split; [exact Ed|]. split; [exact Hdur|].
  cbv zeta in Hd. rewrite Hd. apply RoundMore.round_nonneg. lra.
Qed.

Lemma transition_duration_bounds_witness :
  In (out_point (ContractA.song_a Inputs.late_downbeat_contract) None)
     (SongAnalysis.downbeats_ms (ContractA.song_a Inputs.late_downbeat_contract)).
Proof.
  refine (proj1 (transition_duration_bounds Inputs.no_repr
                   Inputs.late_downbeat_contract None false None _ _ _)).
  - discriminate.
  - intros d [<- | [<- | [<- | []]]]; split; vm_compute; discriminate.
  - vm_compute; reflexivity.
Defined.

(** X12.  In any plan returned, song A is never pitch-shifted and song B's
    shift lies in -5..6.  Song B is shifted only when key matching was asked
    for, the compatibility verdict is neither [True] nor ["unknown"], and the
    two codes are more than one step apart; the shift is then
    [pitch_shift_to_match] from song B's code to song A's. *)
Theorem pitch_shift_gating (float_repr : Q -> string)
    (contract_a : ContractA.t) (transition_start_ms : option Q)
    (mix_in_key : bool) (song_b_in_point_ms : option Q) (plan : ContractB.t) :
  rule_based_mix float_repr contract_a transition_start_ms mix_in_key
    song_b_in_point_ms = Some plan ->
  let md := ContractB.mix_decision plan in
  let sa := ContractA.song_a contract_a in
  let sb := ContractA.song_b contract_a in
  let verdict := Compatibility.key_compatible (ContractA.compatibility contract_a) in
  let shift := SongMixPoint.pitch_shift_semitones (MixDecision.song_b md) in
  SongMixPoint.pitch_shift_semitones (MixDecision.song_a md) = 0%Z /\
  (-5 <= shift <= 6)%Z /\
  (shift <> 0%Z ->
   mix_in_key = true /\ verdict <> IsBool true /\ verdict <> IsStr "unknown" /\
   (1 < Camelot.camelot_distance (SongAnalysis.camelot sb) (SongAnalysis.camelot sa))%Z /\
   shift = Camelot.pitch_shift_to_match (SongAnalysis.camelot sb) (SongAnalysis.camelot sa)) /\
  (mix_in_key = false \/ verdict = IsBool true \/ verdict = IsStr "unknown" ->
   shift = 0%Z).
Proof.
  intros E md sa sb verdict shift.
  destruct (rule_based_mix_fixed_fields _ _ _ _ _ _ E) as (_ & _ & _ & _ & _ & Pa & Pb).
  fold md in Pa, Pb. fold shift sa sb in Pb. unfold pitch_shift_b in Pb. fold verdict in Pb.
  pose proof (KeyFacts.pitch_shift_range (SongAnalysis.camelot sb)
                (SongAnalysis.camelot sa)) as (R & NZ).
  split; [exact Pa|].
  destruct mix_in_key; simpl in Pb.
  - destruct verdict as [[|]|s] eqn:V; simpl in Pb.
    + rewrite Pb. split; [lia|]. split; [congruence|]. reflexivity.
    + rewrite Pb. split; [exact R|]. split.
      * intro N. repeat split; try discriminate; auto.
      * intros [?|[?|?]]; discriminate.
    + destruct (s =? "unknown")%string eqn:S; simpl in Pb.
      * rewrite Pb. split; [lia|]. split; [congruence|]. reflexivity.
      * rewrite Pb. split; [exact R|]. split.
        -- intro N. repeat split; try discriminate; auto.
           intro K. injection K as ->. now rewrite String.eqb_refl in S.
        -- intros [?|[?|K]]; try discriminate.
           injection K as ->. now rewrite String.eqb_refl in S.
  - rewrite Pb. split; [lia|]. split; [congruence|]. reflexivity.
Qed.

Lemma pitch_shift_gating_witness :
  exists plan,
    rule_based_mix Inputs.no_repr Inputs.default_contract None true None = Some plan /\
    SongMixPoint.pitch_shift_semitones (MixDecision.song_b (ContractB.mix_decision plan))
    = 0%Z.
Proof.
  destruct (FallbackFacts.rule_based_mix_returns Inputs.no_repr Inputs.default_contract
              None true None) as [plan E]; [reflexivity | reflexivity | reflexivity |].
  exists plan. split; [exact E|].
  apply (proj2 (proj2 (proj2 (pitch_shift_gating _ _ _ _ _ _ E)))).
  right. left. vm_compute. reflexivity.
Defined.

End FallbackMore.

(* ------------------------------------------------------------------ *)
(** ** More on compute_compatibility *)

Module AnalysisMore.
Import Contracts Analysis.

Local Open Scope Q_scope.

Lemma ltb_comp (x x' y y' : Q) : x == x' -> y == y' -> Py.ltb x y = Py.ltb x' y'.
Proof. intros E F. unfold Py.ltb. now rewrite (Qcompare_comp _ _ E _ _ F). Qed.

Lemma py_min_sym (x y : Q) : py_min x y == py_min y x.
Proof.
  unfold py_min.
  destruct (Py.ltb y x) eqn:A; destruct (Py.ltb x y) eqn:B; try reflexivity.
  - apply PyFacts.ltb_lt in A, B. lra.
  - apply PyFacts.ltb_ge in A, B. lra.
Qed.

Lemma py_max_sym (x y : Q) : py_max x y == py_max y x.
Proof.
  unfold py_max.
  destruct (Py.ltb y x) eqn:A; destruct (Py.ltb x y) eqn:B; try reflexivity.
  - apply PyFacts.ltb_lt in A, B. lra.
  - apply PyFacts.ltb_ge in A, B. lra.
Qed.

Lemma py_min_le_max (x y : Q) : py_min x y <= py_max x y.
Proof.
  unfold py_min, py_max.
  destruct (Py.ltb y x) eqn:A; destruct (Py.ltb x y) eqn:B;
    try apply PyFacts.ltb_lt in A; try apply PyFacts.ltb_lt in B;
    try apply PyFacts.ltb_ge in A; try apply PyFacts.ltb_ge in B; lra.
Qed.

(** X13.  The compatibility of two songs does not depend on their order:
    every field of [compute_compatibility] is the same for (A, B) and
    (B, A). *)
Theorem compute_compatibility_symmetric (song_a song_b : SongAnalysis.t) :
  compute_compatibility song_a song_b = compute_compatibility song_b song_a.
Proof.
  unfold compute_compatibility.
  set (a := SongAnalysis.bpm song_a). set (b := SongAnalysis.bpm song_b).
  rewrite (CamelotMore.camelot_distance_sym (SongAnalysis.camelot song_b)).
  assert (R : Camelot.camelot_relation (SongAnalysis.camelot song_b) (SongAnalysis.camelot song_a)
              = Camelot.camelot_relation (SongAnalysis.camelot song_a) (SongAnalysis.camelot song_b)).
  { unfold Camelot.camelot_relation. now rewrite CamelotMore.camelot_distance_sym. }
  assert (S : Camelot.harmonic_score (SongAnalysis.camelot song_b) (SongAnalysis.camelot song_a)
              = Camelot.harmonic_score (SongAnalysis.camelot song_a) (SongAnalysis.camelot song_b)).
  { unfold Camelot.harmonic_score. now rewrite CamelotMore.camelot_distance_sym. }
  rewrite R, S. rewrite (Qabs_Qminus b a).
  rewrite (orb_comm (Py.ltb (SongAnalysis.key_confidence song_b) (1 # 2))).
  assert (T : Py.round ((b + a) / 2) 1 = Py.round ((a + b) / 2) 1).
  { apply RoundMore.round_comp. field. }
  rewrite T.
  assert (M : Py.round
                (if Py.ltb 0 (py_min b a) then py_max b a / py_min b a else 1) 3
              = Py.round
                  (if Py.ltb 0 (py_min a b) then py_max a b / py_min a b else 1) 3).
  { apply RoundMore.round_comp.
    rewrite (ltb_comp 0 0 (py_min b a) (py_min a b));
      [|reflexivity | apply py_min_sym].
    destruct (Py.ltb 0 (py_min a b)); [|reflexivity].
    now rewrite (py_max_sym b a), (py_min_sym b a). }
  rewrite M. reflexivity.
Qed.

(** X14.  What [compute_compatibility] reports is well formed: the harmonic
    score passes the model's range check, the BPM difference is not
    negative, the BPM ratio is at least 1, and the target BPM is within 0.05
    of the mean of the two BPMs, so between the slower and the faster BPM up
    to 0.05. *)
Theorem compute_compatibility_well_formed (song_a song_b : SongAnalysis.t) :
  let c := compute_compatibility song_a song_b in
  let a := SongAnalysis.bpm song_a in
  let b := SongAnalysis.bpm song_b in
  Validation.Compatibility_ok c = true /\
  0 <= Compatibility.bpm_diff c /\
  1 <= Compatibility.bpm_ratio c /\
  Qabs (Compatibility.recommended_target_bpm c - (a + b) / 2) <= 1 # 20 /\
  py_min a b - (1 # 20) <= Compatibility.recommended_target_bpm c
    <= py_max a b + (1 # 20).
Proof.
  cbv zeta. unfold compute_compatibility. cbn [Compatibility.bpm_diff
    Compatibility.bpm_ratio Compatibility.recommended_target_bpm].
  set (a := SongAnalysis.bpm song_a). set (b := SongAnalysis.bpm song_b).
  split; [|split; [|split; [|split]]].
  - unfold Validation.Compatibility_ok, Validation.unit_interval.
    cbn [Compatibility.harmonic_mixing_score].
    pose proof (CamelotMore.harmonic_score_cases (SongAnalysis.camelot song_a)
                  (SongAnalysis.camelot song_b)) as C.
    cbv zeta in C.
    decompose [and or] C;
      match goal with H : Camelot.harmonic_score _ _ = _ |- _ => rewrite H end;
      reflexivity.
  - apply RoundMore.round_nonneg. apply Qabs_nonneg.
  - apply Qle_trans with (Py.round 1 3); [vm_compute; discriminate|].
    apply RoundMore.round_mono.
    destruct (Py.ltb 0 (py_min a b)) eqn:P; [|lra].
    apply PyFacts.ltb_lt in P.
    apply Qle_shift_div_l; [exact P|]. pose proof (py_min_le_max a b). lra.
  - apply RoundFacts.round1_error.
  - pose proof (RoundFacts.round1_error ((a + b) / 2)) as E.
    apply Qabs_Qle_condition in E.
    assert (L : py_min a b <= (a + b) / 2 <= py_max a b).
    { unfold py_min, py_max.
      destruct (Py.ltb b a) eqn:A; destruct (Py.ltb a b) eqn:B;
        try apply PyFacts.ltb_lt in A; try apply PyFacts.ltb_lt in B;
        try apply PyFacts.ltb_ge in A; try apply PyFacts.ltb_ge in B;
        split; apply Qle_shift_div_l || apply Qle_shift_div_r; lra. }
    lra.
Qed.

End AnalysisMore.

(* ------------------------------------------------------------------ *)
(** ** The phrase helpers *)

Module PhraseFacts.
Import Contracts Phrases.

Local Open Scope Q_scope.

(** X15.  With fewer than two segments every phrase is a verse.  Otherwise
    the first segment is the intro and the last one (and any index beyond)
    the outro, whatever the energy; and only the five labels verse, intro,
    outro, chorus and breakdown are ever given. *)
Theorem classify_phrase_labels (index total : Z) (energy : Q) :
  ((total <= 1)%Z -> _classify_phrase index total energy = "verse"%string) /\
  ((2 <= total)%Z -> _classify_phrase 0 total energy = "intro"%string) /\
  ((2 <= total)%Z -> (total - 1 <= index)%Z ->
   _classify_phrase index total energy = "outro"%string) /\
  In (_classify_phrase index total energy)
     ["verse"; "intro"; "outro"; "chorus"; "breakdown"]%string.
Proof.
  unfold _classify_phrase. split; [|split; [|split]].
  - intro H. apply Z.leb_le in H. now rewrite H.
  - intro H. assert (L : (total <=? 1)%Z = false) by (apply Z.leb_gt; lia).
    rewrite L.
    assert (R : Py.ltb (inject_Z 0 / inject_Z (Z.max 1 (total - 1))) (1 # 10) = true).
    { apply PyFacts.ltb_lt. unfold Qdiv. rewrite Qmult_0_l. reflexivity. }
    now rewrite R.
  - intros H I. assert (L : (total <=? 1)%Z = false) by (apply Z.leb_gt; lia).
    rewrite L. rewrite Z.max_r by lia.
    assert (P : 0 < inject_Z (total - 1)).
    { change 0 with (inject_Z 0). rewrite <- Zlt_Qlt. lia. }
    assert (G : 1 <= inject_Z index / inject_Z (total - 1)).
    { apply Qle_shift_div_l; [exact P|]. rewrite Qmult_1_l. rewrite <- Zle_Qle. exact I. }
    assert (A : Py.ltb (inject_Z index / inject_Z (total - 1)) (1 # 10) = false).
    { apply PyFacts.ltb_ge. eapply Qle_trans; [|exact G]. discriminate. }
    assert (B : Py.ltb (9 # 10) (inject_Z index / inject_Z (total - 1)) = true).
    { apply PyFacts.ltb_lt. eapply Qlt_le_trans; [|exact G]. reflexivity. }
    now rewrite A, B.
  - destruct (total <=? 1)%Z; [simpl; tauto|].
    repeat match goal with
           | |- context [if ?b then _ else _] => destruct b
           end; simpl; tauto.
Qed.

Lemma classify_phrase_labels_witness :
  _classify_phrase 0 4 (9 # 10) = "intro"%string /\
  _classify_phrase 3 4 (9 # 10) = "outro"%string /\
  _classify_phrase 5 1 (9 # 10) = "verse"%string.
Proof.
  split; [|split].
  - apply (proj1 (proj2 (classify_phrase_labels 0 4 (9 # 10)))). lia.
  - apply (proj1 (proj2 (proj2 (classify_phrase_labels 3 4 (9 # 10))))); lia.
  - apply (proj1 (classify_phrase_labels 5 1 (9 # 10))). lia.
Defined.

Lemma of_nat_succ (n : nat) :
  inject_Z (Z.of_nat (S n)) == inject_Z (Z.of_nat n) + 1.
Proof. rewrite Nat2Z.inj_succ. unfold Z.succ. now rewrite inject_Z_plus. Qed.

Lemma sum_bounds (lo hi : Q) (l : list Q) :
  (forall x, In x l -> lo <= x <= hi) ->
  lo * inject_Z (Z.of_nat (List.length l)) <= sum l
  <= hi * inject_Z (Z.of_nat (List.length l)).
Proof.
  induction l as [|x l IH]; intro H.
  - simpl. change (inject_Z 0) with 0. lra.
  - cbn [List.length sum fold_right]. fold (sum l). rewrite of_nat_succ.
    pose proof (H x (or_introl eq_refl)).
    assert (K : forall y, In y l -> lo <= y <= hi) by (intros; apply H; now right).
    specialize (IH K). set (n := inject_Z (Z.of_nat (List.length l))) in *. lra.
Qed.

(** The mean of a non-empty list lies between any bounds of its elements. *)
Lemma mean_bounds (lo hi : Q) (l : list Q) :
  l <> [] -> (forall x, In x l -> lo <= x <= hi) -> lo <= mean l <= hi.
Proof.
  intros N H. pose proof (sum_bounds lo hi l H) as [A B]. unfold mean.
  assert (P : 0 < inject_Z (Z.of_nat (List.length l))).
  { change 0 with (inject_Z 0). rewrite <- Zlt_Qlt.
    destruct l; [congruence | simpl; lia]. }
  split; [apply Qle_shift_div_l | apply Qle_shift_div_r]; assumption.
Qed.

Lemma avg_energy_range (energy_curve : list EnergyPoint.t) (start_ms end_ms : Q) :
  forallb Validation.EnergyPoint_ok energy_curve = true ->
  0 <= _avg_energy_in_range energy_curve start_ms end_ms <= 1 /\
  Validation.unit_interval
    (Py.round (_avg_energy_in_range energy_curve start_ms end_ms) 2) = true.
Proof.
  unfold _avg_energy_in_range.
  intro V. rewrite forallb_forall in V.
  set (points := map EnergyPoint.rms _).
  assert (B : forall x, In x points -> 0 <= x <= 1).
  { intros x Hx. unfold points in Hx. apply in_map_iff in Hx.
    destruct Hx as (p & <- & Hp). apply filter_In in Hp. destruct Hp as [Hp _].
    specialize (V p Hp). unfold Validation.EnergyPoint_ok, Validation.unit_interval in V.
    apply andb_true_iff in V. destruct V as [V1 V2].
    apply PyFacts.leb_le in V1, V2. split; assumption. }
  assert (R : 0 <= match points with [] => 1 # 2 | _ :: _ => mean points end <= 1).
  { destruct points as [|x l] eqn:E; [split; discriminate|].
    apply mean_bounds; [discriminate | exact B]. }
  split; [exact R|].
  unfold Validation.unit_interval. apply andb_true_iff. split; apply PyFacts.leb_le.
  - apply RoundMore.round_nonneg. apply R.
  - apply Qle_trans with (Py.round 1 2); [|vm_compute; discriminate].
    apply RoundMore.round_mono. apply R.
Qed.

(** X16.  The average energy of a time range is 0.5 when no point of the
    curve falls in the range.  When every point of the curve has its [rms]
    in [0, 1], the average lies in [0, 1] too, and rounded to two decimals
    it passes the range check of [Phrase]. *)
Theorem avg_energy_in_unit_interval (energy_curve : list EnergyPoint.t)
    (start_ms end_ms : Q) :
  ((forall p, In p energy_curve ->
      ~ (start_ms <= EnergyPoint.ms p <= end_ms)) ->
   _avg_energy_in_range energy_curve start_ms end_ms = 1 # 2) /\
  (forallb Validation.EnergyPoint_ok energy_curve = true ->
   0 <= _avg_energy_in_range energy_curve start_ms end_ms <= 1 /\
   Validation.unit_interval
     (Py.round (_avg_energy_in_range energy_curve start_ms end_ms) 2) = true).
Proof.
  split; [|apply avg_energy_range].
  unfold _avg_energy_in_range. intro H.
  assert (E : filter (fun p => Py.leb start_ms (EnergyPoint.ms p)
                               && Py.leb (EnergyPoint.ms p) end_ms) energy_curve = []).
  { induction energy_curve as [|p l IH]; [reflexivity|]. simpl.
    destruct (Py.leb start_ms (EnergyPoint.ms p) && Py.leb (EnergyPoint.ms p) end_ms)
      eqn:C.
    - exfalso. apply andb_true_iff in C. destruct C as [C1 C2].
      apply PyFacts.leb_le in C1, C2. apply (H p); [now left | split; assumption].
    - apply IH. intros q Hq. apply H. now right. }
  now rewrite E.
Qed.

Lemma avg_energy_in_unit_interval_witness :
  _avg_energy_in_range (MoreInputs.flat_energy 4) 5000 9000 = 1 # 2 /\
  0 <= _avg_energy_in_range (MoreInputs.flat_energy 4) 0 2000 <= 1.
Proof.
  destruct (avg_energy_in_unit_interval (MoreInputs.flat_energy 4) 5000 9000) as [A _].
  destruct (avg_energy_in_unit_interval (MoreInputs.flat_energy 4) 0 2000) as [_ B].
  split.
  - apply A. intros p [<- | [<- | [<- | [<- | []]]]] [L _]; vm_compute in L; apply L; reflexivity.
  - apply B. reflexivity.
Defined.

Lemma last_default (a b : Q) (l : list Q) : l <> [] -> last l a = last l b.
Proof.
  induction l as [|x l IH]; [congruence|]. intros _.
  destruct l as [|y l]; [reflexivity|].
  change (last (x :: y :: l) a) with (last (y :: l) a).
  change (last (x :: y :: l) b) with (last (y :: l) b).
  apply IH. discriminate.
Qed.

(** The gaps between consecutive beats add up to the span of the beats. *)
Lemma sum_intervals (l : list Q) (a : Q) : sum (intervals (a :: l)) == last l a - a.
Proof.
  revert a. induction l as [|b l IH]; intro a.
  - simpl. unfold sum. simpl. lra.
  - change (intervals (a :: b :: l)) with ((b - a) :: intervals (b :: l)).
    unfold sum in *. cbn [fold_right]. rewrite IH.
    assert (E : last (b :: l) a = last l b).
    { destruct l as [|c l]; [reflexivity|].
      change (last (b :: c :: l) a) with (last (c :: l) a).
      apply last_default. discriminate. }
    rewrite E. lra.
Qed.

Lemma length_intervals (l : list Q) (a : Q) :
  List.length (intervals (a :: l)) = List.length l.
Proof.
  revert a. induction l as [|b l IH]; intro a; [reflexivity|].
  change (intervals (a :: b :: l)) with ((b - a) :: intervals (b :: l)).
  simpl. f_equal. apply IH.
Qed.

(** X17.  The average tempo is always positive.  It is 120 for fewer than
    two beats, and for beats whose last one is not after the first.
    Otherwise, the floats computed exactly, it is the number of gaps times
    60000 over the time from the first beat to the last: the beats in
    between do not matter. *)
Theorem avg_bpm_spans_first_to_last (beats_ms : list Q) :
  0 < _avg_bpm beats_ms /\
  ((List.length beats_ms < 2)%nat -> _avg_bpm beats_ms = 120) /\
  (forall first rest, beats_ms = first :: rest -> rest <> [] ->
     (last rest first <= first -> _avg_bpm beats_ms = 120) /\
     (first < last rest first ->
      _avg_bpm beats_ms
      == 60000 * inject_Z (Z.of_nat (List.length rest)) / (last rest first - first))).
Proof.
  assert (G : forall first rest, rest <> [] ->
            mean (intervals (first :: rest))
            == (last rest first - first) / inject_Z (Z.of_nat (List.length rest))
            /\ 0 < inject_Z (Z.of_nat (List.length rest))).
  { intros first rest N. unfold mean. rewrite length_intervals, sum_intervals.
    split; [reflexivity|]. change 0 with (inject_Z 0). rewrite <- Zlt_Qlt.
    destruct rest; [congruence | simpl; lia]. }
  split; [|split].
  - unfold _avg_bpm. destruct (List.length beats_ms <? 2)%nat; [reflexivity|].
    destruct (Py.ltb 0 (mean (intervals beats_ms))) eqn:L; [|reflexivity].
    apply PyFacts.ltb_lt in L. apply Qlt_shift_div_l; [exact L|]. lra.
  - intro H. unfold _avg_bpm. apply Nat.ltb_lt in H. now rewrite H.
  - intros first rest -> N. destruct (G first rest N) as [E P].
    assert (L2 : (List.length (first :: rest) <? 2)%nat = false).
    { apply Nat.ltb_ge. destruct rest; [congruence | simpl; lia]. }
    unfold _avg_bpm. rewrite L2. cbv zeta.
    set (n := inject_Z (Z.of_nat (List.length rest))) in *.
    set (m := mean (intervals (first :: rest))) in *.
    split; intro H.
    + assert (F : Py.ltb 0 m = false).
      { apply PyFacts.ltb_ge. rewrite E. apply Qle_shift_div_r; [exact P|]. lra. }
      now rewrite F.
    + assert (T : Py.ltb 0 m = true).
      { apply PyFacts.ltb_lt. rewrite E. apply Qlt_shift_div_l; [exact P|]. lra. }
      rewrite T, E. field. split; lra.
Qed.

Lemma avg_bpm_spans_first_to_last_witness :
  _avg_bpm [0; 400; 1100; 1500] == 120 /\ _avg_bpm [1000] = 120 /\
  _avg_bpm [500; 900; 500] = 120.
Proof.
  split; [|split].
  - destruct (avg_bpm_spans_first_to_last [0; 400; 1100; 1500]) as (_ & _ & H).
    destruct (H 0 [400; 1100; 1500] eq_refl ltac:(discriminate)) as [_ K].
    rewrite K by reflexivity. reflexivity.
  - apply (proj1 (proj2 (avg_bpm_spans_first_to_last [1000]))). simpl. lia.
  - destruct (avg_bpm_spans_first_to_last [500; 900; 500]) as (_ & _ & H).
    destruct (H 500 [900; 500] eq_refl ltac:(discriminate)) as [K _].
    apply K. simpl. discriminate.
Defined.

Lemma range_step_length (n : nat) : List.length (range_step n 8) = ((n + 7) / 8)%nat.
Proof.
  unfold range_step. rewrite length_map, length_seq.
  now replace (n + 8 - 1)%nat with (n + 7)%nat by lia.
Qed.

Lemma fallback_phrases_nth (downbeats_ms : list Q) (energy_curve : list EnergyPoint.t)
    (duration_ms : Q) (beats_ms : list Q) (k : nat) :
  (k < (List.length downbeats_ms + 7) / 8)%nat ->
  nth_error (_fallback_phrases downbeats_ms energy_curve duration_ms beats_ms) k
  = Some (fallback_phrase downbeats_ms energy_curve duration_ms (k * 8)).
Proof.
  intro H. unfold _fallback_phrases, range_step.
  replace (List.length downbeats_ms + 8 - 1)%nat
    with (List.length downbeats_ms + 7)%nat by lia.
  rewrite !nth_error_map.
  rewrite (nth_error_nth' _ 0%nat) by (now rewrite length_seq).
  rewrite seq_nth by exact H. reflexivity.
Qed.

(** Whether the group starting at downbeat [8 k] has a next group. *)
Lemma group_has_next (n k : nat) :
  let groups := ((n + 7) / 8)%nat in
  ((k + 1 < groups)%nat -> (k * 8 + 8 < n)%nat) /\
  ((k + 1 = groups)%nat -> (n <= k * 8 + 8)%nat).
Proof.
  cbv zeta.
  pose proof (Nat.div_mod_eq (n + 7) 8) as E.
  pose proof (Nat.mod_upper_bound (n + 7) 8 ltac:(discriminate)) as U.
  revert E U. generalize ((n + 7) / 8)%nat ((n + 7) mod 8)%nat. intros q r E U.
  split; intro H; lia.
Qed.

(** X18.  The fallback cuts the downbeats into groups of eight: one phrase
    of 8 bars per group, [ceil (n / 8)] phrases for [n] downbeats.  Phrase
    [k] starts at downbeat [8 k], rounded to one decimal.  The last phrase
    ends at the duration of the song; any other phrase whose group starts
    before the next group does ends where the next phrase starts. *)
Theorem fallback_phrases_chain (downbeats_ms : list Q)
    (energy_curve : list EnergyPoint.t) (duration_ms : Q) (beats_ms : list Q) :
  let phrases := _fallback_phrases downbeats_ms energy_curve duration_ms beats_ms in
  List.length phrases = ((List.length downbeats_ms + 7) / 8)%nat /\
  forall k, (k < List.length phrases)%nat ->
    exists p, nth_error phrases k = Some p /\
      Phrase.bars p = 8%Z /\
      Phrase.start_ms p = Py.round (nth (8 * k) downbeats_ms 0) 1 /\
      ((k + 1 = List.length phrases)%nat -> Phrase.end_ms p = Py.round duration_ms 1) /\
      ((k + 1 < List.length phrases)%nat ->
       nth (8 * k) downbeats_ms 0 < nth (8 * k + 8) downbeats_ms 0 ->
       exists q, nth_error phrases (k + 1) = Some q /\
                 Phrase.end_ms p = Phrase.start_ms q).
Proof.
  cbv zeta.
  assert (L : List.length (_fallback_phrases downbeats_ms energy_curve duration_ms beats_ms)
              = ((List.length downbeats_ms + 7) / 8)%nat).
  { unfold _fallback_phrases. rewrite length_map. apply range_step_length. }
  split; [exact L|]. rewrite L. intros k Hk.
  exists (fallback_phrase downbeats_ms energy_curve duration_ms (k * 8)).
  split; [now apply fallback_phrases_nth|].
  destruct (group_has_next (List.length downbeats_ms) k) as [Nx Ls]. cbv zeta in Nx, Ls.
  replace (8 * k)%nat with (k * 8)%nat by lia.
  split; [reflexivity|]. split; [reflexivity|]. split.
  - intro E. specialize (Ls E). unfold fallback_phrase. cbn [Phrase.end_ms].
    assert (F : (k * 8 + 8 <? List.length downbeats_ms)%nat = false)
      by (apply Nat.ltb_ge; lia).
    rewrite F. now destruct (Py.leb duration_ms (nth (k * 8) downbeats_ms 0)).
  - intros E I. specialize (Nx E).
    exists (fallback_phrase downbeats_ms energy_curve duration_ms ((k + 1) * 8)).
    split; [apply fallback_phrases_nth; lia|].
    unfold fallback_phrase. cbn [Phrase.end_ms Phrase.start_ms].
    assert (T : (k * 8 + 8 <? List.length downbeats_ms)%nat = true)
      by (apply Nat.ltb_lt; lia).
    rewrite T. rewrite Nat.min_l by lia.
    assert (G : Py.leb (nth (k * 8 + 8) downbeats_ms 0) (nth (k * 8) downbeats_ms 0) = false).
    { destruct (Py.leb _ _) eqn:C; [|reflexivity].
      apply PyFacts.leb_le in C. exfalso. lra. }
    rewrite G. f_equal. f_equal. lia.
Qed.

Lemma fallback_phrases_chain_witness :
  exists p q,
    nth_error (_fallback_phrases (Fallback.times 10 2000)
                 (MoreInputs.flat_energy 20) 20000 []) 0 = Some p /\
    nth_error (_fallback_phrases (Fallback.times 10 2000)
                 (MoreInputs.flat_energy 20) 20000 []) 1 = Some q /\
    Phrase.end_ms p = Phrase.start_ms q /\ Phrase.end_ms q = Py.round 20000 1.
Proof.
  destruct (fallback_phrases_chain (Fallback.times 10 2000)
              (MoreInputs.flat_energy 20) 20000 []) as [_ H].
  destruct (H 0%nat ltac:(vm_compute; lia)) as (p & Hp & _ & _ & _ & Nx).
  destruct (Nx ltac:(vm_compute; lia) ltac:(vm_compute; reflexivity)) as (q & Hq & E).
  destruct (H 1%nat ltac:(vm_compute; lia)) as (q' & Hq' & _ & _ & Ls & _).
  exists p, q. split; [exact Hp|]. split; [exact Hq|]. split; [exact E|].
  assert (q' = q) by (change (0 + 1)%nat with 1%nat in Hq; congruence). subst q'.
  apply Ls. vm_compute. reflexivity.
Defined.

(** X19.  When the points of the energy curve passed the range check of
    [EnergyPoint], every phrase of the fallback passes the check of
    [Phrase]: building the phrases raises no validation error. *)
Theorem fallback_phrases_valid (downbeats_ms : list Q)
    (energy_curve : list EnergyPoint.t) (duration_ms : Q) (beats_ms : list Q) :
  forallb Validation.EnergyPoint_ok energy_curve = true ->
  forallb Validation.Phrase_ok
    (_fallback_phrases downbeats_ms energy_curve duration_ms beats_ms) = true.
Proof.
  intro V. apply forallb_forall. intros p Hp.
  unfold _fallback_phrases in Hp. apply in_map_iff in Hp. destruct Hp as (i & <- & _).
  unfold Validation.Phrase_ok, fallback_phrase. cbn [Phrase.avg_energy].
  now apply avg_energy_range.
Qed.

Lemma fallback_phrases_valid_witness :
  forallb Validation.Phrase_ok
    (_fallback_phrases (Fallback.times 10 2000)
       (MoreInputs.flat_energy 20) 20000 []) = true.
Proof. apply fallback_phrases_valid. reflexivity. Defined.

End PhraseFacts.

(* ------------------------------------------------------------------ *)
(** ** The filters and fallbacks of the renderer *)

Module RendererMore.
Import Contracts Renderer.

Local Open Scope string_scope.
Local Open Scope Q_scope.

Lemma product_app (l : list Q) (a : Q) :
  MoreInputs.product (l ++ [a])%list == MoreInputs.product l * a.
Proof.
  induction l as [|x l IH]; simpl; [ring|]. rewrite IH. ring.
Qed.

Lemma halve_loop_inv (fuel : nat) : forall (v : Q) (chain : list Q),
  (forall x, In x chain -> x = 2 \/ x = 1 # 2) ->
  (forall x, In x (fst (halve_loop fuel v chain)) -> x = 2 \/ x = 1 # 2) /\
  MoreInputs.product (fst (halve_loop fuel v chain)) * snd (halve_loop fuel v chain)
  == MoreInputs.product chain * v.
Proof.
  induction fuel as [|fuel IH]; intros v chain H; simpl.
  - split; [exact H | reflexivity].
  - destruct (Py.ltb 2 v).
    + destruct (IH (v / 2) (chain ++ [2])%list) as [A B].
      { intros x Hx. apply in_app_iff in Hx. destruct Hx as [Hx | [<- | []]]; auto. }
      split; [exact A|]. rewrite B, product_app. field.
    + split; [exact H | reflexivity].
Qed.

Lemma double_loop_inv (fuel : nat) : forall (v : Q) (chain : list Q),
  (forall x, In x chain -> x = 2 \/ x = 1 # 2) ->
  (forall x, In x (fst (double_loop fuel v chain)) -> x = 2 \/ x = 1 # 2) /\
  MoreInputs.product (fst (double_loop fuel v chain)) * snd (double_loop fuel v chain)
  == MoreInputs.product chain * v.
Proof.
  induction fuel as [|fuel IH]; intros v chain H; simpl.
  - split; [exact H | reflexivity].
  - destruct (Py.ltb v (1 # 2)).
    + destruct (IH (v * 2) (chain ++ [1 # 2])%list) as [A B].
      { intros x Hx. apply in_app_iff in Hx. destruct Hx as [Hx | [<- | []]]; auto. }
      split; [exact A|]. rewrite B, product_app. field.
    + split; [exact H | reflexivity].
Qed.

(** X20.  For a positive factor the atempo chain is a run of links 2.0 or
    0.5 followed by one last link printed with four decimals.  Every link
    lies in the range 0.5 to 2 that ffmpeg's atempo accepts, and the links
    multiply to the factor, up to the rounding of the last one. *)
Theorem atempo_chain_links (factor : Q) :
  0 < factor ->
  (forall x, In x (atempo_chain factor) -> 1 # 2 <= x <= 2) /\
  exists chain v,
    atempo_chain factor = (chain ++ [Py.round v 4])%list /\
    (forall x, In x chain -> x = 2 \/ x = 1 # 2) /\
    1 # 2 <= v <= 2 /\
    MoreInputs.product chain * v == factor.
Proof.
  intro H.
  destruct (AtempoFacts.atempo_loops_exit factor H) as [R _].
  assert (I : (forall x, In x (fst (atempo_loops factor)) -> x = 2 \/ x = 1 # 2) /\
              MoreInputs.product (fst (atempo_loops factor)) * snd (atempo_loops factor)
              == factor).
  { unfold atempo_loops.
    destruct (halve_loop_inv (Pos.to_nat (Pos.size (Z.to_pos (Qnum factor)))) factor [])
      as [A1 B1]; [intros x []|].
    destruct (halve_loop _ factor []) as [chain1 v1]. cbn [fst snd] in A1, B1.
    destruct (double_loop_inv (Pos.to_nat (Pos.size (Qden v1))) v1 chain1 A1) as [A2 B2].
    split; [exact A2|]. rewrite B2, B1. simpl. ring. }
  destruct I as [I1 I2].
  assert (E : atempo_chain factor
              = (fst (atempo_loops factor) ++ [Py.round (snd (atempo_loops factor)) 4])%list).
  { unfold atempo_chain. now destruct (atempo_loops factor). }
  split.
  - intros x Hx. rewrite E in Hx. apply in_app_iff in Hx.
    destruct Hx as [Hx | [<- | []]].
    + destruct (I1 x Hx) as [-> | ->]; split; discriminate.
    + split.
      * apply Qle_trans with (Py.round (1 # 2) 4); [vm_compute; discriminate|].
        apply RoundMore.round_mono, R.
      * apply Qle_trans with (Py.round 2 4); [|vm_compute; discriminate].
        apply RoundMore.round_mono, R.
  - exists (fst (atempo_loops factor)), (snd (atempo_loops factor)).
    repeat split; try assumption; apply R.
Qed.

Lemma atempo_chain_links_witness :
  atempo_chain 5 = [2; 2; 5 # 4] /\ atempo_chain (1 # 5) = [1 # 2; 1 # 2; 4 # 5] /\
  forall x, In x (atempo_chain (10 # 3)) -> 1 # 2 <= x <= 2.
Proof.
  split; [reflexivity|]. split; [reflexivity|].
  apply (proj1 (atempo_chain_links (10 # 3) eq_refl)).
Defined.

(** X21.  An EQ entry gives no filter exactly when its band is not one of
    bass, highs and mids, or when it ends at or before its start or at or
    before the time offset of the segment. *)
Theorem eq_filter_none_iff (entry : EQAutomationEntry.t) (band : string)
    (offset_ms : Q) :
  _eq_filter_for_band entry band offset_ms = None <->
  (EQAutomationEntry.end_ms entry <= EQAutomationEntry.start_ms entry \/
   EQAutomationEntry.end_ms entry <= offset_ms \/
   ~ In band ["bass"; "highs"; "mids"]).
Proof.
  unfold _eq_filter_for_band. cbv zeta.
  set (s := EQAutomationEntry.start_ms entry).
  set (e := EQAutomationEntry.end_ms entry).
  set (start_s := if Py.ltb ((s - offset_ms) / 1000) 0 then 0 else (s - offset_ms) / 1000).
  assert (D : forall x, x / 1000 == x * (1 # 1000)) by (intro x; field).
  assert (K : Py.leb ((e - offset_ms) / 1000 - start_s) 0 = true
              <-> e <= s \/ e <= offset_ms).
  { rewrite PyFacts.leb_le. unfold start_s.
    destruct (Py.ltb ((s - offset_ms) / 1000) 0) eqn:N;
      [apply PyFacts.ltb_lt in N | apply PyFacts.ltb_ge in N];
      rewrite D in N; rewrite !D; split.
    - intro L. right. lra.
    - intros [C | C]; lra.
    - intro L. left. lra.
    - intros [C | C]; lra. }
  destruct (Py.leb ((e - offset_ms) / 1000 - start_s) 0) eqn:L.
  - split; [|reflexivity]. intros _.
    destruct (proj1 K eq_refl) as [C | C]; [left | right; left]; exact C.
  - assert (F : ~ (e <= s \/ e <= offset_ms)).
    { intro C. apply K in C. discriminate. }
    destruct (String.eqb_spec band "bass") as [->|B1].
    { split; [discriminate|]. intros [C | [C | C]];
        [exfalso; apply F; now left | exfalso; apply F; now right
        | exfalso; apply C; simpl; auto]. }
    destruct (String.eqb_spec band "highs") as [->|B2].
    { split; [discriminate|]. intros [C | [C | C]];
        [exfalso; apply F; now left | exfalso; apply F; now right
        | exfalso; apply C; simpl; auto]. }
    destruct (String.eqb_spec band "mids") as [->|B3].
    { split; [discriminate|]. intros [C | [C | C]];
        [exfalso; apply F; now left | exfalso; apply F; now right
        | exfalso; apply C; simpl; auto]. }
    split; [|reflexivity]. intros _. right. right.
    simpl. intros [<- | [<- | [<- | []]]]; congruence.
Qed.





End RendererMore.

(* ------------------------------------------------------------------ *)
(** ** The tools of the renderer and their failures *)

Module PipelineFacts.
Import Contracts Renderer.

Local Open Scope string_scope.

Section Facts.

Variable World : Type.
Variable run : Command -> World -> World * option exn.
Variable ffprobe_duration : Path -> World -> World * (exn + string).
Variable mkdtemp : World -> World * (exn + Path).
Variable rmtree : Path -> World -> World.
Variable OUTPUT_DIR : Path.
Variable suffix_lower : Path -> string.
Variable float_of_string : string -> option Q.
Variable pow2 : Q -> Q.

Local Notation "'log'" := (log_of World).
Local Notation "'result'" := (outcome World).

(** X23.  [_time_stretch] with a factor other than 0 first runs rubberband
    with the time ratio [1 / factor].  If that works it returns the output
    path.  If rubberband exits with an error or is not installed, and the
    factor is positive, it runs ffmpeg with the atempo chain of the factor
    and has the outcome of that command.  Any other exception of rubberband,
    such as its timeout, is raised at once: ffmpeg is not tried. *)
Theorem time_stretch_fallback (input_wav : Path) (factor : Q) (output_path : Path)
    (w : World) :
  ~ (factor == 0)%Q ->
  let first := rubberband_tempo (1 / factor) input_wav output_path in
  let second := ffmpeg_atempo (atempo_chain factor) input_wav output_path in
  let r := _time_stretch World run input_wav factor output_path w in
  match run first w with
  | (w1, None) => r = (w1, [first], inr output_path)
  | (w1, Some e) =>
      match e with
      | CalledProcessError | FileNotFoundError =>
          (0 < factor)%Q ->
          r = (fst (run second w1), [first; second],
               match snd (run second w1) with
               | Some e2 => inl e2
               | None => inr output_path
               end)
      | _ => r = (w1, [first], inl e)
      end
  end.
Proof.
  intro H. cbv zeta. unfold _time_stretch. rewrite PyFacts.div_some by exact H.
  unfold try_except, bind, exec, ret, raise.
  destruct (run (rubberband_tempo _ _ _) w) as [w1 [e|]]; [|reflexivity].
  destruct e; try reflexivity.
  - intro P. assert (N : Py.ltb factor 0 = false)
      by (apply PyFacts.ltb_ge; apply Qlt_le_weak; exact P).
    rewrite N. destruct (run (ffmpeg_atempo _ _ _) w1) as [w2 [e2|]]; reflexivity.
  - intro P. assert (N : Py.ltb factor 0 = false)
      by (apply PyFacts.ltb_ge; apply Qlt_le_weak; exact P).
    rewrite N. destruct (run (ffmpeg_atempo _ _ _) w1) as [w2 [e2|]]; reflexivity.
Qed.


(** X25.  When the primary path returns, it has run the conversions of the
    two songs first, and last the two exports of the same mixed file: the
    loudness-normalised MP3 at 320k, then the WAV. *)
Theorem primary_render_exports (get_sfx_audio : SFXConfig.t -> Path ->
                                   World -> World * (exn + option Path))
    (contract_b : ContractB.t) (song_a_path song_b_path : Path)
    (session_id : string) (work_dir : Path) (w : World) (p : Path) :
  let first :=
    primary_render World run ffprobe_duration get_sfx_audio OUTPUT_DIR
      suffix_lower float_of_string pow2 contract_b song_a_path song_b_path
      session_id work_dir w in
  result first = inr p ->
  exists middle mixed,
    log first
    = ([ ensure_wav_command suffix_lower song_a_path (joinpath work_dir "a_full.wav");
         ensure_wav_command suffix_lower song_b_path (joinpath work_dir "b_full.wav") ]
       ++ middle
       ++ [ ffmpeg_loudnorm mixed (Some "320k")
              (joinpath OUTPUT_DIR (session_id ++ "_mix.mp3"));
            ffmpeg_loudnorm mixed None
              (joinpath OUTPUT_DIR (session_id ++ "_mix.wav")) ])%list.
Proof.
  cbv zeta. unfold primary_render. cbv zeta. intro H.
  apply RendererFacts.returns_then in H. destruct H as (w1 & l1 & wav_a & Ha & H & E).
  rewrite E. clear E. cbv beta in H.
  apply RendererFacts.returns_then in H. destruct H as (w2 & l2 & wav_b & Hb & H & E).
  rewrite E. clear E. cbv beta in H.
  apply RendererFacts.ensure_wav_returns in Ha, Hb. subst l1 l2.
  match goal with
  | |- exists _ _, ([_] ++ [_] ++ ?x)%list = _ =>
      enough (G : exists middle mixed,
                 x = (middle
                      ++ [ ffmpeg_loudnorm mixed (Some "320k")
                             (joinpath OUTPUT_DIR (session_id ++ "_mix.mp3"));
                           ffmpeg_loudnorm mixed None
                             (joinpath OUTPUT_DIR (session_id ++ "_mix.wav")) ])%list);
      [destruct G as (middle & mixed & ->); now exists middle, mixed|]
  end.
  do 10 (apply RendererFacts.returns_then in H; destruct H as (? & ? & ? & _ & H & E);
         rewrite E; clear E; cbv beta in H;
         apply (RendererFacts.prepended _ _
                  (fun mixed =>
                     [ ffmpeg_loudnorm mixed (Some "320k")
                         (joinpath OUTPUT_DIR (session_id ++ "_mix.mp3"));
                       ffmpeg_loudnorm mixed None
                         (joinpath OUTPUT_DIR (session_id ++ "_mix.wav")) ]))).
  apply RendererFacts.returns_then in H. destruct H as (w3 & l3 & u & Hn & _ & E).
  rewrite E. clear E. apply RendererFacts.normalize_returns in Hn. subst l3.
  eexists [], _. reflexivity.
Qed.

(** X26.  If the working directory cannot be created, [render_mix] raises
    that exception and runs nothing.  Otherwise the last thing it does to
    the world is to remove the working directory, after the primary path if
    that returned, after the simplified render if not, whether that one
    returned or raised. *)
Theorem render_mix_cleanup (get_sfx_audio : SFXConfig.t -> Path ->
                               World -> World * (exn + option Path))
    (contract_b : ContractB.t) (song_a_path song_b_path : Path)
    (session_id : string) (w : World) :
  let final :=
    render_mix World run ffprobe_duration get_sfx_audio mkdtemp rmtree OUTPUT_DIR
      suffix_lower float_of_string pow2 contract_b song_a_path song_b_path
      session_id w in
  match mkdtemp w with
  | (w0, inl e) => final = (w0, [], inl e)
  | (w0, inr work_dir) =>
      let first :=
        primary_render World run ffprobe_duration get_sfx_audio OUTPUT_DIR
          suffix_lower float_of_string pow2 contract_b song_a_path song_b_path
          session_id work_dir w0 in
      let second :=
        _simplified_render World run OUTPUT_DIR suffix_lower song_a_path
          song_b_path contract_b session_id work_dir (fst (fst first)) in
      fst (fst final)
      = rmtree work_dir
          match result first with
          | inr _ => fst (fst first)
          | inl _ => fst (fst second)
          end
  end.
Proof.
  cbv zeta. unfold render_mix, bind, lift.
  destruct (mkdtemp w) as [w0 [e|work_dir]]; [reflexivity|].
  unfold render_in, try_finally, try_except, outcome.
  destruct (primary_render _ _ _ _ _ _ _ _ _ _ _ _ _ w0) as [[w1 l1] [e|p]];
    cbn [fst snd]; [|reflexivity].
  destruct (_simplified_render _ _ _ _ _ _ _ _ _ w1) as [[w2 l2] r]. reflexivity.
Qed.

(** The primary path asks the SFX director only for a plan whose SFX are
    enabled. *)
Lemma primary_render_sfx_disabled
    (g1 g2 : SFXConfig.t -> Path -> World -> World * (exn + option Path))
    (contract_b : ContractB.t) (song_a_path song_b_path : Path)
    (session_id : string) (work_dir : Path) (w : World) :
  SFXConfig.enabled (MixDecision.sfx (ContractB.mix_decision contract_b)) = false ->
  primary_render World run ffprobe_duration g1 OUTPUT_DIR suffix_lower
    float_of_string pow2 contract_b song_a_path song_b_path session_id work_dir w
  = primary_render World run ffprobe_duration g2 OUTPUT_DIR suffix_lower
      float_of_string pow2 contract_b song_a_path song_b_path session_id work_dir w.
Proof.
  intro H. unfold primary_render. cbv zeta. rewrite H. reflexivity.
Qed.

(** X27.  A plan of the rule-based engine has its SFX disabled, and rendering
    a plan with disabled SFX never asks the SFX director: the render is the
    same whatever the director would have answered. *)
Theorem rule_based_render_without_sfx (float_repr : Q -> string)
    (contract_a : ContractA.t) (transition_start_ms : option Q) (mix_in_key : bool)
    (song_b_in_point_ms : option Q) (plan : ContractB.t)
    (g1 g2 : SFXConfig.t -> Path -> World -> World * (exn + option Path))
    (song_a_path song_b_path : Path) (session_id : string) (w : World) :
  Fallback.rule_based_mix float_repr contract_a transition_start_ms mix_in_key
    song_b_in_point_ms = Some plan ->
  SFXConfig.enabled (MixDecision.sfx (ContractB.mix_decision plan)) = false /\
  render_mix World run ffprobe_duration g1 mkdtemp rmtree OUTPUT_DIR suffix_lower
    float_of_string pow2 plan song_a_path song_b_path session_id w
  = render_mix World run ffprobe_duration g2 mkdtemp rmtree OUTPUT_DIR suffix_lower
      float_of_string pow2 plan song_a_path song_b_path session_id w.
Proof.
  intro H.
  destruct (FallbackMore.rule_based_mix_fixed_fields _ _ _ _ _ _ H) as (_ & _ & S & _).
  cbv zeta in S.
  assert (E : SFXConfig.enabled (MixDecision.sfx (ContractB.mix_decision plan)) = false)
    by (now rewrite S).
  split; [exact E|].
  unfold render_mix, bind, lift.
  destruct (mkdtemp w) as [w0 [e|work_dir]]; [reflexivity|].
  unfold render_in, try_finally, try_except.
  now rewrite (primary_render_sfx_disabled g1 g2 plan song_a_path song_b_path
                 session_id work_dir w0 E).
Qed.

End Facts.

Lemma time_stretch_fallback_witness :
  _time_stretch unit MoreInputs.no_rubberband "seg_a.wav" 4 "a_stretched.wav" tt
  = (tt,
     [ rubberband_tempo (1 / 4) "seg_a.wav" "a_stretched.wav";
       ffmpeg_atempo [2; 2]%Q "seg_a.wav" "a_stretched.wav" ],
     inr "a_stretched.wav") /\
  _time_stretch unit MoreInputs.slow_rubberband "seg_a.wav" 4 "a_stretched.wav" tt
  = (tt, [ rubberband_tempo (1 / 4) "seg_a.wav" "a_stretched.wav" ],
     inl TimeoutExpired).
Proof.
  split.
  - exact (time_stretch_fallback unit MoreInputs.no_rubberband
             "seg_a.wav" 4 "a_stretched.wav" tt ltac:(discriminate) eq_refl).
  - exact (time_stretch_fallback unit MoreInputs.slow_rubberband
             "seg_a.wav" 4 "a_stretched.wav" tt ltac:(discriminate)).
Defined.

Lemma primary_render_exports_witness :
  exists middle mixed,
    log_of unit
      (primary_render unit Inputs.all_work Inputs.probe_15s Inputs.no_sfx "/out"
         Inputs.mp3_suffix Inputs.float_15 Inputs.pow2_one Inputs.stretch_plan
         "a.mp3" "b.mp3" "s1" "/tmp/dj_render_0" tt)
    = ([ ffmpeg_to_wav "a.mp3" "/tmp/dj_render_0/a_full.wav";
         ffmpeg_to_wav "b.mp3" "/tmp/dj_render_0/b_full.wav" ]
       ++ middle
       ++ [ ffmpeg_loudnorm mixed (Some "320k") "/out/s1_mix.mp3";
            ffmpeg_loudnorm mixed None "/out/s1_mix.wav" ])%list.
Proof.
  apply (primary_render_exports unit Inputs.all_work Inputs.probe_15s "/out"
           Inputs.mp3_suffix Inputs.float_15 Inputs.pow2_one Inputs.no_sfx
           Inputs.stretch_plan "a.mp3" "b.mp3" "s1" "/tmp/dj_render_0" tt
           "/out/s1_mix.mp3").
  vm_compute. reflexivity.
Defined.

Lemma rule_based_render_without_sfx_witness :
  render_mix unit Inputs.all_work Inputs.probe_15s Inputs.no_sfx Inputs.tmp_dir
    Inputs.keep_dir "/out" Inputs.mp3_suffix Inputs.float_15 Inputs.pow2_one
    Inputs.stretch_plan "a.mp3" "b.mp3" "s1" tt
  = render_mix unit Inputs.all_work Inputs.probe_15s
      (fun _ _ w => (w, inl TimeoutExpired)) Inputs.tmp_dir
      Inputs.keep_dir "/out" Inputs.mp3_suffix Inputs.float_15 Inputs.pow2_one
      Inputs.stretch_plan "a.mp3" "b.mp3" "s1" tt.
Proof.
  apply (rule_based_render_without_sfx unit Inputs.all_work Inputs.probe_15s
           Inputs.tmp_dir Inputs.keep_dir "/out" Inputs.mp3_suffix Inputs.float_15
           Inputs.pow2_one Inputs.no_repr Inputs.stretch_contract None false None).
  reflexivity.
Defined.

End PipelineFacts.

(* ------------------------------------------------------------------ *)
(** ** ai_mix_decision *)

Module StrategistFacts.
Import Contracts Strategist.

Local Open Scope string_scope.

Section Facts.

Variable World : Type.
Variable GEMINI_API_KEY : string.
Variable _call_gemini :
  ContractA.t -> option Q -> option string -> option Q ->
  World -> World * (Renderer.exn + ContractB.t).
Variable float_repr : Q -> string.

Local Notation "'ai'" :=
  (ai_mix_decision World GEMINI_API_KEY _call_gemini float_repr).

Lemma rule_based_returns (contract_a : ContractA.t) (transition_start_ms : option Q)
    (mix_in_key : bool) (song_b_in_point_ms : option Q) :
  (0 < Compatibility.recommended_target_bpm (ContractA.compatibility contract_a))%Q ->
  (0 < SongAnalysis.bpm (ContractA.song_a contract_a))%Q ->
  (0 < SongAnalysis.bpm (ContractA.song_b contract_a))%Q ->
  exists plan,
    rule_based float_repr contract_a transition_start_ms mix_in_key song_b_in_point_ms
    = inr plan.
Proof.
  intros Ht Ha Hb.
  destruct (FallbackFacts.rule_based_mix_returns float_repr contract_a
              transition_start_ms mix_in_key song_b_in_point_ms Ht Ha Hb) as [plan E].
  exists plan. unfold rule_based. now rewrite E.
Qed.

(** X28.  For a pair whose two tempos and target tempo are positive,
    [ai_mix_decision] always returns a plan: with or without an API key,
    and whatever Gemini does, it does not raise. *)
Theorem ai_mix_decision_returns (contract_a : ContractA.t)
    (transition_start_ms : option Q) (user_strategy : option string)
    (mix_in_key : bool) (song_b_in_point_ms : option Q) (w : World) :
  (0 < Compatibility.recommended_target_bpm (ContractA.compatibility contract_a))%Q ->
  (0 < SongAnalysis.bpm (ContractA.song_a contract_a))%Q ->
  (0 < SongAnalysis.bpm (ContractA.song_b contract_a))%Q ->
  exists plan,
    snd (ai contract_a transition_start_ms user_strategy mix_in_key
           song_b_in_point_ms w) = inr plan.
Proof.
  intros Ht Ha Hb.
  destruct (rule_based_returns contract_a transition_start_ms mix_in_key
              song_b_in_point_ms Ht Ha Hb) as [plan E].
  unfold ai_mix_decision. destruct (GEMINI_API_KEY =? "").
  - exists plan. exact E.
  - destruct (_call_gemini _ _ _ _ w) as [w' [e|result]].
    + exists plan. exact E.
    + destruct (mix_in_key && _)%bool; eexists; reflexivity.
Qed.

(** X29.  Without an API key Gemini is not called: the world is untouched
    and the outcome is that of [rule_based_mix] on the same arguments (the
    user's strategy is dropped).  With a key, any exception of the call to
    Gemini gives that same outcome, in the world the call left. *)
Theorem ai_mix_decision_falls_back (contract_a : ContractA.t)
    (transition_start_ms : option Q) (user_strategy : option string)
    (mix_in_key : bool) (song_b_in_point_ms : option Q) (w : World) :
  let fallback :=
    rule_based float_repr contract_a transition_start_ms mix_in_key
      song_b_in_point_ms in
  (GEMINI_API_KEY = "" ->
   ai contract_a transition_start_ms user_strategy mix_in_key song_b_in_point_ms w
   = (w, fallback)) /\
  (GEMINI_API_KEY <> "" ->
   forall w' e,
     _call_gemini contract_a transition_start_ms user_strategy song_b_in_point_ms w
     = (w', inl e) ->
     ai contract_a transition_start_ms user_strategy mix_in_key song_b_in_point_ms w
     = (w', fallback)).
Proof.
  cbv zeta. unfold ai_mix_decision. split.
  - intros ->. reflexivity.
  - intros N w' e E. apply String.eqb_neq in N. now rewrite N, E.
Qed.

Lemma set_song_b_pitch_same (result : ContractB.t) :
  set_song_b_pitch result
    (SongMixPoint.pitch_shift_semitones
       (MixDecision.song_b (ContractB.mix_decision result)))
  = result.
Proof. destruct result as [[? ? ? ? [] ? ? ?]]. reflexivity. Qed.

(** X30.  When Gemini answers with a plan, [ai_mix_decision] returns that
    plan with at most song B's pitch shift changed.  The shift is replaced
    only when mixing in key was asked for and the plan's shift is 0: then
    by the shift that brings song B's Camelot code to song A's, also for
    keys that are already compatible. *)
Theorem ai_mix_decision_pitch (contract_a : ContractA.t)
    (transition_start_ms : option Q) (user_strategy : option string)
    (mix_in_key : bool) (song_b_in_point_ms : option Q) (w w' : World)
    (result : ContractB.t) :
  GEMINI_API_KEY <> "" ->
  _call_gemini contract_a transition_start_ms user_strategy song_b_in_point_ms w
  = (w', inr result) ->
  let pitch_of plan :=
    SongMixPoint.pitch_shift_semitones
      (MixDecision.song_b (ContractB.mix_decision plan)) in
  exists final,
    ai contract_a transition_start_ms user_strategy mix_in_key song_b_in_point_ms w
    = (w', inr final) /\
    final = set_song_b_pitch result (pitch_of final) /\
    pitch_of final
    = (if mix_in_key && (pitch_of result =? 0)%Z
       then Camelot.pitch_shift_to_match
              (SongAnalysis.camelot (ContractA.song_b contract_a))
              (SongAnalysis.camelot (ContractA.song_a contract_a))
       else pitch_of result) /\
    (mix_in_key = false \/ pitch_of result <> 0%Z -> final = result).
Proof.
  intros N E. cbv zeta. apply String.eqb_neq in N.
  unfold ai_mix_decision. rewrite N, E.
  destruct (mix_in_key && _)%bool eqn:C.
  - eexists. split; [reflexivity|]. split; [reflexivity|]. split; [reflexivity|].
    apply andb_true_iff in C. destruct C as [C1 C2]. apply Z.eqb_eq in C2.
    intros [F | F]; congruence.
  - exists result. split; [reflexivity|].
    split; [symmetry; apply set_song_b_pitch_same|]. split; reflexivity.
Qed.

End Facts.

Lemma ai_mix_decision_returns_witness :
  exists plan,
    snd (ai_mix_decision unit "key" MoreInputs.gemini_down Inputs.no_repr
           Inputs.stretch_contract None None true None tt) = inr plan.
Proof.
  apply ai_mix_decision_returns; reflexivity.
Defined.

Lemma ai_mix_decision_falls_back_witness :
  ai_mix_decision unit "key" MoreInputs.gemini_down Inputs.no_repr
    Inputs.stretch_contract None (Some "echo_out") false None tt
  = (tt, inr Inputs.stretch_plan) /\
  ai_mix_decision unit "" MoreInputs.gemini_down Inputs.no_repr
    Inputs.stretch_contract None (Some "echo_out") false None tt
  = (tt, inr Inputs.stretch_plan).
Proof.
  destruct (ai_mix_decision_falls_back unit "key" MoreInputs.gemini_down Inputs.no_repr
              Inputs.stretch_contract None (Some "echo_out") false None tt) as [_ A].
  destruct (ai_mix_decision_falls_back unit "" MoreInputs.gemini_down Inputs.no_repr
              Inputs.stretch_contract None (Some "echo_out") false None tt) as [B _].
  split.
  - rewrite (A ltac:(discriminate) tt Renderer.TimeoutExpired eq_refl).
    vm_compute. reflexivity.
  - rewrite (B eq_refl). vm_compute. reflexivity.
Defined.

Lemma ai_mix_decision_pitch_witness :
  exists final,
    ai_mix_decision unit "key" (MoreInputs.gemini_says Inputs.stretch_plan)
      Inputs.no_repr Inputs.stretch_contract None None true None tt
    = (tt, inr final) /\
    SongMixPoint.pitch_shift_semitones
      (MixDecision.song_b (ContractB.mix_decision final))
    = Camelot.pitch_shift_to_match
        (SongAnalysis.camelot (ContractA.song_b Inputs.stretch_contract))
        (SongAnalysis.camelot (ContractA.song_a Inputs.stretch_contract)).
Proof.
  destruct (ai_mix_decision_pitch unit "key" (MoreInputs.gemini_says Inputs.stretch_plan)
              Inputs.no_repr Inputs.stretch_contract None None true None tt tt
              Inputs.stretch_plan ltac:(discriminate) eq_refl)
    as (final & E & _ & P & _).
  exists final. split; [exact E | exact P].
Defined.

End StrategistFacts.
